(** * feathers-couchbase: the N1QL query builder

    A shallow embedding of [lib/querybuilder/querybuilder.js] and the
    properties of its rendering.  The builder is a JavaScript class that
    mutates an instance (a clause log [query] and a parameter list
    [_values]) and throws exceptions; it is embedded as state passing over
    a record, in a small state-and-exception monad in which the state
    survives a throw, as it does in JavaScript. *)

From Stdlib Require Import List String Ascii Bool ZArith NArith Lia.
From Stdlib Require Import DecimalString DecimalNat DecimalN.
Import ListNotations.
Open Scope string_scope.
Set Warnings "-register-all".

(* ===================================================================== *)
(** * The fragment of the JavaScript runtime the builder relies on *)
(* ===================================================================== *)

Module JS.

(** Numbers are given by their decimal expansion: [Finite neg m e] is
    [(-1)^neg * m * 10^e].  JavaScript prints a double by its shortest
    round-tripping decimal expansion, so this is the view of a number that
    [ToString], [parseInt] and [parseFloat] have; binary rounding of
    integers above [2^53] is not part of the model. *)
Inductive number :=
| NaN
| Infinity (negative : bool)
| Finite (negative : bool) (m : N) (e : Z).

Inductive value :=
| VUndefined
| VNull
| VBool (b : bool)
| VNum (n : number)
| VStr (s : string)
| VArr (items : list value)
| VObj (props : list (string * value)).

(** ** Characters and strings *)

Definition is_digit (c : ascii) : bool :=
  let n := nat_of_ascii c in (48 <=? n)%nat && (n <=? 57)%nat.

Definition is_hex_digit (c : ascii) : bool :=
  let n := nat_of_ascii c in
  is_digit c || ((65 <=? n)%nat && (n <=? 70)%nat) || ((97 <=? n)%nat && (n <=? 102)%nat).

Definition is_octal_digit (c : ascii) : bool :=
  let n := nat_of_ascii c in (48 <=? n)%nat && (n <=? 55)%nat.

Definition is_binary_digit (c : ascii) : bool :=
  let n := nat_of_ascii c in (48 <=? n)%nat && (n <=? 49)%nat.

(** The value of a digit in a radix up to sixteen. *)
Definition digit_value (c : ascii) : N :=
  let n := N_of_ascii c in
  if (97 <=? n)%N then n - 87 else if (65 <=? n)%N then n - 55 else n - 48.

(** StrWhiteSpaceChar, for the characters below 128: TAB, LF, VT, FF, CR
    and SP. *)
Definition is_whitespace (c : ascii) : bool :=
  let n := nat_of_ascii c in ((9 <=? n)%nat && (n <=? 13)%nat) || (n =? 32)%nat.

Fixpoint span (p : ascii -> bool) (s : string) : string * string :=
  match s with
  | EmptyString => (EmptyString, EmptyString)
  | String c r =>
      if p c then let (a, b) := span p r in (String c a, b)
      else (EmptyString, s)
  end.

Fixpoint trimStart (s : string) : string :=
  match s with
  | String c r => if is_whitespace c then trimStart r else s
  | EmptyString => EmptyString
  end.

Fixpoint trimEnd (s : string) : string :=
  match s with
  | EmptyString => EmptyString
  | String c r =>
      match trimEnd r with
      | EmptyString => if is_whitespace c then EmptyString else String c EmptyString
      | r' => String c r'
      end
  end.

Definition trim (s : string) : string := trimEnd (trimStart s).

Definition upper_char (c : ascii) : ascii :=
  let n := nat_of_ascii c in
  if (97 <=? n)%nat && (n <=? 122)%nat then ascii_of_nat (n - 32) else c.

(** [String.prototype.toUpperCase], on the characters below 128. *)
Fixpoint toUpperCase (s : string) : string :=
  match s with
  | EmptyString => EmptyString
  | String c r => String (upper_char c) (toUpperCase r)
  end.

(** ** Numbers to strings: Number::toString, radix ten *)

Definition digits_of_N (m : N) : string := NilZero.string_of_uint (N.to_uint m).
Definition digits_of_nat (n : nat) : string := NilZero.string_of_uint (Nat.to_uint n).

Fixpoint strip_trailing_zeros (s : string) : string :=
  match s with
  | EmptyString => EmptyString
  | String c r =>
      match strip_trailing_zeros r with
      | EmptyString => if Ascii.eqb c "0" then EmptyString else String c EmptyString
      | r' => String c r'
      end
  end.

Fixpoint zeros (n : nat) : string :=
  match n with O => EmptyString | S n' => String "0" (zeros n') end.

Definition Number_toString (x : number) : string :=
  match x with
  | NaN => "NaN"
  | Infinity neg => (if neg then "-" else EmptyString) ++ "Infinity"
  | Finite neg m e =>
      if (m =? 0)%N then "0" else
      let all := digits_of_N m in
      let ds := strip_trailing_zeros all in
      let k := Z.of_nat (String.length ds) in
      let n := (Z.of_nat (String.length all) + e)%Z in
      (if neg then "-" else EmptyString) ++
      (if (k <=? n)%Z && (n <=? 21)%Z then ds ++ zeros (Z.to_nat (n - k))
       else if (0 <? n)%Z && (n <=? 21)%Z then
         substring 0 (Z.to_nat n) ds ++ "." ++ substring (Z.to_nat n) (Z.to_nat (k - n)) ds
       else if (-6 <? n)%Z && (n <=? 0)%Z then "0." ++ zeros (Z.to_nat (- n)) ++ ds
       else
         let e1 := (n - 1)%Z in
         let exponent :=
           "e" ++ (if (e1 <? 0)%Z then "-" else "+") ++ digits_of_N (Z.to_N (Z.abs e1)) in
         match ds with
         | EmptyString => exponent
         | String d EmptyString => String d exponent
         | String d rest => String d ("." ++ rest) ++ exponent
         end)
  end.

(** ** ToString, Array.prototype.join *)

Definition is_nullish (v : value) : bool :=
  match v with VUndefined | VNull => true | _ => false end.

(** [ToString], of the values in which no object has an own property
    [toString]: an object then prints as [[object Object]].  An own
    property of that name is data, the conversion finds no method and
    throws a [TypeError]; the properties that depend on a conversion
    returning are stated of the values with no such object, [plain]
    below. *)
Fixpoint ToString (v : value) : string :=
  match v with
  | VUndefined => "undefined"
  | VNull => "null"
  | VBool true => "true"
  | VBool false => "false"
  | VNum n => Number_toString n
  | VStr s => s
  | VArr items =>
      String.concat ","
        (map (fun x =>
                match x with
                | VUndefined | VNull => EmptyString
                | _ => ToString x
                end) items)
  | VObj _ => "[object Object]"
  end.

(** An element of an array, as [join] prints it. *)
Definition join_item (v : value) : string :=
  if is_nullish v then EmptyString else ToString v.

Definition join (separator : string) (items : list value) : string :=
  String.concat separator (map join_item items).

(** ** Strings to numbers: StringToNumber, parseInt, parseFloat *)

Fixpoint number_of_digits (radix : N) (acc : N) (s : string) : N :=
  match s with
  | EmptyString => acc
  | String c r => number_of_digits radix (radix * acc + digit_value c) r
  end.

Definition starts_with (p s : string) : bool := String.prefix p s.

(** An optional sign: whether it is a minus, and what follows it. *)
Definition take_sign (s : string) : bool * string :=
  match s with
  | String "-" r => (true, r)
  | String "+" r => (false, r)
  | _ => (false, s)
  end.

Definition drop2 (s : string) : string :=
  match s with String _ (String _ r) => r | _ => EmptyString end.

Definition all_digits (p : ascii -> bool) (radix : N) (s : string) : number :=
  match span p s with
  | (String _ _ as ds, EmptyString) => Finite false (number_of_digits radix 0 ds) 0
  | _ => NaN
  end.

(** The exponent part of a decimal literal that must end the string:
    [None] when what is left is not an exponent part. *)
Definition exponent_part (s : string) : option Z :=
  match s with
  | EmptyString => Some 0%Z
  | String c r =>
      if Ascii.eqb c "e" || Ascii.eqb c "E" then
        let (neg, u) := take_sign r in
        match span is_digit u with
        | (String _ _ as ds, EmptyString) =>
            let x := Z.of_N (number_of_digits 10 0 ds) in
            Some (if neg then (- x)%Z else x)
        | _ => None
        end
      else None
  end.

(** StrDecimalLiteral, matched against the whole string. *)
Definition decimal_literal (s : string) : number :=
  let (neg, u) := take_sign s in
  if String.eqb u "Infinity" then Infinity neg else
  let (ip, r1) := span is_digit u in
  let (fp, r2) :=
    match r1 with
    | String "." r => span is_digit r
    | _ => (EmptyString, r1)
    end in
  match ip ++ fp with
  | EmptyString => NaN
  | ds =>
      match exponent_part r2 with
      | Some x => Finite neg (number_of_digits 10 0 ds) (x - Z.of_nat (String.length fp))
      | None => NaN
      end
  end.

Definition StringToNumber (s : string) : number :=
  let t := trim s in
  if String.eqb t EmptyString then Finite false 0 0
  else if starts_with "0x" t || starts_with "0X" t then all_digits is_hex_digit 16 (drop2 t)
  else if starts_with "0o" t || starts_with "0O" t then all_digits is_octal_digit 8 (drop2 t)
  else if starts_with "0b" t || starts_with "0B" t then all_digits is_binary_digit 2 (drop2 t)
  else decimal_literal t.

(** Arrays and objects convert through their string (ToPrimitive finds no
    primitive [valueOf]). *)
Definition ToNumber (v : value) : number :=
  match v with
  | VUndefined => NaN
  | VNull => Finite false 0 0
  | VBool true => Finite false 1 0
  | VBool false => Finite false 0 0
  | VNum n => n
  | VStr s => StringToNumber s
  | VArr _ | VObj _ => StringToNumber (ToString v)
  end.

(** The decimal [m * 10^e] rounds to a finite double: it is below
    [2^1024 - 2^970], the midpoint above the largest double. *)
Definition rounds_to_finite (m : N) (e : Z) : bool :=
  let bound := (2 ^ 1024 - 2 ^ 970)%Z in
  if (0 <=? e)%Z then (Z.of_N m * 10 ^ e <? bound)%Z
  else (Z.of_N m <? bound * 10 ^ (- e))%Z.

(** The global [isFinite]. *)
Definition isFinite (v : value) : bool :=
  match ToNumber v with
  | Finite _ m e => rounds_to_finite m e
  | _ => false
  end.

(** [isNaN (parseFloat v)]: no prefix of the trimmed string is a
    StrDecimalLiteral. *)
Definition parseFloat_isNaN (v : value) : bool :=
  let (_, u) := take_sign (trimStart (ToString v)) in
  negb (starts_with "Infinity" u
        || match u with
           | String c r =>
               is_digit c
               || (Ascii.eqb c "." && match r with String d _ => is_digit d | _ => false end)
           | EmptyString => false
           end).

(** [parseInt v], no radix given. *)
Definition parseInt (v : value) : number :=
  let (neg, u) := take_sign (trimStart (ToString v)) in
  let hex := starts_with "0x" u || starts_with "0X" u in
  let w := if hex then drop2 u else u in
  match span (if hex then is_hex_digit else is_digit) w with
  | (String _ _ as ds, _) => Finite neg (number_of_digits (if hex then 16 else 10) 0 ds) 0
  | _ => NaN
  end.

Definition ToBoolean (v : value) : bool :=
  match v with
  | VUndefined | VNull => false
  | VBool b => b
  | VNum NaN => false
  | VNum (Finite _ m _) => negb (m =? 0)%N
  | VNum (Infinity _) => true
  | VStr s => negb (String.eqb s EmptyString)
  | VArr _ | VObj _ => true
  end.

(** [v > 0]. *)
Definition greater_than_zero (v : value) : bool :=
  match ToNumber v with
  | Finite false m _ => negb (m =? 0)%N
  | Infinity false => true
  | _ => false
  end.

(** Property access [o.k] on a value that is not null or undefined. *)
Fixpoint lookup (k : string) (props : list (string * value)) : value :=
  match props with
  | [] => VUndefined
  | (k', v) :: rest => if String.eqb k k' then v else lookup k rest
  end.

Definition get (o : value) (k : string) : value :=
  match o with
  | VObj props => lookup k props
  | _ => VUndefined
  end.

End JS.

Import JS.


(* ===================================================================== *)
(** * The builder: [class QueryBuilder] *)
(* ===================================================================== *)

(** One entry of the clause log, [{ type, params }]. *)
Record component := { type : value; params : value }.

(** The instance: [this.bucket], [this.query], [this._values]. *)
Record QueryBuilder := {
  bucket : value;
  query : list component;
  _values : list value
}.

(** What [build] returns, [{ query, values }]. *)
Module Output.
Record t := mk { query : string; values : list value }.
End Output.

(** [QueryError] is the builder's own error class; [Error] and
    [TypeError] are the runtime's. *)
Inductive error :=
| QueryError (message : string)
| Error (message : string)
| TypeError (message : string).

Inductive completion (A : Type) :=
| Return (a : A)
| Throw (e : error).
Arguments Return {A} a.
Arguments Throw {A} e.

(** A method: it runs on the instance and either returns or throws; the
    instance it leaves is there in both cases. *)
Definition M (A : Type) : Type := QueryBuilder -> completion A * QueryBuilder.

Definition ret {A} (a : A) : M A := fun this => (Return a, this).
Definition throw {A} (e : error) : M A := fun this => (Throw e, this).
Definition bind {A B} (m : M A) (k : A -> M B) : M B :=
  fun this =>
    match m this with
    | (Return a, this') => k a this'
    | (Throw e, this') => (Throw e, this')
    end.
Definition lift {A} (c : completion A) : M A := fun this => (c, this).

(** A computation that throws or returns and has no part in the
    instance. *)
Definition cbind {A B} (c : completion A) (k : A -> completion B) : completion B :=
  match c with
  | Return a => k a
  | Throw e => Throw e
  end.

Notation "x <- m ;; k" := (bind m (fun x => k))
  (at level 61, m at next level, right associativity).
Notation "m ;;; k" := (bind m (fun _ => k))
  (at level 61, right associativity).

Fixpoint mapM {A B} (f : A -> M B) (l : list A) : M (list B) :=
  match l with
  | [] => ret []
  | x :: r => y <- f x ;; ys <- mapM f r ;; ret (y :: ys)
  end.

Definition one_of (s : string) (l : list string) : bool :=
  existsb (String.eqb s) l.

(** [constructor (bucket = null)] *)
Definition new_QueryBuilder (bucket : value) : QueryBuilder :=
  {| bucket := match bucket with VUndefined => VNull | _ => bucket end;
     query := [];
     _values := [] |}.

Definition _parameterValue (value : value) : M string :=
  fun this =>
    let values := (_values this ++ [value])%list in
    (Return ("$" ++ digits_of_nat (List.length values)),
     {| bucket := bucket this; query := query this; _values := values |}).

Definition _getQueryValues : M (list value) :=
  fun this => (Return (map (fun a => a) (_values this)), this).

Definition _add (type params : value) : M unit :=
  fun this =>
    (Return tt,
     {| bucket := bucket this;
        query := (query this ++ [{| type := type; params := params |}])%list;
        _values := _values this |}).

Definition select (selected : list value) : M unit :=
  _add (VStr "select") (VArr selected).

Definition from (name : value) : M unit :=
  _add (VStr "from") name.

Definition limit (amount : value) : M unit :=
  if is_nullish amount then throw (QueryError "Amount must be specified")
  else _add (VStr "limit") amount.

Definition skip (amount : value) : M unit :=
  if is_nullish amount then throw (QueryError "Amount must be specified")
  else _add (VStr "skip") amount.

(** [sort (fields, order = 'ASC')]: the default applies to an omitted
    (undefined) [order]; an [order] that is not a string has no
    [toUpperCase]. *)
Definition sort (fields order : value) : M unit :=
  if is_nullish fields then
    throw (QueryError "Required to have at least one field to sort")
  else
    let fields := match fields with VStr _ => VArr [fields] | _ => fields end in
    match (match order with VUndefined => VStr "ASC" | _ => order end) with
    | VStr order =>
        if negb (one_of (toUpperCase order) ["ASC"; "DESC"]) then
          throw (QueryError "Order must be ASC or DESC")
        else
          _add (VStr "sort")
               (VObj [("fields", fields); ("order", VStr (toUpperCase order))])
    | _ => throw (TypeError "order.toUpperCase is not a function")
    end.

Definition where_ (field operation value : value) : M unit :=
  _add operation (VObj [("field", field); ("value", value)]).

Definition rawWhere (value : value) : M unit :=
  _add (VStr "rawWhere") value.

(** [_select]: [map] and [join] exist on arrays only. *)
Definition _select (components bucket : value) : completion string :=
  let components := if is_nullish components then VArr [VStr "*"] else components in
  match components with
  | VArr items =>
      let items :=
        if negb (is_nullish bucket) then
          map (fun component =>
                 VStr ("`" ++ ToString bucket ++ "`." ++ ToString component)) items
        else items in
      Return ("SELECT " ++ join "," items)
  | _ => Throw (TypeError "components.map is not a function")
  end.

Definition _from (bucket : value) : string :=
  "FROM `" ++ ToString bucket ++ "`".

(** The [switch] of [_where]: the symbol of each operation it has a case
    for. *)
Definition operation_symbol (type : value) : option string :=
  match type with
  | VStr t =>
      if t =? "lt" then Some "<"
      else if t =? "lte" then Some "<="
      else if t =? "gt" then Some ">"
      else if t =? "gte" then Some ">="
      else if t =? "ne" then Some "!="
      else if t =? "eq" then Some "="
      else if t =? "in" then Some "IN"
      else if t =? "nin" then Some "NOT IN"
      else None
  | _ => None
  end.

(** Destructuring [{ a, b } = o] throws on null and undefined. *)
Definition destructure (o : value) : completion value :=
  if is_nullish o then Throw (TypeError "Cannot destructure") else Return o.

(** One turn of the loop of [_where]: the value is bound (or is [NULL])
    before the operation is looked at. *)
Definition where_statement (component : component) : M string :=
  o <- lift (destructure (params component)) ;;
  let field := get o "field" in
  let value := get o "value" in
  value <- (if is_nullish value then ret "NULL" else _parameterValue value) ;;
  match operation_symbol (type component) with
  | Some symbol => ret (ToString field ++ " " ++ symbol ++ " " ++ value)
  | None => throw (Error "Not implemented")
  end.

Definition _where (components : list component) (operation : string) : M string :=
  statements <- mapM where_statement components ;;
  ret ("WHERE " ++ String.concat (" " ++ toUpperCase operation ++ " ") statements).

(** One turn of the loop of [_sort]. *)
Definition sort_statement (group : value) : M string :=
  o <- lift (destructure group) ;;
  let fields := get o "fields" in
  let order := get o "order" in
  match fields with
  | VArr items =>
      parts <- mapM (fun field =>
                       p <- _parameterValue field ;;
                       ret (join " " [VStr p; order])) items ;;
      ret (String.concat ", " parts)
  | _ => throw (TypeError "fields.map is not a function")
  end.

Definition _sort (groups : list value) : M string :=
  statements <- mapM sort_statement groups ;;
  ret ("ORDER BY " ++ String.concat ", " statements).

Definition _limit (amount : number) : string := "LIMIT " ++ Number_toString amount.

Definition _skip (amount : number) : string := "OFFSET " ++ Number_toString amount.

(** The local variables of [build]: [$select], [$from], [$where],
    [$rawWhere], [$limit], [$skip], [$sort]. *)
Record clauses := {
  S_select : value;
  S_from : value;
  S_where : list component;
  S_rawWhere : option component;
  S_limit : option number;
  S_skip : option number;
  S_sort : list value
}.

Definition isNumeric (n : value) : bool :=
  negb (parseFloat_isNaN n) && isFinite n.

(** One turn of the first loop of [build], the [switch] on the type of a
    log entry; a type with no [case] leaves the variables as they are. *)
Definition collect (s : clauses) (component : component) : completion clauses :=
  match type component with
  | VStr t =>
      if t =? "from" then
        Return {| S_select := S_select s; S_from := params component;
                  S_where := S_where s; S_rawWhere := S_rawWhere s;
                  S_limit := S_limit s; S_skip := S_skip s; S_sort := S_sort s |}
      else if t =? "select" then
        Return {| S_select := params component; S_from := S_from s;
                  S_where := S_where s; S_rawWhere := S_rawWhere s;
                  S_limit := S_limit s; S_skip := S_skip s; S_sort := S_sort s |}
      else if one_of t ["lt"; "lte"; "gt"; "gte"; "ne"; "in"; "nin"; "or"; "eq"] then
        Return {| S_select := S_select s; S_from := S_from s;
                  S_where := (S_where s ++ [component])%list; S_rawWhere := S_rawWhere s;
                  S_limit := S_limit s; S_skip := S_skip s; S_sort := S_sort s |}
      else if t =? "rawWhere" then
        Return {| S_select := S_select s; S_from := S_from s;
                  S_where := S_where s; S_rawWhere := Some component;
                  S_limit := S_limit s; S_skip := S_skip s; S_sort := S_sort s |}
      else if t =? "limit" then
        if negb (isNumeric (params component)) then
          Throw (QueryError "Limit parameter must be numeric")
        else
          Return {| S_select := S_select s; S_from := S_from s;
                    S_where := S_where s; S_rawWhere := S_rawWhere s;
                    S_limit := Some (parseInt (params component));
                    S_skip := S_skip s; S_sort := S_sort s |}
      else if t =? "skip" then
        if negb (isNumeric (params component)) then
          Throw (QueryError "Skip parameter must be numeric")
        else
          Return {| S_select := S_select s; S_from := S_from s;
                    S_where := S_where s; S_rawWhere := S_rawWhere s;
                    S_limit := S_limit s;
                    S_skip := Some (parseInt (params component)); S_sort := S_sort s |}
      else if t =? "sort" then
        Return {| S_select := S_select s; S_from := S_from s;
                  S_where := S_where s; S_rawWhere := S_rawWhere s;
                  S_limit := S_limit s; S_skip := S_skip s;
                  S_sort := (S_sort s ++ [params component])%list |}
      else Return s
  | _ => Return s
  end.

Fixpoint collect_all (s : clauses) (log : list component) : completion clauses :=
  match log with
  | [] => Return s
  | component :: rest =>
      match collect s component with
      | Return s' => collect_all s' rest
      | Throw e => Throw e
      end
  end.

(** A section of the query that is pushed under a condition. *)
Definition when {A} (c : bool) (m : M A) : M (list A) :=
  if c then (x <- m ;; ret [x]) else ret [].

Definition nonempty {A} (l : list A) : bool :=
  match l with [] => false | _ => true end.

(** [this.bucket] and [this.query], read. *)
Definition this_bucket : M value := fun this => (Return (bucket this), this).
Definition this_query : M (list component) := fun this => (Return (query this), this).

(** The second half of [build]: the sections of the query, pushed in
    this order and joined by a space.  The [debug] line before the
    [return] prints the query and the values and returns nothing: on
    values that print it has no effect, and it is left out, as are the
    [debug] lines of the constructor and of [_add]. *)
Definition render (s : clauses) : M Output.t :=
  q_select <- lift (_select (S_select s) (S_from s)) ;;
  b <- this_bucket ;;
  q_from <- when (ToBoolean b) (ret (_from (S_from s))) ;;
  q_where <- when (nonempty (S_where s)) (_where (S_where s) "AND") ;;
  q_rawWhere <- ret (match S_rawWhere s with
                     | Some c => [join " " [VStr "WHERE"; params c]]
                     | None => []
                     end) ;;
  q_sort <- when (nonempty (S_sort s)) (_sort (S_sort s)) ;;
  q_limit <- ret (match S_limit s with Some n => [_limit n] | None => [] end) ;;
  q_skip <- ret (match S_skip s with Some n => [_skip n] | None => [] end) ;;
  values <- _getQueryValues ;;
  ret (Output.mk
         (String.concat " "
            ([q_select] ++ q_from ++ q_where ++ q_rawWhere ++ q_sort
               ++ q_limit ++ q_skip)%list)
         values).

(** The variables of [build] before its loop. *)
Definition initial (bucket : value) : clauses :=
  {| S_select := VNull; S_from := bucket; S_where := []; S_rawWhere := None;
     S_limit := None; S_skip := None; S_sort := [] |}.

Definition build : M Output.t :=
  b <- this_bucket ;;
  log <- this_query ;;
  s <- lift (collect_all (initial b) log) ;;
  render s.

(* ===================================================================== *)
(** * The directive interpreter, [./queryinterpreter] *)
(* ===================================================================== *)

(** [queryinterpreter.js] and the directive classes it returns are not
    among the sources; what the builder uses of them (a [directive.type],
    a [field], a [value] and [toString()]) is modelled from the
    specification. *)

(** Modelled from the spec: the directive types of section 3 (declared
    in the absent [queryinterpreter.js]), by kind: shaping, comparison,
    logical. *)
Inductive shapeType := d_select | d_from | d_limit | d_skip | d_sort.

(** Modelled from the spec: the comparison types of section 3. *)
Inductive comparisonType := d_eq | d_ne | d_lt | d_lte | d_gt | d_gte | d_in | d_nin.

(** Modelled from the spec: the logical types of section 3. *)
Inductive logicalType := d_and | d_or.

(** Modelled from the spec: the Directive Node of section 3 (the classes
    of the absent [queryinterpreter.js]), [{ directiveType, field, value }]
    with [directiveType] in [select, from, limit, skip, sort, eq, ne, lt,
    lte, gt, gte, in, nin, and, or]; the value of an [and] or [or] node is
    a nested sequence of nodes, and a bare array in such a sequence is a
    group with no operator. *)
Inductive DirectiveNode :=
| Shape (directiveType : shapeType) (value : value)
| Comparison (directiveType : comparisonType) (field : value) (value : value)
| Logical (directiveType : logicalType) (value : list DirectiveNode)
| Bundle (items : list DirectiveNode).

(** Modelled from the spec: [directive.type] of a node, the name of its
    directive type (section 3). *)
Definition shape_name (t : shapeType) : string :=
  match t with
  | d_select => "select" | d_from => "from" | d_limit => "limit"
  | d_skip => "skip" | d_sort => "sort"
  end.

(** Modelled from the spec: [directive.type] of a comparison node. *)
Definition comparison_name (t : comparisonType) : string :=
  match t with
  | d_eq => "eq" | d_ne => "ne" | d_lt => "lt" | d_lte => "lte"
  | d_gt => "gt" | d_gte => "gte" | d_in => "in" | d_nin => "nin"
  end.

(** Modelled from the spec: [directive.type] of a logical node. *)
Definition logical_name (t : logicalType) : string :=
  match t with d_and => "and" | d_or => "or" end.

(** Modelled from the spec: the operator symbols of section 4.2 (the
    rendering of a comparison node, in the absent directive classes):
    eq is =, ne is !=, lt is <, lte is <=, gt is >, gte is >=, in is IN,
    nin is NOT IN. *)
Definition comparison_symbol (t : comparisonType) : string :=
  match t with
  | d_eq => "=" | d_ne => "!=" | d_lt => "<" | d_lte => "<="
  | d_gt => ">" | d_gte => ">=" | d_in => "IN" | d_nin => "NOT IN"
  end.

(** Modelled from the spec: [toString()] of a node of the absent
    [queryinterpreter.js].  A comparison renders as field, symbol, value,
    a null value as the literal [NULL] (section 4.2).  The specification
    gives no rendering of its own to the other nodes: they print as any
    object does, and an array as the list of its elements. *)
Fixpoint toString (node : DirectiveNode) : string :=
  match node with
  | Comparison t field value =>
      ToString field ++ " " ++ comparison_symbol t ++ " "
        ++ (if is_nullish value then "NULL" else ToString value)
  | Shape _ _ | Logical _ _ => "[object Object]"
  | Bundle items => String.concat "," (map toString items)
  end.

(** Modelled from the spec: a node of the absent [queryinterpreter.js] as
    a plain value, the object [{ directive: { type }, field, value }] of
    section 3, for the places where the builder binds one as a
    parameter. *)
Fixpoint node_value (node : DirectiveNode) : value :=
  match node with
  | Shape t v =>
      VObj [("directive", VObj [("type", VStr (shape_name t))]); ("value", v)]
  | Comparison t f v =>
      VObj [("directive", VObj [("type", VStr (comparison_name t))]);
            ("field", f); ("value", v)]
  | Logical t children =>
      VObj [("directive", VObj [("type", VStr (logical_name t))]);
            ("value", VArr (map node_value children))]
  | Bundle items => VArr (map node_value items)
  end.

(** Modelled from the spec: what a key of section 4.1 is recognized as
    (the key classification of the absent [queryinterpreter.js]). *)
Inductive directive :=
| IsShape (t : shapeType)
| IsComparison (t : comparisonType)
| IsLogical (t : logicalType).

(** Modelled from the spec: the operator keys of section 3 are the keys
    with the prefix that marks them, a dollar sign (key sniffing of the
    absent [queryinterpreter.js]). *)
Definition operator_key (k : string) : option string :=
  match k with
  | String "$" name => Some name
  | _ => None
  end.

(** Modelled from the spec: the recognized keys of section 4.1, shaping
    ([select], [limit], [skip], [sort]), comparison and logical (the key
    table of the absent [queryinterpreter.js]). *)
Definition directive_of (name : string) : option directive :=
  if name =? "select" then Some (IsShape d_select)
  else if name =? "limit" then Some (IsShape d_limit)
  else if name =? "skip" then Some (IsShape d_skip)
  else if name =? "sort" then Some (IsShape d_sort)
  else if name =? "eq" then Some (IsComparison d_eq)
  else if name =? "ne" then Some (IsComparison d_ne)
  else if name =? "lt" then Some (IsComparison d_lt)
  else if name =? "lte" then Some (IsComparison d_lte)
  else if name =? "gt" then Some (IsComparison d_gt)
  else if name =? "gte" then Some (IsComparison d_gte)
  else if name =? "in" then Some (IsComparison d_in)
  else if name =? "nin" then Some (IsComparison d_nin)
  else if name =? "and" then Some (IsLogical d_and)
  else if name =? "or" then Some (IsLogical d_or)
  else None.

(** Modelled from the spec: the value of a shaping node of the absent
    [queryinterpreter.js].  The builder iterates the value of a [sort]
    node as [{ field, value }] entries: one per sorted field. *)
Definition shape_value (t : shapeType) (x : value) : value :=
  match t, x with
  | d_sort, VObj props =>
      VArr (map (fun kv => VObj [("field", VStr (fst kv)); ("value", snd kv)]) props)
  | _, _ => x
  end.

(** Modelled from the spec: the dotted composition of nested field names
    of section 4.1 (absent [queryinterpreter.js]). *)
Definition compose_field (outer : option string) (key : string) : string :=
  match outer with
  | Some f => f ++ "." ++ key
  | None => key
  end.

(** Modelled from the spec: the [field] of a node of the absent
    [queryinterpreter.js], absent at the root (section 3). *)
Definition field_value (field : option string) : value :=
  match field with Some f => VStr f | None => VUndefined end.

(** Modelled from the spec: the scan of section 4.1 (the absent
    [queryinterpreter.js]), in key order.  A shaping key gives a shaping
    node; a comparison key gives one comparison node on the field it is
    attached to (none at the root); a logical key gives one node whose
    value is the sequence its array is interpreted to, a nested array
    staying a group of its own; any other operator key is rejected, by
    name; a field name whose value is a mapping is expanded with the outer
    name threaded through, and a field name with a literal is an implicit
    equality. *)
Fixpoint nodes_of (field : option string) (q : value) {struct q}
  : completion (list DirectiveNode) :=
  match q with
  | VObj props =>
      (fix keys (props : list (string * value)) : completion (list DirectiveNode) :=
         match props with
         | [] => Return []
         | (k, x) :: rest =>
             cbind
               match operator_key k with
               | Some name =>
                   match directive_of name with
                   | Some (IsShape t) => Return [Shape t (shape_value t x)]
                   | Some (IsComparison t) => Return [Comparison t (field_value field) x]
                   | Some (IsLogical t) =>
                       cbind (nodes_of field x) (fun children => Return [Logical t children])
                   | None => Throw (QueryError ("Unknown directive " ++ k))
                   end
               | None =>
                   match x with
                   | VObj _ => nodes_of (Some (compose_field field k)) x
                   | _ => Return [Comparison d_eq (VStr (compose_field field k)) x]
                   end
               end
               (fun here => cbind (keys rest) (fun there => Return (here ++ there)%list))
         end) props
  | VArr elements =>
      (fix each (elements : list value) : completion (list DirectiveNode) :=
         match elements with
         | [] => Return []
         | element :: rest =>
             cbind
               match element with
               | VArr _ => cbind (nodes_of field element) (fun sub => Return [Bundle sub])
               | _ => nodes_of field element
               end
               (fun here => cbind (each rest) (fun there => Return (here ++ there)%list))
         end) elements
  | _ => Return []
  end.

(** Modelled from the spec: the nodes the absent [queryinterpreter.js]
    returns at the root, shaping nodes and comparisons with no field, as
    against the conditions of the query. *)
Definition at_root (node : DirectiveNode) : bool :=
  match node with
  | Shape _ _ => true
  | Comparison _ VUndefined _ => true
  | _ => false
  end.

(** Modelled from the spec: [interpret] of the absent
    [queryinterpreter.js].  The builder renders the conditions it finds
    under an [and] node and rejects a comparison it finds at the root
    (see [interpret] below), and the specification has the field-scoped
    conditions of a query rendered (section 8): the shaping nodes and the
    comparisons with no field are returned at the root, and the
    conditions as the value of one [and] node. *)
Definition QueryInterpreter (query : value) : completion (list DirectiveNode) :=
  cbind (nodes_of None query) (fun nodes =>
    let conditions := filter (fun n => negb (at_root n)) nodes in
    Return (filter at_root nodes
              ++ (if nonempty conditions then [Logical d_and conditions] else []))%list).

(* ===================================================================== *)
(** * The builder, continued: [_buildWhere] and [interpret] *)
(* ===================================================================== *)

(** [stringify], local to [_buildWhere]: a value that is not null is bound
    and replaced by its placeholder, then the part is printed.  An array
    has no [value]. *)
Definition stringify (part : DirectiveNode) : M string :=
  match part with
  | Comparison t field value =>
      if negb (is_nullish value) then
        p <- _parameterValue value ;; ret (toString (Comparison t field (VStr p)))
      else ret (toString part)
  | Shape t value =>
      if negb (is_nullish value) then
        p <- _parameterValue value ;; ret (toString (Shape t (VStr p)))
      else ret (toString part)
  | Logical t children =>
      p <- _parameterValue (VArr (map node_value children)) ;; ret (toString part)
  | Bundle _ => ret (toString part)
  end.

(** The statements each turn of a loop pushes, one after the other. *)
Definition flatMapM {A B} (f : A -> M (list B)) : list A -> M (list B) :=
  fix loop (l : list A) : M (list B) :=
    match l with
    | [] => ret []
    | x :: r => here <- f x ;; there <- loop r ;; ret (here ++ there)%list
    end.

(** One turn of the loop of [_buildWhere]: the statements pushed for a
    part.  The parts of a nested array are printed one by one; an [and] or
    [or] node is [_buildWhere] of its value under its own join word, in
    parentheses. *)
Fixpoint part_statements (part : DirectiveNode) {struct part} : M (list string) :=
  match part with
  | Bundle subparts => mapM stringify subparts
  | Logical t value =>
      statements <- flatMapM part_statements value ;;
      ret [String.concat
             (String.concat (" " ++ toUpperCase (logical_name t) ++ " ") statements)
             ["("; ")"]]
  | _ => s <- stringify part ;; ret [s]
  end.

(** [_buildWhere (sub, comparator = 'AND')], on the array that is the
    value of an [and] or [or] node: the value of such a node is a
    sequence, so the early return for a [sub] that is no array is not
    taken. *)
Definition _buildWhere (sub : list DirectiveNode) (comparator : string) : M string :=
  statements <- flatMapM part_statements sub ;;
  ret (String.concat (" " ++ comparator ++ " ") statements).

(** The values a [for ... of] loop or a spread goes through. *)
Fixpoint characters (s : string) : list value :=
  match s with
  | EmptyString => []
  | String c r => VStr (String c EmptyString) :: characters r
  end.

Definition iterate (v : value) : completion (list value) :=
  match v with
  | VArr items => Return items
  | VStr s => Return (characters s)
  | _ => Throw (TypeError "value is not iterable")
  end.

Fixpoint forEach {A} (f : A -> M unit) (l : list A) : M unit :=
  match l with
  | [] => ret tt
  | x :: r => f x ;;; forEach f r
  end.

(** One turn of the loop of [interpret]: the [switch] on
    [component.directive.type]; [from] and [or] have no case, and an array
    has no [directive]. *)
Definition replay (component : DirectiveNode) : M unit :=
  match component with
  | Shape d_select value => selected <- lift (iterate value) ;; select selected
  | Shape d_skip value => skip value
  | Shape d_limit value => limit value
  | Shape d_sort value =>
      entries <- lift (iterate value) ;;
      forEach (fun entry =>
                 o <- lift (destructure entry) ;;
                 sort (get o "field")
                      (VStr (if greater_than_zero (get o "value") then "ASC" else "DESC")))
              entries
  | Shape d_from _ => ret tt
  | Logical d_and value => text <- _buildWhere value "AND" ;; rawWhere (VStr text)
  | Logical d_or _ => ret tt
  | Comparison t _ _ =>
      throw (QueryError ("Found sub directive " ++ comparison_name t ++ " at root query"))
  | Bundle _ => throw (TypeError "Cannot read properties of undefined (reading 'type')")
  end.

(** [interpret], after the call of the interpreter. *)
Definition interpret_nodes (interpretedQuery : list DirectiveNode) : M Output.t :=
  forEach replay interpretedQuery ;;; build.

Definition interpret (query : value) : M Output.t :=
  interpretedQuery <- lift (QueryInterpreter query) ;;
  interpret_nodes interpretedQuery.

(* ===================================================================== *)
(** * Vocabulary of the properties *)
(* ===================================================================== *)

(** ** Calls on a builder *)

(** The primitive operations a caller invokes, and a sequence of them run
    one after the other (a call that throws ends the sequence). *)
Inductive call :=
| call_select (selected : list value)
| call_from (name : value)
| call_limit (amount : value)
| call_skip (amount : value)
| call_sort (fields order : value)
| call_where (field operation value : value)
| call_rawWhere (value : value).

Definition invoke (c : call) : M unit :=
  match c with
  | call_select selected => select selected
  | call_from name => from name
  | call_limit amount => limit amount
  | call_skip amount => skip amount
  | call_sort fields order => sort fields order
  | call_where field operation value => where_ field operation value
  | call_rawWhere value => rawWhere value
  end.

Definition invoke_all (calls : list call) : M unit := forEach invoke calls.

(** ** The log, by clause *)

Definition has_type (names : list string) (c : component) : bool :=
  match type c with
  | VStr t => one_of t names
  | _ => false
  end.

(** The types the loop of [build] puts in [$where]. *)
Definition comparison_types : list string :=
  ["lt"; "lte"; "gt"; "gte"; "ne"; "in"; "nin"; "or"; "eq"].

(** The operators [_where] has a case for. *)
Definition recognized_operators : list string :=
  ["lt"; "lte"; "gt"; "gte"; "ne"; "eq"; "in"; "nin"].

(** The last entry of the log with one of the given types. *)
Fixpoint last_clause (names : list string) (log : list component) : option component :=
  match log with
  | [] => None
  | c :: rest =>
      match last_clause names rest with
      | Some c' => Some c'
      | None => if has_type names c then Some c else None
      end
  end.

(** The log without the entries of the given types that a later entry of
    these types follows. *)
Fixpoint only_last (names : list string) (log : list component) : list component :=
  match log with
  | [] => []
  | c :: rest =>
      if has_type names c && existsb (has_type names) rest then only_last names rest
      else c :: only_last names rest
  end.

(** The statement of a comparison clause: its field, the symbol of its
    operator, and a placeholder or [NULL]. *)
Definition is_statement (c : component) (s : string) : Prop :=
  exists symbol p,
    operation_symbol (type c) = Some symbol
    /\ s = ToString (get (params c) "field") ++ " " ++ symbol ++ " " ++ p.

(** ** Methods and the instance *)

(** Two instances that differ in their log at most. *)
Definition same_but_log (this this' : QueryBuilder) : Prop :=
  bucket this = bucket this' /\ _values this = _values this'.

(** A method that does not read the log. *)
Definition log_blind {A} (m : M A) : Prop :=
  forall this this',
    same_but_log this this' ->
    fst (m this) = fst (m this') /\ same_but_log (snd (m this)) (snd (m this')).

(** Two states of the variables of [build] that differ in [$rawWhere] at
    most. *)
Definition same_but_rawWhere (s s' : clauses) : Prop :=
  S_select s = S_select s' /\ S_from s = S_from s' /\ S_where s = S_where s'
  /\ S_limit s = S_limit s' /\ S_skip s = S_skip s' /\ S_sort s = S_sort s'.

(** ** Placeholders *)

(** A placeholder is a dollar sign followed by decimal digits, as many as
    there are.  The scanner is idle, has just read a dollar sign, or is
    reading the index of a placeholder. *)
Inductive scanner := Idle | Dollar | Index (n : N).

Definition flush (st : scanner) : list N :=
  match st with Index n => [n] | _ => [] end.

Definition step (st : scanner) (c : ascii) : list N * scanner :=
  if Ascii.eqb c "$" then (flush st, Dollar)
  else if is_digit c then
    ([], match st with
         | Idle => Idle
         | Dollar => Index (digit_value c)
         | Index n => Index (10 * n + digit_value c)
         end)
  else (flush st, Idle).

Fixpoint scan (st : scanner) (s : string) : list N :=
  match s with
  | EmptyString => flush st
  | String c r => (fst (step st c) ++ scan (snd (step st c)) r)%list
  end.

(** The indices of the placeholders of a string, in the order in which
    they occur. *)
Definition placeholders (s : string) : list N := scan Idle s.

(** The indices [1 .. n]. *)
Definition indices (n : nat) : list N := map N.of_nat (seq 1 n).

(** A text with no dollar sign. *)
Fixpoint no_dollar (s : string) : bool :=
  match s with
  | EmptyString => true
  | String c r => negb (Ascii.eqb c "$") && no_dollar r
  end.

Definition clean (v : value) : Prop := no_dollar (ToString v) = true.

(** The names a call interpolates in the query have no dollar sign. *)
Definition clean_call (c : call) : Prop :=
  match c with
  | call_select selected => Forall clean selected
  | call_from name => clean name
  | call_where field _ _ => clean field
  | call_rawWhere value => clean value
  | _ => True
  end.

(** The same, of an entry of the log. *)
Definition clean_component (c : component) : Prop :=
  (has_type ["from"] c = true -> clean (params c))
  /\ (has_type ["select"] c = true ->
      forall items, params c = VArr items -> Forall clean items)
  /\ (has_type comparison_types c = true -> clean (get (params c) "field"))
  /\ (has_type ["rawWhere"] c = true -> clean (params c))
  /\ (has_type ["sort"] c = true -> no_dollar (join_item (get (params c) "order")) = true).

(** The state of the scanner after a text, and the indices it has given
    by then. *)
Fixpoint final (st : scanner) (s : string) : scanner :=
  match s with
  | EmptyString => st
  | String c r => final (snd (step st c)) r
  end.

Fixpoint emitted (st : scanner) (s : string) : list N :=
  match s with
  | EmptyString => []
  | String c r => (fst (step st c) ++ emitted (snd (step st c)) r)%list
  end.

(** A text with no dollar sign that does not start with a digit: it ends
    the placeholder it follows. *)
Definition separator (s : string) : bool :=
  match s with
  | EmptyString => false
  | String c _ => negb (is_digit c) && no_dollar s
  end.

(** ** Two runs of a method *)

(** The outcomes of two runs are of the same kind, and related by [R]
    when they are values. *)
Definition alike {A} (R : A -> A -> Prop) (c c' : completion A) : Prop :=
  match c, c' with
  | Return a, Return a' => R a a'
  | Throw e, Throw e' => e = e'
  | _, _ => False
  end.

(** [m] and [m'], run on instances with the same bucket and the same log,
    end alike and add the same values. *)
Definition similar {A} (R : A -> A -> Prop) (m m' : M A) : Prop :=
  forall this this',
    bucket this = bucket this' -> query this = query this' ->
    alike R (fst (m this)) (fst (m' this'))
    /\ bucket (snd (m this)) = bucket this
    /\ bucket (snd (m' this')) = bucket this'
    /\ query (snd (m this)) = query this
    /\ query (snd (m' this')) = query this'
    /\ exists bound,
        _values (snd (m this)) = (_values this ++ bound)%list
        /\ _values (snd (m' this')) = (_values this' ++ bound)%list.

Definition any {A} (_ _ : A) : Prop := True.

(** ** A builder to try the properties on *)

Definition example_calls : list call :=
  [call_where (VStr "a") (VStr "eq") (VNum (Finite false 1 0));
   call_sort (VStr "name") VUndefined;
   call_limit (VStr "10");
   call_skip (VNum (Finite false 5 0));
   call_rawWhere (VStr "x = 1")].

Definition example_builder : QueryBuilder :=
  snd (invoke_all example_calls (new_QueryBuilder (VStr "b"))).

(** ** Parameters bound in a run *)

(** From [this] to [this'] values were added, and [l] is the indices of
    the places they took, in order. *)
Definition numbers_from (this this' : QueryBuilder) (l : list N) : Prop :=
  exists bound,
    _values this' = (_values this ++ bound)%list
    /\ l = map N.of_nat (seq (S (List.length (_values this))) (List.length bound)).

(** The names in the variables of [build] have no dollar sign. *)
Definition clean_clauses (s : clauses) : Prop :=
  clean (S_from s)
  /\ (forall items, S_select s = VArr items -> Forall clean items)
  /\ Forall (fun c => clean (get (params c) "field")) (S_where s)
  /\ (forall c, S_rawWhere s = Some c -> clean (params c))
  /\ Forall (fun g => no_dollar (join_item (get g "order")) = true) (S_sort s).

(** The labels of the [switch] of [build]. *)
Definition case_labels : list string :=
  (["from"; "select"] ++ comparison_types ++ ["rawWhere"; "limit"; "skip"; "sort"])%list.

(** A method that leaves the bucket as it is and adds no [from] clause to
    the log. *)
Definition adds_no_from {A} (m : M A) : Prop :=
  forall this,
    bucket (snd (m this)) = bucket this
    /\ exists added,
        query (snd (m this)) = (query this ++ added)%list
        /\ Forall (fun c => has_type ["from"] c = false) added.

(** ** The values a build binds *)

(** The value [_where] binds for a comparison clause: none when it is
    null or undefined. *)
Definition bound_by_where (c : component) : list value :=
  let v := get (params c) "value" in if is_nullish v then [] else [v].

(** The values [_sort] binds for a sort group: its fields. *)
Definition bound_by_sort (group : value) : list value :=
  match get group "fields" with
  | VArr items => items
  | _ => []
  end.

(** The values a build of the log binds: those of the comparison clauses,
    then those of the sort clauses. *)
Definition bound_values (log : list component) : list value :=
  (flat_map bound_by_where (filter (has_type comparison_types) log)
     ++ flat_map (fun c => bound_by_sort (params c)) (filter (has_type ["sort"]) log))%list.

(** ** Logs [build] accepts *)

Definition is_array (v : value) : bool :=
  match v with VArr _ => true | _ => false end.

(** Every limit and skip clause has a numeric amount. *)
Definition numeric_amounts (log : list component) : bool :=
  forallb (fun c => negb (has_type ["limit"; "skip"] c) || isNumeric (params c)) log.

(** The last select clause, when there is one, holds null or an array. *)
Definition projection_ok (log : list component) : bool :=
  match last_clause ["select"] log with
  | Some c => is_nullish (params c) || is_array (params c)
  | None => true
  end.

(** A comparison clause [_where] renders: it has parameters and an
    operator with a symbol. *)
Definition comparison_ok (c : component) : bool :=
  negb (is_nullish (params c))
  && match operation_symbol (type c) with Some _ => true | None => false end.

(** A sort group [_sort] renders: its fields are an array. *)
Definition sort_ok (group : value) : bool :=
  negb (is_nullish group) && is_array (get group "fields").

Definition buildable (log : list component) : bool :=
  numeric_amounts log
  && projection_ok log
  && forallb comparison_ok (filter (has_type comparison_types) log)
  && forallb (fun c => sort_ok (params c)) (filter (has_type ["sort"]) log).

(** Calls with the arguments the methods are written for: a numeric
    amount, fields that are a string or an array with an order that is
    omitted, [ASC] or [DESC] in any case, an operator [_where] has a case
    for. *)
Definition well_formed (c : call) : bool :=
  match c with
  | call_select _ | call_from _ | call_rawWhere _ => true
  | call_limit amount | call_skip amount => isNumeric amount
  | call_sort fields order =>
      match fields with VStr _ | VArr _ => true | _ => false end
      && match order with
         | VUndefined => true
         | VStr o => one_of (toUpperCase o) ["ASC"; "DESC"]
         | _ => false
         end
  | call_where _ operation _ =>
      match operation with
      | VStr t => one_of t recognized_operators
      | _ => false
      end
  end.

(** A column of the projection, as [_select] prints it under a bucket
    name. *)
Definition column (name item : value) : string :=
  if is_nullish name then join_item item
  else "`" ++ ToString name ++ "`." ++ ToString item.

(** ** Placeholders and the values they stand for *)

(** [text] is the placeholder of the value [v] in [values]: a dollar sign
    and the place of [v], counted from one. *)
Definition placeholder_of (values : list value) (text : string) (v : value) : Prop :=
  exists k, text = "$" ++ digits_of_nat (S k) /\ nth_error values k = Some v.

(** The text [_where] prints for the value of a comparison: [NULL] for
    null and undefined, else the placeholder of the value. *)
Definition stands_for (values : list value) (text : string) (v : value) : Prop :=
  if is_nullish v then text = "NULL" else placeholder_of values text v.


(** ** Logs that differ in the values they bind *)

(** Two comparison clauses with the same operator and field, and values
    that are both null or undefined, or both not. *)
Definition comparisons_alike (c c' : component) : Prop :=
  type c = type c'
  /\ get (params c) "field" = get (params c') "field"
  /\ is_nullish (get (params c) "value") = is_nullish (get (params c') "value").

(** Two sort groups with the same order and as many fields. *)
Definition groups_alike (g g' : value) : Prop :=
  get g "order" = get g' "order"
  /\ List.length (bound_by_sort g) = List.length (bound_by_sort g').

(** Two entries of the log that differ at most in what [build] binds for
    them: the value of a comparison, the fields of a sort. *)
Definition prints_alike (c c' : component) : Prop :=
  type c = type c'
  /\ if has_type comparison_types c then comparisons_alike c c'
     else if has_type ["sort"] c then groups_alike (params c) (params c')
     else params c = params c'.

(** The same of two states of the variables of [build]. *)
Definition clauses_alike (s s' : clauses) : Prop :=
  S_select s = S_select s'
  /\ S_from s = S_from s'
  /\ Forall2 comparisons_alike (S_where s) (S_where s')
  /\ option_map params (S_rawWhere s) = option_map params (S_rawWhere s')
  /\ S_limit s = S_limit s'
  /\ S_skip s = S_skip s'
  /\ Forall2 groups_alike (S_sort s) (S_sort s').


(** ** Values the runtime prints as the embedding does *)

(** The characters below 128: on these the white space and the upper
    case of the embedding are those of the runtime. *)
Fixpoint ascii_only (s : string) : bool :=
  match s with
  | EmptyString => true
  | String c r => (nat_of_ascii c <? 128)%nat && ascii_only r
  end.

(** A value that holds no object with an own property [toString] and no
    character above 127.  The runtime converts an object to a string by
    its [toString]; an own property of that name is data, not a method,
    and the conversion then throws a [TypeError], in a template, in
    [join], in [parseFloat] and in the [debug] lines; [ToString] above
    is the conversion of the values that have no such object. *)
Fixpoint plain (v : value) : bool :=
  match v with
  | VStr s => ascii_only s
  | VArr items => forallb plain items
  | VObj props =>
      negb (existsb (fun '(k, _) => String.eqb k "toString") props)
      && forallb (fun '(_, x) => plain x) props
  | _ => true
  end.

(** An instance whose bucket, values and log entries are plain. *)
Definition plain_instance (this : QueryBuilder) : bool :=
  plain (bucket this)
  && forallb plain (_values this)
  && forallb (fun c => plain (type c) && plain (params c)) (query this).

(** The arguments of a call. *)
Definition arguments (c : call) : list value :=
  match c with
  | call_select selected => selected
  | call_from name => [name]
  | call_limit amount | call_skip amount => [amount]
  | call_sort fields order => [fields; order]
  | call_where field operation value => [field; operation; value]
  | call_rawWhere value => [value]
  end.

Definition plain_call (c : call) : bool := forallb plain (arguments c).

(** ** Calls that record a raw clause *)

(** [rawWhere], and [where] with the operation [rawWhere], which [_add]
    records under that type as well. *)
Definition records_raw (c : call) : bool :=
  match c with
  | call_rawWhere _ => true
  | call_where _ (VStr t) _ => String.eqb t "rawWhere"
  | _ => false
  end.


(* ===================================================================== *)
(** * Properties *)
(* ===================================================================== *)


(** ** Running methods *)

Lemma bind_Return_inv {A B} (m : M A) (k : A -> M B) this b this' :
  bind m k this = (Return b, this') ->
  exists a this1, m this = (Return a, this1) /\ k a this1 = (Return b, this').
Proof.
  unfold bind. destruct (m this) as [[a|e] this1]; intros H.
  - exists a, this1. split; [reflexivity | exact H].
  - discriminate H.
Qed.

Tactic Notation "bind_inv" hyp(H) "as" ident(a) ident(t) ident(H1) :=
  apply bind_Return_inv in H; destruct H as (a & t & H1 & H).

Lemma lift_inv {A} (c : completion A) this a this' :
  lift c this = (Return a, this') -> c = Return a /\ this' = this.
Proof. unfold lift. intros [= -> ->]. split; reflexivity. Qed.

Lemma ret_inv {A} (x : A) this a this' :
  ret x this = (Return a, this') -> a = x /\ this' = this.
Proof. unfold ret. intros [= -> ->]. split; reflexivity. Qed.

Lemma when_inv {A} (c : bool) (m : M A) this l this' :
  when c m this = (Return l, this') ->
  if c then exists x, m this = (Return x, this') /\ l = [x]
  else l = [] /\ this' = this.
Proof.
  unfold when. destruct c.
  - intros H. bind_inv H as x t Hx. apply ret_inv in H as [-> ->].
    exists x. split; [exact Hx | reflexivity].
  - intros H. apply ret_inv in H as [-> ->]. split; reflexivity.
Qed.

Lemma mapM_nil_inv {A B} (f : A -> M B) (l : list A) :
  nonempty l = false -> forall this, mapM f l this = (Return [], this).
Proof. destruct l; [reflexivity | discriminate]. Qed.

Lemma mapM_Forall2 {A B} (f : A -> M B) (P : A -> B -> Prop) :
  (forall x this y this', f x this = (Return y, this') -> P x y) ->
  forall l this ys this', mapM f l this = (Return ys, this') -> Forall2 P l ys.
Proof.
  intros Hf. induction l as [|x l IH]; simpl; intros this ys this' H.
  - apply ret_inv in H as [-> ->]. constructor.
  - bind_inv H as y t Hy. bind_inv H as ys' t' Hys. apply ret_inv in H as [-> ->].
    constructor; [eapply Hf; eassumption | eapply IH; eassumption].
Qed.


(** ** Strings *)

Lemma append_assoc (a b c : string) : (a ++ b) ++ c = a ++ (b ++ c).
Proof. induction a as [|x a IH]; simpl; [reflexivity | now rewrite IH]. Qed.

Lemma append_nil_r (a : string) : a ++ EmptyString = a.
Proof. induction a as [|x a IH]; simpl; [reflexivity | now rewrite IH]. Qed.

Ltac same_string := rewrite ?append_assoc; simpl; rewrite ?append_assoc; reflexivity.


(** ** The first loop of [build] *)

Lemma build_run this :
  build this =
  match collect_all (initial (bucket this)) (query this) with
  | Return s => render s this
  | Throw e => (Throw e, this)
  end.
Proof. reflexivity. Qed.

(** Case analysis on a type against the labels of a [switch]. *)
Ltac switch_on t :=
  repeat match goal with
         | |- context [String.eqb t ?l] =>
             destruct (String.eqb_spec t l) as [->|?]
         end.

Lemma collect_spec s c s' :
  collect s c = Return s' ->
  S_select s' = (if has_type ["select"] c then params c else S_select s)
  /\ S_from s' = (if has_type ["from"] c then params c else S_from s)
  /\ S_where s' = (S_where s ++ (if has_type comparison_types c then [c] else []))%list
  /\ S_rawWhere s' = (if has_type ["rawWhere"] c then Some c else S_rawWhere s)
  /\ S_limit s' = (if has_type ["limit"] c then Some (parseInt (params c)) else S_limit s)
  /\ S_skip s' = (if has_type ["skip"] c then Some (parseInt (params c)) else S_skip s)
  /\ S_sort s' = (S_sort s ++ (if has_type ["sort"] c then [params c] else []))%list.
Proof.
  unfold collect, has_type, comparison_types, one_of.
  destruct (type c) as [| | | |t| |];
    try (intros [= <-]; cbn; rewrite ?List.app_nil_r; repeat split; reflexivity).
  cbn [existsb]. switch_on t; cbn [orb];
    try destruct (negb _); intros [= <-]; cbn; rewrite ?List.app_nil_r; repeat split; reflexivity.
Qed.

Lemma collect_all_spec log : forall s s',
  collect_all s log = Return s' ->
  S_select s' = match last_clause ["select"] log with
                | Some c => params c | None => S_select s end
  /\ S_from s' = match last_clause ["from"] log with
                 | Some c => params c | None => S_from s end
  /\ S_where s' = (S_where s ++ filter (has_type comparison_types) log)%list
  /\ S_rawWhere s' = match last_clause ["rawWhere"] log with
                     | Some c => Some c | None => S_rawWhere s end
  /\ S_limit s' = match last_clause ["limit"] log with
                  | Some c => Some (parseInt (params c)) | None => S_limit s end
  /\ S_skip s' = match last_clause ["skip"] log with
                 | Some c => Some (parseInt (params c)) | None => S_skip s end
  /\ S_sort s' = (S_sort s ++ map params (filter (has_type ["sort"]) log))%list.
Proof.
  induction log as [|c log IH]; intros s s'; simpl.
  - intros [= <-]. rewrite !List.app_nil_r. repeat split; reflexivity.
  - destruct (collect s c) as [s1|e] eqn:Hc; [|discriminate].
    intros H. apply IH in H. apply collect_spec in Hc.
    destruct H as (H1 & H2 & H3 & H4 & H5 & H6 & H7).
    destruct Hc as (C1 & C2 & C3 & C4 & C5 & C6 & C7).
    rewrite H1, H2, H3, H4, H5, H6, H7, C1, C2, C3, C4, C5, C6, C7.
    clear. repeat split;
      repeat match goal with
             | |- context [last_clause ?n log] => destruct (last_clause n log)
             | |- context [has_type ?n c] => destruct (has_type n c)
             end;
      simpl; rewrite <- ?List.app_assoc; reflexivity.
Qed.

Lemma collect_all_app log1 log2 s :
  collect_all s (log1 ++ log2)
  = cbind (collect_all s log1) (fun s' => collect_all s' log2).
Proof.
  revert s. induction log1 as [|c log1 IH]; intros s; simpl; [reflexivity|].
  destruct (collect s c); [apply IH | reflexivity].
Qed.

Lemma last_clause_In names log c :
  last_clause names log = Some c -> In c log /\ has_type names c = true.
Proof.
  induction log as [|x log IH]; simpl; [discriminate|].
  destruct (last_clause names log) as [c'|].
  - intros [= ->]. destruct (IH eq_refl) as [Hin Ht]. split; [right; exact Hin | exact Ht].
  - destruct (has_type names x) eqn:Hx; [|discriminate].
    intros [= <-]. split; [left; reflexivity | exact Hx].
Qed.

Lemma last_clause_none names log :
  existsb (has_type names) log = false -> last_clause names log = None.
Proof.
  induction log as [|c log IH]; simpl; [reflexivity|].
  destruct (has_type names c); simpl; [discriminate|].
  intros H. rewrite IH by exact H. reflexivity.
Qed.

Lemma last_clause_some names log :
  existsb (has_type names) log = true -> exists c, last_clause names log = Some c.
Proof.
  induction log as [|c log IH]; simpl; [discriminate|].
  destruct (last_clause names log) as [c'|] eqn:Hl; [eexists; reflexivity|].
  destruct (has_type names c); simpl; [eexists; reflexivity|].
  intros H. destruct (IH H) as [x Hx]. discriminate.
Qed.


(** ** Methods that do not read the log *)

Lemma log_blind_ret {A} (a : A) : log_blind (ret a).
Proof. intros this this' H. split; [reflexivity | exact H]. Qed.

Lemma log_blind_throw {A} (e : error) : log_blind (@throw A e).
Proof. intros this this' H. split; [reflexivity | exact H]. Qed.

Lemma log_blind_lift {A} (c : completion A) : log_blind (lift c).
Proof. intros this this' H. split; [reflexivity | exact H]. Qed.

Lemma log_blind_bind {A B} (m : M A) (k : A -> M B) :
  log_blind m -> (forall a, log_blind (k a)) -> log_blind (bind m k).
Proof.
  intros Hm Hk this this' Hs.
  destruct (Hm this this' Hs) as [Hf Hs']. unfold bind.
  destruct (m this) as [c s1], (m this') as [c' s1']; simpl in *; subst c'.
  destruct c as [a|e]; [apply Hk; exact Hs' | split; [reflexivity | exact Hs']].
Qed.

Lemma log_blind_parameterValue (v : value) : log_blind (_parameterValue v).
Proof.
  intros this this' [Hb Hv]. unfold _parameterValue, same_but_log; simpl.
  rewrite Hv. repeat split; assumption.
Qed.

Lemma log_blind_getQueryValues : log_blind _getQueryValues.
Proof.
  intros this this' [Hb Hv]. unfold _getQueryValues, same_but_log; simpl.
  rewrite Hv. repeat split; assumption.
Qed.

Lemma log_blind_this_bucket : log_blind this_bucket.
Proof.
  intros this this' [Hb Hv]. unfold this_bucket, same_but_log; simpl.
  rewrite Hb. repeat split; assumption.
Qed.

Lemma log_blind_mapM {A B} (f : A -> M B) (l : list A) :
  (forall x, log_blind (f x)) -> log_blind (mapM f l).
Proof.
  intros Hf. induction l as [|x l IH]; simpl.
  - apply log_blind_ret.
  - apply log_blind_bind; [apply Hf | intros y].
    apply log_blind_bind; [exact IH | intros ys]. apply log_blind_ret.
Qed.

Lemma log_blind_when {A} (c : bool) (m : M A) : log_blind m -> log_blind (when c m).
Proof.
  intros Hm. unfold when. destruct c; [|apply log_blind_ret].
  apply log_blind_bind; [exact Hm | intros x; apply log_blind_ret].
Qed.

Ltac blind :=
  repeat
    lazymatch goal with
    | |- log_blind (ret _) => apply log_blind_ret
    | |- log_blind (throw _) => apply log_blind_throw
    | |- log_blind (lift _) => apply log_blind_lift
    | |- log_blind (_parameterValue _) => apply log_blind_parameterValue
    | |- log_blind _getQueryValues => apply log_blind_getQueryValues
    | |- log_blind this_bucket => apply log_blind_this_bucket
    | |- log_blind (when _ _) => apply log_blind_when
    | |- log_blind (mapM _ _) => apply log_blind_mapM; intro
    | |- log_blind (bind _ _) => apply log_blind_bind; [|intro]
    | |- log_blind (if ?c then _ else _) => destruct c
    | |- log_blind (match ?c with _ => _ end) => destruct c
    end.

Lemma log_blind_where_statement (c : component) : log_blind (where_statement c).
Proof.
  unfold where_statement. blind.
Qed.

Lemma log_blind_sort_statement (g : value) : log_blind (sort_statement g).
Proof.
  unfold sort_statement. blind.
Qed.

Lemma log_blind_render (s : clauses) : log_blind (render s).
Proof.
  unfold render, _where, _sort. blind.
  - apply log_blind_where_statement.
  - apply log_blind_sort_statement.
Qed.


(** ** The sections of the query *)

Lemma where_statement_is_statement c this s this' :
  where_statement c this = (Return s, this') -> is_statement c s.
Proof.
  unfold where_statement. intros H. bind_inv H as o t Ho.
  unfold destructure in Ho. destruct (is_nullish (params c)); [discriminate|].
  apply lift_inv in Ho as [[= <-] ->]. bind_inv H as p t' Hp.
  destruct (operation_symbol (type c)) as [symbol|] eqn:Hop; [|discriminate].
  apply ret_inv in H as [-> ->]. exists symbol, p. split; [exact Hop | reflexivity].
Qed.

(** What a run of [render] that returns went through: the statements of
    [_where], the groups of [_sort] after them, and the sections. *)
Lemma render_inv s this r this' :
  render s this = (Return r, this') ->
  exists q_select statements groups this1,
    _select (S_select s) (S_from s) = Return q_select
    /\ mapM where_statement (S_where s) this = (Return statements, this1)
    /\ mapM sort_statement (S_sort s) this1 = (Return groups, this')
    /\ Output.values r = _values this'
    /\ Output.query r =
       String.concat " "
         ([q_select]
            ++ (if ToBoolean (bucket this) then [_from (S_from s)] else [])
            ++ (if nonempty (S_where s)
                then [("WHERE " ++ String.concat " AND " statements)%string] else [])
            ++ (match S_rawWhere s with
                | Some c => [("WHERE " ++ join_item (params c))%string]
                | None => []
                end)
            ++ (if nonempty (S_sort s)
                then [("ORDER BY " ++ String.concat ", " groups)%string] else [])
            ++ (match S_limit s with
                | Some n => [("LIMIT " ++ Number_toString n)%string]
                | None => []
                end)
            ++ (match S_skip s with
                | Some n => [("OFFSET " ++ Number_toString n)%string]
                | None => []
                end))%list.
Proof.
  unfold render. intros H.
  bind_inv H as q_select t1 H1. apply lift_inv in H1 as [Hsel ->].
  bind_inv H as b t2 H2. unfold this_bucket in H2. injection H2 as <- <-.
  bind_inv H as q_from t3 H3. apply when_inv in H3.
  assert (Hfrom : q_from = (if ToBoolean (bucket this) then [_from (S_from s)] else [])
                  /\ t3 = this).
  { destruct (ToBoolean (bucket this)).
    - destruct H3 as (x & Hx & ->). apply ret_inv in Hx as [-> ->]. split; reflexivity.
    - exact H3. }
  destruct Hfrom as [-> ->]. clear H3.
  bind_inv H as q_where t4 H4. apply when_inv in H4.
  assert (Hwhere : exists statements,
             mapM where_statement (S_where s) this = (Return statements, t4)
             /\ q_where = (if nonempty (S_where s)
                           then [("WHERE " ++ String.concat " AND " statements)%string]
                           else [])).
  { destruct (nonempty (S_where s)) eqn:Hne.
    - destruct H4 as (x & Hx & ->). unfold _where in Hx. bind_inv Hx as sts t Hs.
      apply ret_inv in Hx as [-> ->]. exists sts. split; [exact Hs | reflexivity].
    - destruct H4 as [-> ->]. exists []. split; [|reflexivity].
      apply mapM_nil_inv, Hne. }
  destruct Hwhere as (statements & Hstatements & ->). clear H4.
  bind_inv H as q_raw t5 H5. apply ret_inv in H5 as [-> ->].
  bind_inv H as q_order t6 H6. apply when_inv in H6.
  assert (Hsort : exists groups,
             mapM sort_statement (S_sort s) t4 = (Return groups, t6)
             /\ q_order = (if nonempty (S_sort s)
                           then [("ORDER BY " ++ String.concat ", " groups)%string]
                           else [])).
  { destruct (nonempty (S_sort s)) eqn:Hne.
    - destruct H6 as (x & Hx & ->). unfold _sort in Hx. bind_inv Hx as sts t Hs.
      apply ret_inv in Hx as [-> ->]. exists sts. split; [exact Hs | reflexivity].
    - destruct H6 as [-> ->]. exists []. split; [|reflexivity].
      apply mapM_nil_inv, Hne. }
  destruct Hsort as (groups & Hgroups & ->). clear H6.
  bind_inv H as q_limit t7 H7. apply ret_inv in H7 as [-> ->].
  bind_inv H as q_skip t8 H8. apply ret_inv in H8 as [-> ->].
  bind_inv H as values t9 H9. apply ret_inv in H as [-> ->].
  unfold _getQueryValues in H9. injection H9 as <- <-.
  exists q_select, statements, groups, t4.
  split; [exact Hsel|]. split; [exact Hstatements|]. split; [exact Hgroups|].
  split; [apply map_id|].
  cbn [Output.query]. destruct (S_rawWhere s); reflexivity.
Qed.

Lemma render_sections s this r this' :
  render s this = (Return r, this') ->
  exists q_select statements q_sort,
    _select (S_select s) (S_from s) = Return q_select
    /\ Forall2 is_statement (S_where s) statements
    /\ Output.query r =
       String.concat " "
         ([q_select]
            ++ (if ToBoolean (bucket this) then [_from (S_from s)] else [])
            ++ (if nonempty (S_where s)
                then [("WHERE " ++ String.concat " AND " statements)%string] else [])
            ++ (match S_rawWhere s with
                | Some c => [("WHERE " ++ join_item (params c))%string]
                | None => []
                end)
            ++ (if nonempty (S_sort s) then [("ORDER BY " ++ q_sort)%string] else [])
            ++ (match S_limit s with
                | Some n => [("LIMIT " ++ Number_toString n)%string]
                | None => []
                end)
            ++ (match S_skip s with
                | Some n => [("OFFSET " ++ Number_toString n)%string]
                | None => []
                end))%list.
Proof.
  intros H. apply render_inv in H.
  destruct H as (q_select & statements & groups & this1 & Hsel & Hst & _ & _ & Hq).
  exists q_select, statements, (String.concat ", " groups).
  split; [exact Hsel|]. split; [|exact Hq].
  eapply mapM_Forall2; [|exact Hst]. apply where_statement_is_statement.
Qed.

Lemma select_inv components b q :
  _select components b = Return q -> exists columns, q = "SELECT " ++ columns.
Proof.
  unfold _select. destruct (if is_nullish components then _ else _); try discriminate.
  intros [= <-]. eexists. reflexivity.
Qed.

(** C5: the query [build()] returns is its sections joined by a space, in
    this order: [SELECT]; [FROM], present when the bucket bound at
    construction holds; [WHERE] with the statements of the comparison
    clauses of the log joined by [AND], present when there is one; a
    [WHERE] of its own with the text of the last raw clause, present when
    one was supplied; [ORDER BY], present when there is a sort clause;
    [LIMIT] and [OFFSET], for the last limit and the last skip clause. *)
Theorem build_sections this r this' :
  build this = (Return r, this') ->
  let log := query this in
  let from_name := match last_clause ["from"] log with
                   | Some c => params c
                   | None => bucket this
                   end in
  let comparisons := filter (has_type comparison_types) log in
  exists columns statements groups,
    Forall2 is_statement comparisons statements
    /\ Output.query r =
       String.concat " "
         ([("SELECT " ++ columns)%string]
            ++ (if ToBoolean (bucket this)
                then [("FROM `" ++ ToString from_name ++ "`")%string] else [])
            ++ (if nonempty comparisons
                then [("WHERE " ++ String.concat " AND " statements)%string] else [])
            ++ (match last_clause ["rawWhere"] log with
                | Some c => [("WHERE " ++ join_item (params c))%string]
                | None => []
                end)
            ++ (if nonempty (filter (has_type ["sort"]) log)
                then [("ORDER BY " ++ groups)%string] else [])
            ++ (match last_clause ["limit"] log with
                | Some c => [("LIMIT " ++ Number_toString (parseInt (params c)))%string]
                | None => []
                end)
            ++ (match last_clause ["skip"] log with
                | Some c => [("OFFSET " ++ Number_toString (parseInt (params c)))%string]
                | None => []
                end))%list.
Proof.
  intros H log from_name comparisons. rewrite build_run in H.
  destruct (collect_all (initial (bucket this)) (query this)) as [s|e] eqn:Hc;
    [|discriminate].
  apply collect_all_spec in Hc. cbn [initial S_select S_from S_where S_rawWhere S_limit S_skip S_sort] in Hc.
  destruct Hc as (_ & Hfrom & Hwhere & Hraw & Hlimit & Hskip & Hsort).
  apply render_sections in H.
  destruct H as (q_select & statements & q_sort & Hsel & Hst & Hq).
  apply select_inv in Hsel as [columns ->].
  exists columns, statements, q_sort.
  simpl in Hwhere, Hsort. rewrite Hwhere in Hst, Hq. rewrite Hfrom, Hraw, Hlimit, Hskip, Hsort in Hq.
  split; [exact Hst|]. rewrite Hq. unfold _from. fold log. fold from_name. fold comparisons.
  f_equal. f_equal. f_equal. f_equal.
  f_equal; [destruct (last_clause ["rawWhere"] log); reflexivity|].
  f_equal; [destruct (filter (has_type ["sort"]) log); reflexivity|].
  f_equal; [destruct (last_clause ["limit"] log); reflexivity|].
  destruct (last_clause ["skip"] log); reflexivity.
Qed.

Lemma build_sections_witness :
  exists columns statements groups,
    Forall2 is_statement
      (filter (has_type comparison_types) (query example_builder)) statements
    /\ "SELECT `b`.* FROM `b` WHERE a = $1 WHERE x = 1 ORDER BY $2 ASC LIMIT 10 OFFSET 5"
       = String.concat " "
           [("SELECT " ++ columns)%string;
            "FROM `b`";
            ("WHERE " ++ String.concat " AND " statements)%string;
            "WHERE x = 1";
            ("ORDER BY " ++ groups)%string;
            "LIMIT 10";
            "OFFSET 5"].
Proof.
  exact (build_sections example_builder
           (Output.mk _ [VNum (Finite false 1 0); VStr "name"]) _ eq_refl).
Defined.


(** ** Raw clauses: the last one wins *)

Lemma collect_rawWhere s c :
  has_type ["rawWhere"] c = true ->
  collect s c =
  Return {| S_select := S_select s; S_from := S_from s; S_where := S_where s;
            S_rawWhere := Some c; S_limit := S_limit s; S_skip := S_skip s;
            S_sort := S_sort s |}.
Proof.
  unfold collect, has_type, one_of. destruct (type c) as [| | | |t| |]; try discriminate.
  cbn [existsb]. destruct (String.eqb_spec t "rawWhere") as [->|?]; [|discriminate].
  reflexivity.
Qed.

Lemma collect_same_but_rawWhere s1 s2 c :
  same_but_rawWhere s1 s2 ->
  has_type ["rawWhere"] c = false ->
  match collect s1 c, collect s2 c with
  | Return a, Return b => same_but_rawWhere a b
  | Throw e, Throw e' => e = e'
  | _, _ => False
  end.
Proof.
  destruct s1, s2. unfold same_but_rawWhere; simpl.
  intros (-> & -> & -> & -> & -> & ->).
  unfold collect, has_type, comparison_types, one_of.
  destruct (type c) as [| | | |t| |]; simpl; try (intros _; repeat split; reflexivity).
  switch_on t; cbn [orb]; try discriminate;
    try destruct (negb _); intros _; simpl; repeat split; reflexivity.
Qed.

Lemma collect_all_rawWhere_overwritten log : forall s1 s2,
  same_but_rawWhere s1 s2 ->
  existsb (has_type ["rawWhere"]) log = true ->
  collect_all s1 log = collect_all s2 log.
Proof.
  induction log as [|c log IH]; intros s1 s2 Hs; simpl; [discriminate|].
  destruct (has_type ["rawWhere"] c) eqn:Hc; simpl.
  - intros _. rewrite !collect_rawWhere by exact Hc.
    destruct s1, s2. unfold same_but_rawWhere in Hs; simpl in *.
    destruct Hs as (-> & -> & -> & -> & -> & ->). reflexivity.
  - intros Hlog. pose proof (collect_same_but_rawWhere s1 s2 c Hs Hc) as H.
    destruct (collect s1 c), (collect s2 c); try contradiction.
    + apply IH; assumption.
    + congruence.
Qed.

Lemma collect_all_only_last log : forall s,
  collect_all s (only_last ["rawWhere"] log) = collect_all s log.
Proof.
  induction log as [|c log IH]; intros s; simpl; [reflexivity|].
  destruct (has_type ["rawWhere"] c) eqn:Hc; simpl.
  - destruct (existsb (has_type ["rawWhere"]) log) eqn:Hlog; simpl.
    + rewrite collect_rawWhere by exact Hc. rewrite IH.
      apply collect_all_rawWhere_overwritten; [|exact Hlog].
      repeat split; reflexivity.
    + destruct (collect s c); [apply IH | reflexivity].
  - destruct (collect s c); [apply IH | reflexivity].
Qed.

Lemma only_last_none names log :
  existsb (has_type names) log = false ->
  filter (has_type names) (only_last names log) = [].
Proof.
  induction log as [|c log IH]; simpl; [reflexivity|].
  destruct (has_type names c) eqn:Hc; simpl; [discriminate|].
  intros H. rewrite Hc. apply IH, H.
Qed.

Lemma only_last_at_most_one names log :
  (List.length (filter (has_type names) (only_last names log)) <= 1)%nat.
Proof.
  induction log as [|c log IH]; simpl; [lia|].
  destruct (has_type names c) eqn:Hc; simpl.
  - destruct (existsb (has_type names) log) eqn:Hlog; simpl; [exact IH|].
    rewrite Hc, only_last_none by exact Hlog. simpl. lia.
  - rewrite Hc. exact IH.
Qed.

Lemma last_clause_only_last names log :
  last_clause names (only_last names log) = last_clause names log.
Proof.
  induction log as [|c log IH]; simpl; [reflexivity|].
  destruct (has_type names c) eqn:Hc; simpl.
  - destruct (existsb (has_type names) log) eqn:Hlog; simpl.
    + rewrite IH. destruct (last_clause_some _ _ Hlog) as [x ->]. reflexivity.
    + rewrite IH, Hc. reflexivity.
  - rewrite IH, Hc. reflexivity.
Qed.

(** The entries of type [rawWhere] that a later one follows have no part
    in what [build()] renders: it returns the same, and binds the same
    values, as on the log without them, where one raw clause is left at
    most, the last of the log. *)
Lemma raw_clauses_overwritten (this : QueryBuilder) :
  let this' := {| bucket := bucket this;
                  query := only_last ["rawWhere"] (query this);
                  _values := _values this |} in
  fst (build this) = fst (build this')
  /\ _values (snd (build this)) = _values (snd (build this'))
  /\ (List.length (filter (has_type ["rawWhere"]) (query this')) <= 1)%nat
  /\ last_clause ["rawWhere"] (query this') = last_clause ["rawWhere"] (query this).
Proof.
  intros this'. split; [|split; [|split]].
  3: apply only_last_at_most_one.
  3: apply last_clause_only_last.
  all: rewrite !build_run; subst this'; cbn [bucket query];
    rewrite collect_all_only_last;
    destruct (collect_all (initial (bucket this)) (query this)) as [s|e];
    try reflexivity;
    apply (log_blind_render s); split; reflexivity.
Qed.


(** ** Operators the loop of [build] has no case for *)

(** C4 (the code at the failing input): [where('a', 'like', 1)] records a
    clause and [build()] returns normally, with no condition and no value:
    the clause is dropped, no error is raised. *)
Theorem where_unrecognized_operator_dropped :
  (where_ (VStr "a") (VStr "like") (VNum (Finite false 1 0)) ;;; build)
    (new_QueryBuilder VUndefined)
  = (Return (Output.mk "SELECT *" []),
     {| bucket := VNull;
        query := [{| type := VStr "like";
                     params := VObj [("field", VStr "a");
                                     ("value", VNum (Finite false 1 0))] |}];
        _values := [] |}).
Proof. reflexivity. Qed.

(** The one operator outside the recognized set that does reach the
    [default] of [_where] is [or]. *)
Lemma where_or_not_implemented :
  fst ((where_ (VStr "a") (VStr "or") (VNum (Finite false 1 0)) ;;; build)
         (new_QueryBuilder VUndefined))
  = Throw (Error "Not implemented").
Proof. reflexivity. Qed.

Lemma collect_no_case s c : has_type case_labels c = false -> collect s c = Return s.
Proof.
  unfold collect, has_type, case_labels, comparison_types, one_of.
  destruct (type c) as [| | | |t| |]; try reflexivity.
  cbn [existsb app]. switch_on t; cbn [orb]; try discriminate. reflexivity.
Qed.

(** Whatever the instance, a comparison whose operator is not a label of
    the [switch] of [build] has no part in what [build()] returns: the
    query and the values are those of the instance without it. *)
Lemma where_no_case_ignored field operation value this :
  has_type case_labels
    {| type := operation; params := VObj [("field", field); ("value", value)] |} = false ->
  let this' := snd (where_ field operation value this) in
  fst (build this') = fst (build this)
  /\ _values (snd (build this')) = _values (snd (build this)).
Proof.
  intros H this'. rewrite !build_run. subst this'. cbn [where_ _add snd bucket query].
  rewrite collect_all_app.
  destruct (collect_all (initial (bucket this)) (query this)) as [s|e]; cbn [cbind].
  - cbn [collect_all]. rewrite collect_no_case by exact H.
    destruct (log_blind_render s
                {| bucket := bucket this;
                   query := (query this ++ [{| type := operation;
                                               params := VObj [("field", field);
                                                               ("value", value)] |}])%list;
                   _values := _values this |} this) as [F [_ V]];
      [split; reflexivity|]. split; assumption.
  - split; reflexivity.
Qed.


(** ** The bucket and the [FROM] section *)

(** C9 (the code at the failing input): on a builder constructed with no
    bucket, [from('n')] qualifies the projection with [n] and no [FROM]
    section is rendered. *)
Theorem from_without_bucket_no_FROM :
  fst ((from (VStr "n") ;;; build) (new_QueryBuilder VUndefined))
  = Return (Output.mk "SELECT `n`.*" []).
Proof. reflexivity. Qed.

(** With a bucket bound at construction, the name given to [from]
    replaces it in both sections. *)
Lemma from_overrides_bucket (b n : string) :
  b <> EmptyString ->
  fst ((from (VStr n) ;;; build) (new_QueryBuilder (VStr b)))
  = Return (Output.mk ("SELECT `" ++ n ++ "`.* FROM `" ++ n ++ "`") []).
Proof.
  intros Hb. destruct b as [|a b]; [congruence|].
  cbv -[append]. f_equal. f_equal. same_string.
Qed.


(** ** Amounts *)

(** The parts of C7 the code does satisfy: a null or absent amount is
    rejected by [limit] and [skip] themselves. *)
Lemma limit_skip_null (amount : value) this :
  is_nullish amount = true ->
  limit amount this = (Throw (QueryError "Amount must be specified"), this)
  /\ skip amount this = (Throw (QueryError "Amount must be specified"), this).
Proof. intros H. unfold limit, skip. rewrite H. split; reflexivity. Qed.

(** [limit("abc")] is recorded, and it is [build()] that fails. *)
Lemma limit_abc_fails_at_build (b : value) :
  fst (limit (VStr "abc") (new_QueryBuilder b)) = Return tt
  /\ fst ((limit (VStr "abc") ;;; build) (new_QueryBuilder b))
     = Throw (QueryError "Limit parameter must be numeric").
Proof. split; reflexivity. Qed.

(** On numerals in plain notation the amount is truncated: [limit(2.7)]
    renders [LIMIT 2] and [skip("-3.9")] renders [OFFSET -3]. *)
Lemma limit_truncates_plain_numerals :
  fst ((limit (VNum (Finite false 27 (-1))) ;;; skip (VStr "-3.9") ;;; build)
         (new_QueryBuilder VUndefined))
  = Return (Output.mk "SELECT * LIMIT 2 OFFSET -3" []).
Proof. vm_compute. reflexivity. Qed.

(** C7 (the code at failing inputs): [limit("1e3")] passes the numeric
    check of [build()] and renders [LIMIT 1]; [limit(0.0000005)] renders
    [LIMIT 5] and [limit(".5")] renders [LIMIT NaN]. *)
Theorem limit_not_truncated :
  fst ((limit (VStr "1e3") ;;; build) (new_QueryBuilder VUndefined))
  = Return (Output.mk "SELECT * LIMIT 1" [])
  /\ fst ((limit (VNum (Finite false 5 (-7))) ;;; build) (new_QueryBuilder VUndefined))
     = Return (Output.mk "SELECT * LIMIT 5" [])
  /\ fst ((limit (VStr ".5") ;;; build) (new_QueryBuilder VUndefined))
     = Return (Output.mk "SELECT * LIMIT NaN" []).
Proof. repeat split; vm_compute; reflexivity. Qed.


(** ** Sorting *)

(** C8: [sort(name)] with no order records the order [ASC], and [build()]
    renders [ORDER BY $1 ASC] with the name as the one bound value: the
    name is bound, it does not occur in the query.  On a builder with no
    bucket and on a builder bound to a bucket [b]. *)
Theorem sort_default_ascending (name : string) :
  (sort (VStr name) VUndefined ;;; build) (new_QueryBuilder VUndefined)
  = (Return (Output.mk "SELECT * ORDER BY $1 ASC" [VStr name]),
     {| bucket := VNull;
        query := [{| type := VStr "sort";
                     params := VObj [("fields", VArr [VStr name]);
                                     ("order", VStr "ASC")] |}];
        _values := [VStr name] |})
  /\ forall b, b <> EmptyString ->
     fst ((sort (VStr name) VUndefined ;;; build) (new_QueryBuilder (VStr b)))
     = Return (Output.mk ("SELECT `" ++ b ++ "`.* FROM `" ++ b ++ "` ORDER BY $1 ASC")
                         [VStr name]).
Proof.
  split; [reflexivity|].
  intros b Hb. destruct b as [|a b]; [congruence|].
  cbv -[append]. f_equal. f_equal. same_string.
Qed.

Lemma sort_default_ascending_witness :
  fst ((sort (VStr "name") VUndefined ;;; build) (new_QueryBuilder (VStr "b")))
  = Return (Output.mk "SELECT `b`.* FROM `b` ORDER BY $1 ASC" [VStr "name"]).
Proof. apply (proj2 (sort_default_ascending "name") "b"). discriminate. Defined.


(** ** Two runs of [build] *)

(** C2 (the claim as stated fails): after [where('a', 'eq', 1)], a first
    [build()] returns [WHERE a = $1] with one value and a second one
    [WHERE a = $2] with two. *)
Lemma build_twice_counterexample :
  let this := snd (where_ (VStr "a") (VStr "eq") (VNum (Finite false 1 0))
                     (new_QueryBuilder VUndefined)) in
  fst (build this)
  = Return (Output.mk "SELECT * WHERE a = $1" [VNum (Finite false 1 0)])
  /\ fst (build (snd (build this)))
     = Return (Output.mk "SELECT * WHERE a = $2"
                         [VNum (Finite false 1 0); VNum (Finite false 1 0)])
  /\ fst (build (snd (build this))) <> fst (build this).
Proof. repeat split. vm_compute. discriminate. Qed.

Lemma similar_ret {A} (R : A -> A -> Prop) a a' : R a a' -> similar R (ret a) (ret a').
Proof.
  intros HR this this' Hb Hq. simpl. repeat split; try assumption.
  exists []. rewrite !List.app_nil_r. split; reflexivity.
Qed.

Lemma similar_throw {A} (R : A -> A -> Prop) e : similar R (throw e) (throw e).
Proof.
  intros this this' Hb Hq. simpl. repeat split; try assumption.
  exists []. rewrite !List.app_nil_r. split; reflexivity.
Qed.

Lemma similar_lift {A} (R : A -> A -> Prop) c c' :
  alike R c c' -> similar R (lift c) (lift c').
Proof.
  intros HR this this' Hb Hq. simpl. repeat split; try assumption.
  exists []. rewrite !List.app_nil_r. split; reflexivity.
Qed.

Lemma similar_bind {A B} (RA : A -> A -> Prop) (RB : B -> B -> Prop)
      (m m' : M A) (k k' : A -> M B) :
  similar RA m m' ->
  (forall a a', RA a a' -> similar RB (k a) (k' a')) ->
  similar RB (bind m k) (bind m' k').
Proof.
  intros Hm Hk this this' Hb Hq.
  destruct (Hm this this' Hb Hq) as (Ha & B1 & B2 & Q1 & Q2 & bound & V1 & V2).
  unfold bind.
  destruct (m this) as [[a|e] s1], (m' this') as [[a'|e'] s1']; simpl in *;
    try contradiction.
  - destruct (Hk a a' Ha s1 s1') as (Ha2 & B3 & B4 & Q3 & Q4 & bound2 & V3 & V4);
      [congruence | congruence |].
    repeat split; try congruence.
    exists (bound ++ bound2)%list. rewrite V3, V4, V1, V2, !List.app_assoc.
    split; reflexivity.
  - repeat split; try assumption. exists bound. split; assumption.
Qed.

Lemma similar_parameterValue v : similar any (_parameterValue v) (_parameterValue v).
Proof.
  intros this this' Hb Hq. simpl. repeat split; try assumption.
  exists [v]. split; reflexivity.
Qed.

Lemma similar_getQueryValues : similar any _getQueryValues _getQueryValues.
Proof.
  intros this this' Hb Hq. simpl. repeat split; try assumption.
  exists []. rewrite !List.app_nil_r. split; reflexivity.
Qed.

Lemma similar_this_bucket : similar eq this_bucket this_bucket.
Proof.
  intros this this' Hb Hq. simpl. repeat split; try assumption.
  exists []. rewrite !List.app_nil_r. split; reflexivity.
Qed.

Lemma similar_this_query : similar eq this_query this_query.
Proof.
  intros this this' Hb Hq. simpl. repeat split; try assumption.
  exists []. rewrite !List.app_nil_r. split; reflexivity.
Qed.

Lemma similar_mapM {A B} (f : A -> M B) (l : list A) :
  (forall x, similar any (f x) (f x)) -> similar any (mapM f l) (mapM f l).
Proof.
  intros Hf. induction l as [|x l IH]; simpl.
  - apply similar_ret. exact I.
  - eapply similar_bind; [apply Hf | intros y y' _].
    eapply similar_bind; [exact IH | intros ys ys' _]. apply similar_ret. exact I.
Qed.

Lemma similar_when {A} (c : bool) (m : M A) :
  similar any m m -> similar any (when c m) (when c m).
Proof.
  intros Hm. unfold when. destruct c; [|apply similar_ret; exact I].
  eapply similar_bind; [exact Hm | intros x x' _; apply similar_ret; exact I].
Qed.

Lemma similar_where_statement c : similar any (where_statement c) (where_statement c).
Proof.
  unfold where_statement.
  eapply similar_bind with (RA := eq).
  { apply similar_lift. destruct (destructure _); reflexivity. }
  intros o ? <-.
  eapply similar_bind with (RA := any).
  { destruct (is_nullish _); [apply similar_ret; exact I | apply similar_parameterValue]. }
  intros p p' _.
  destruct (operation_symbol _); [apply similar_ret; exact I | apply similar_throw].
Qed.

Lemma similar_sort_statement g : similar any (sort_statement g) (sort_statement g).
Proof.
  unfold sort_statement.
  eapply similar_bind with (RA := eq).
  { apply similar_lift. destruct (destructure _); reflexivity. }
  intros o ? <-.
  destruct (get o "fields"); try apply similar_throw.
  eapply similar_bind with (RA := any).
  { apply similar_mapM. intros field.
    eapply similar_bind; [apply similar_parameterValue|].
    intros p p' _. apply similar_ret. exact I. }
  intros parts parts' _. apply similar_ret. exact I.
Qed.

Ltac similar_step :=
  lazymatch goal with
  | |- similar _ (ret _) (ret _) => apply similar_ret; exact I
  | |- similar _ (when _ _) (when _ _) => apply similar_when
  | |- similar _ (mapM _ _) (mapM _ _) => apply similar_mapM; intro
  | |- similar _ (where_statement _) (where_statement _) => apply similar_where_statement
  | |- similar _ (sort_statement _) (sort_statement _) => apply similar_sort_statement
  | |- similar _ _getQueryValues _getQueryValues => apply similar_getQueryValues
  | |- similar _ (bind _ _) (bind _ _) =>
      eapply similar_bind with (RA := any); [|intros ? ? _]
  end.

Lemma similar_render s : similar any (render s) (render s).
Proof.
  unfold render.
  eapply similar_bind with (RA := eq).
  { apply similar_lift. destruct (_select _ _); reflexivity. }
  intros q_select ? <-.
  eapply similar_bind with (RA := eq); [apply similar_this_bucket|].
  intros b ? <-. unfold _where, _sort.
  repeat similar_step.
Qed.

Lemma similar_build : similar any build build.
Proof.
  unfold build.
  eapply similar_bind with (RA := eq); [apply similar_this_bucket|]. intros b ? <-.
  eapply similar_bind with (RA := eq); [apply similar_this_query|]. intros log ? <-.
  eapply similar_bind with (RA := eq).
  { apply similar_lift. destruct (collect_all _ _); reflexivity. }
  intros s ? <-. apply similar_render.
Qed.

Lemma build_values this r this' :
  build this = (Return r, this') -> Output.values r = _values this'.
Proof.
  rewrite build_run. destruct (collect_all _ _); [|discriminate].
  intros H. apply render_inv in H.
  destruct H as (? & ? & ? & ? & _ & _ & _ & H & _). exact H.
Qed.

Lemma app_eq_self {A} (l bound : list A) : l = (l ++ bound)%list -> bound = [].
Proof.
  intros H. apply (f_equal (@List.length A)) in H. rewrite List.length_app in H.
  destruct bound; [reflexivity | simpl in H; lia].
Qed.

(** A second [build()] returns the same pair exactly when the first one
    left the values of the instance as they were. *)
Lemma build_again_same this r this1 :
  build this = (Return r, this1) ->
  fst (build this1) = Return r <-> _values this1 = _values this.
Proof.
  intros H.
  destruct (similar_build this this1) as (Ha & B1 & B2 & Q1 & Q2 & bound & V1 & V2).
  - pose proof (similar_build this this eq_refl eq_refl) as (_ & B & _).
    rewrite H in B. simpl in B. congruence.
  - pose proof (similar_build this this eq_refl eq_refl) as (_ & _ & _ & Q & _).
    rewrite H in Q. simpl in Q. congruence.
  - rewrite H in *. simpl in *. split.
    + intros H2. destruct (build this1) as [c this2] eqn:Hb. simpl in *. subst c.
      apply build_values in Hb. apply build_values in H.
      rewrite V2 in Hb. rewrite H in Hb.
      apply app_eq_self in Hb. subst bound. rewrite V1, List.app_nil_r. reflexivity.
    + intros HV. assert (this1 = this) as ->.
      { destruct this, this1; simpl in *. congruence. }
      rewrite H. reflexivity.
Qed.

(** A build on a log with no comparison and no sort clause binds
    nothing. *)
Lemma build_binds_nothing this r this' :
  filter (has_type comparison_types) (query this) = [] ->
  filter (has_type ["sort"]) (query this) = [] ->
  build this = (Return r, this') -> this' = this.
Proof.
  intros Hw Hs. rewrite build_run.
  destruct (collect_all (initial (bucket this)) (query this)) as [s|e] eqn:Hc;
    [|discriminate].
  apply collect_all_spec in Hc. destruct Hc as (_ & _ & Hwhere & _ & _ & _ & Hsort).
  cbn [initial S_where S_sort app] in Hwhere, Hsort. rewrite Hw in Hwhere.
  rewrite Hs in Hsort. intros H. apply render_inv in H.
  destruct H as (? & ? & ? & this1 & _ & Hst & Hgr & _). rewrite Hwhere in Hst.
  rewrite Hsort in Hgr. apply ret_inv in Hst as [_ ->]. apply ret_inv in Hgr as [_ ->].
  reflexivity.
Qed.


(** ** Scanning for placeholders *)

Lemma scan_split st s : scan st s = (emitted st s ++ flush (final st s))%list.
Proof.
  revert st. induction s as [|c s IH]; intros st; simpl.
  - reflexivity.
  - rewrite IH, List.app_assoc. reflexivity.
Qed.

Lemma final_app st a b : final st (a ++ b) = final (final st a) b.
Proof. revert st. induction a as [|c a IH]; intros st; simpl; [reflexivity | apply IH]. Qed.

Lemma emitted_app st a b :
  emitted st (a ++ b) = (emitted st a ++ emitted (final st a) b)%list.
Proof.
  revert st. induction a as [|c a IH]; intros st; simpl.
  - reflexivity.
  - rewrite IH, List.app_assoc. reflexivity.
Qed.

Lemma scan_app st a b : scan st (a ++ b) = (emitted st a ++ scan (final st a) b)%list.
Proof. rewrite !scan_split, final_app, emitted_app, List.app_assoc. reflexivity. Qed.

Lemma no_dollar_app a b : no_dollar (a ++ b) = no_dollar a && no_dollar b.
Proof.
  induction a as [|c a IH]; simpl; [reflexivity|].
  rewrite IH, andb_assoc. reflexivity.
Qed.

Lemma idle_no_dollar s :
  no_dollar s = true -> emitted Idle s = [] /\ final Idle s = Idle.
Proof.
  induction s as [|c s IH]; simpl; [split; reflexivity|].
  intros H. apply andb_true_iff in H as [Hc Hs]. unfold step.
  destruct (Ascii.eqb c "$"); [discriminate|].
  destruct (is_digit c); simpl; apply IH, Hs.
Qed.

Lemma placeholders_no_dollar s : no_dollar s = true -> placeholders s = [].
Proof.
  intros H. unfold placeholders. rewrite scan_split.
  destruct (idle_no_dollar s H) as [-> ->]. reflexivity.
Qed.

Lemma placeholders_prefix a b :
  no_dollar a = true -> placeholders (a ++ b) = placeholders b.
Proof.
  intros H. unfold placeholders. rewrite scan_app.
  destruct (idle_no_dollar a H) as [-> ->]. reflexivity.
Qed.

Lemma separator_resets st s :
  separator s = true -> emitted st s = flush st /\ final st s = Idle.
Proof.
  destruct s as [|c s]; simpl; [discriminate|].
  intros H. apply andb_true_iff in H as [Hd H]. apply andb_true_iff in H as [Hc Hs].
  unfold step. destruct (Ascii.eqb c "$"); [discriminate|].
  destruct (is_digit c); [discriminate|]. simpl.
  destruct (idle_no_dollar s Hs) as [-> ->]. rewrite List.app_nil_r. split; reflexivity.
Qed.

Lemma placeholders_separated a sep b :
  separator sep = true ->
  placeholders (a ++ sep ++ b) = (placeholders a ++ placeholders b)%list.
Proof.
  intros H. unfold placeholders. rewrite !scan_app.
  destruct (separator_resets (final Idle a) sep H) as [-> ->].
  rewrite (scan_split Idle a), <- List.app_assoc. reflexivity.
Qed.

Lemma placeholders_concat sep l :
  separator sep = true ->
  placeholders (String.concat sep l) = flat_map placeholders l.
Proof.
  intros H. induction l as [|x l IH]; [reflexivity|].
  destruct l as [|y l].
  - simpl. rewrite List.app_nil_r. reflexivity.
  - change (String.concat sep (x :: y :: l)) with (x ++ sep ++ String.concat sep (y :: l)).
    rewrite placeholders_separated by exact H. rewrite IH. reflexivity.
Qed.

(** The digits of a number, scanned after a dollar sign. *)
Lemma step_digit a c :
  is_digit c = true -> step (Index a) c = ([], Index (10 * a + digit_value c)%N).
Proof.
  intros H. unfold step. destruct (Ascii.eqb_spec c "$") as [->|_]; [discriminate|].
  rewrite H. reflexivity.
Qed.

Lemma step_first_digit c :
  is_digit c = true -> step Dollar c = ([], Index (digit_value c)).
Proof.
  intros H. unfold step. destruct (Ascii.eqb_spec c "$") as [->|_]; [discriminate|].
  rewrite H. reflexivity.
Qed.

Lemma scan_digits d : forall acc,
  emitted (Index (N.of_nat acc)) (NilEmpty.string_of_uint d) = []
  /\ final (Index (N.of_nat acc)) (NilEmpty.string_of_uint d)
     = Index (N.of_nat (Nat.of_uint_acc d acc)).
Proof.
  induction d; intros acc;
    cbn [NilEmpty.string_of_uint emitted final Nat.of_uint_acc];
    [split; reflexivity| | | | | | | | | |];
    rewrite step_digit by reflexivity; cbn [fst snd app];
    match goal with
    | |- context [Nat.of_uint_acc _ ?n] =>
        destruct (IHd n) as [E F];
        match goal with
        | |- context [Index ?x] =>
            replace x with (N.of_nat n)
              by (rewrite Nat.tail_mul_spec;
                  match goal with
                  | |- context [digit_value ?c] =>
                      let v := eval vm_compute in (digit_value c) in
                      change (digit_value c) with v
                  end; lia)
        end;
        rewrite E, F; split; reflexivity
    end.
Qed.

Lemma scan_first_digits d :
  d <> Decimal.Nil ->
  emitted Dollar (NilEmpty.string_of_uint d) = []
  /\ final Dollar (NilEmpty.string_of_uint d) = Index (N.of_nat (Nat.of_uint d)).
Proof.
  intros Hd. unfold Nat.of_uint.
  destruct d; [congruence| | | | | | | | | |];
    cbn [NilEmpty.string_of_uint emitted final Nat.of_uint_acc];
    rewrite step_first_digit by reflexivity; cbn [fst snd app];
    match goal with
    | |- context [Nat.of_uint_acc ?d ?n] =>
        destruct (scan_digits d n) as [E F];
        change (digit_value _) with (N.of_nat n);
        rewrite E, F; split; reflexivity
    end.
Qed.

Lemma to_uint_nonnil n : Nat.to_uint n <> Decimal.Nil.
Proof.
  intros H. pose proof (DecimalNat.Unsigned.to_of (Nat.to_uint n)) as T.
  rewrite DecimalNat.Unsigned.of_to, H in T. discriminate T.
Qed.

Lemma scan_index n :
  emitted Idle ("$" ++ digits_of_nat n) = []
  /\ final Idle ("$" ++ digits_of_nat n) = Index (N.of_nat n).
Proof.
  unfold digits_of_nat, NilZero.string_of_uint.
  pose proof (to_uint_nonnil n) as Hn.
  destruct (scan_first_digits (Nat.to_uint n) Hn) as [E F].
  rewrite DecimalNat.Unsigned.of_to in F.
  destruct (Nat.to_uint n); [congruence|..];
    cbn [append emitted final]; change (step Idle "$") with (@nil N, Dollar);
    cbn [fst snd app]; rewrite E, F; split; reflexivity.
Qed.

Lemma placeholders_index n : placeholders ("$" ++ digits_of_nat n) = [N.of_nat n].
Proof.
  unfold placeholders. rewrite scan_split.
  destruct (scan_index n) as [-> ->]. reflexivity.
Qed.

Lemma placeholders_index_then n sep :
  separator sep = true ->
  placeholders (("$" ++ digits_of_nat n) ++ sep) = [N.of_nat n].
Proof.
  intros H. rewrite <- (append_nil_r sep), placeholders_separated by exact H.
  rewrite placeholders_index. reflexivity.
Qed.


(** ** Texts with no dollar sign *)

Lemma no_dollar_concat sep l :
  no_dollar sep = true ->
  Forall (fun s => no_dollar s = true) l ->
  no_dollar (String.concat sep l) = true.
Proof.
  intros Hsep H. induction H as [|x l Hx Hl IH]; [reflexivity|].
  destruct l as [|y l]; [exact Hx|].
  change (String.concat sep (x :: y :: l)) with (x ++ sep ++ String.concat sep (y :: l)).
  rewrite !no_dollar_app, Hx, Hsep, IH. reflexivity.
Qed.

Lemma no_dollar_uint d : no_dollar (NilEmpty.string_of_uint d) = true.
Proof. induction d; simpl; try reflexivity; exact IHd. Qed.

Lemma no_dollar_uint0 d : no_dollar (NilZero.string_of_uint d) = true.
Proof. destruct d; try reflexivity; apply (no_dollar_uint (_ d)). Qed.

Lemma no_dollar_strip s :
  no_dollar s = true -> no_dollar (strip_trailing_zeros s) = true.
Proof.
  induction s as [|c s IH]; simpl; [reflexivity|].
  intros H. apply andb_true_iff in H as [Hc Hs]. specialize (IH Hs).
  destruct (strip_trailing_zeros s).
  - destruct (Ascii.eqb c "0"); [reflexivity|]. simpl. rewrite Hc. reflexivity.
  - simpl in *. rewrite Hc. exact IH.
Qed.

Lemma no_dollar_substring s : forall n m,
  no_dollar s = true -> no_dollar (substring n m s) = true.
Proof.
  induction s as [|c s IH]; intros n m H.
  - destruct n, m; reflexivity.
  - simpl in H. apply andb_true_iff in H as [Hc Hs].
    destruct n as [|n]; simpl.
    + destruct m as [|m]; [reflexivity|]. simpl. rewrite Hc. apply IH, Hs.
    + apply IH, Hs.
Qed.

Lemma no_dollar_zeros n : no_dollar (zeros n) = true.
Proof. induction n; simpl; [reflexivity | exact IHn]. Qed.

Lemma no_dollar_Number_toString x : no_dollar (Number_toString x) = true.
Proof.
  destruct x as [|neg|neg m e]; simpl.
  - reflexivity.
  - destruct neg; reflexivity.
  - destruct (m =? 0)%N; [reflexivity|].
    pose proof (no_dollar_uint0 (N.to_uint m)) as Hd. fold (digits_of_N m) in Hd.
    pose proof (no_dollar_strip _ Hd) as Hs.
    assert (Hexp : forall z, no_dollar (digits_of_N z) = true)
      by (intros z; apply no_dollar_uint0).
    rewrite no_dollar_app. apply andb_true_iff. split; [destruct neg; reflexivity|].
    repeat match goal with
           | |- context [if ?c then _ else _] => destruct c
           end.
    + rewrite no_dollar_app, Hs, no_dollar_zeros. reflexivity.
    + rewrite no_dollar_app, no_dollar_substring by exact Hs.
      simpl. apply no_dollar_substring, Hs.
    + change ("0." ++ ?a) with (String "0" (String "." a)). simpl.
      rewrite no_dollar_app, Hs, no_dollar_zeros. reflexivity.
    + destruct (strip_trailing_zeros (digits_of_N m)) as [|d [|d' rest]];
        simpl in Hs |- *;
        repeat match goal with
               | H : _ && _ = true |- _ => apply andb_true_iff in H as [? ?]
               end;
        repeat match goal with
               | H : negb _ = true |- _ => rewrite H
               | H : no_dollar _ = true |- _ => rewrite ?no_dollar_app, H
               end;
        simpl; apply Hexp.
    + destruct (strip_trailing_zeros (digits_of_N m)) as [|d [|d' rest]];
        simpl in Hs |- *;
        repeat match goal with
               | H : _ && _ = true |- _ => apply andb_true_iff in H as [? ?]
               end;
        repeat match goal with
               | H : negb _ = true |- _ => rewrite H
               | H : no_dollar _ = true |- _ => rewrite ?no_dollar_app, H
               end;
        simpl; apply Hexp.
Qed.

Lemma no_dollar_join_item v : clean v -> no_dollar (join_item v) = true.
Proof. unfold join_item, clean. destruct (is_nullish v); [reflexivity | auto]. Qed.

Lemma no_dollar_join sep items :
  no_dollar sep = true -> Forall clean items -> no_dollar (join sep items) = true.
Proof.
  intros Hsep H. unfold join. apply no_dollar_concat; [exact Hsep|].
  apply Forall_map. eapply Forall_impl; [|exact H].
  intros v. apply no_dollar_join_item.
Qed.

Lemma no_dollar_select components b q :
  (forall items, components = VArr items -> Forall clean items) ->
  clean b ->
  _select components b = Return q -> no_dollar q = true.
Proof.
  intros Hitems Hb. unfold _select.
  assert (H : forall items,
             (if is_nullish components then VArr [VStr "*"] else components) = VArr items ->
             Forall clean items).
  { intros items. destruct (is_nullish components) eqn:E.
    - intros [= <-]. repeat constructor.
    - apply Hitems. }
  destruct (if is_nullish components then _ else _); try discriminate.
  intros [= <-]. specialize (H _ eq_refl).
  change ("SELECT " ++ ?a) with (String "S" (String "E" (String "L" (String "E"
             (String "C" (String "T" (String " " a))))))).
  simpl. apply no_dollar_join; [reflexivity|].
  destruct (is_nullish b); simpl; [exact H|].
  apply Forall_map. eapply Forall_impl; [|exact H].
  intros v Hv. unfold clean in *. simpl. rewrite no_dollar_app, Hb. simpl. exact Hv.
Qed.

Lemma no_dollar_symbol t symbol :
  operation_symbol t = Some symbol -> no_dollar symbol = true.
Proof.
  unfold operation_symbol. destruct t as [| | | |t| |]; try discriminate.
  switch_on t; intros [= <-]; reflexivity.
Qed.


(** ** The placeholders of a build *)

(** C1 (the claim as stated fails): after [rawWhere('a = $1')], [build()]
    returns a query with the placeholder [$1] and no value. *)
Lemma placeholders_counterexample :
  exists r,
    fst ((rawWhere (VStr "a = $1") ;;; build) (new_QueryBuilder VUndefined)) = Return r
    /\ Output.query r = "SELECT * WHERE a = $1"
    /\ Output.values r = []
    /\ placeholders (Output.query r) = [1%N]
    /\ placeholders (Output.query r) <> indices (List.length (Output.values r)).
Proof. eexists. repeat split. vm_compute. discriminate. Qed.

Lemma numbers_from_refl this : numbers_from this this [].
Proof. exists []. rewrite List.app_nil_r. split; reflexivity. Qed.

Lemma numbers_from_trans this1 this2 this3 l1 l2 :
  numbers_from this1 this2 l1 -> numbers_from this2 this3 l2 ->
  numbers_from this1 this3 (l1 ++ l2).
Proof.
  intros (b1 & V1 & ->) (b2 & V2 & ->). exists (b1 ++ b2)%list. split.
  - rewrite V2, V1, List.app_assoc. reflexivity.
  - rewrite V1, !List.length_app, seq_app, map_app. reflexivity.
Qed.

Lemma parameterValue_numbers v this p this' :
  _parameterValue v this = (Return p, this') ->
  p = "$" ++ digits_of_nat (S (List.length (_values this)))
  /\ numbers_from this this' [N.of_nat (S (List.length (_values this)))].
Proof.
  unfold _parameterValue. intros [= <- <-]. rewrite List.length_app, Nat.add_1_r.
  split; [reflexivity|]. exists [v]. split; reflexivity.
Qed.

Lemma mapM_numbers {A} (f : A -> M string) (P : A -> Prop) :
  (forall x this y this',
      P x -> f x this = (Return y, this') -> numbers_from this this' (placeholders y)) ->
  forall l this ys this',
    Forall P l -> mapM f l this = (Return ys, this') ->
    numbers_from this this' (flat_map placeholders ys).
Proof.
  intros Hf. induction l as [|x l IH]; simpl; intros this ys this' HP H.
  - apply ret_inv in H as [-> ->]. apply numbers_from_refl.
  - inversion HP as [|? ? Hx Hl]; subst.
    bind_inv H as y t Hy. bind_inv H as ys' t' Hys. apply ret_inv in H as [-> ->].
    simpl. eapply numbers_from_trans; [eapply Hf | eapply IH]; eassumption.
Qed.

Lemma where_statement_numbers c this s this' :
  clean (get (params c) "field") ->
  where_statement c this = (Return s, this') ->
  numbers_from this this' (placeholders s).
Proof.
  unfold where_statement, clean. intros Hfield H. bind_inv H as o t Ho.
  unfold destructure in Ho. destruct (is_nullish (params c)); [discriminate|].
  apply lift_inv in Ho as [[= <-] ->]. bind_inv H as p t' Hp.
  destruct (operation_symbol (type c)) as [symbol|] eqn:Hop; [|discriminate].
  apply ret_inv in H as [-> ->]. apply no_dollar_symbol in Hop.
  assert (Hpre : no_dollar (ToString (get (params c) "field") ++ " " ++ symbol ++ " ") = true).
  { rewrite !no_dollar_app, Hfield, Hop. reflexivity. }
  replace (ToString (get (params c) "field") ++ " " ++ symbol ++ " " ++ p)
    with ((ToString (get (params c) "field") ++ " " ++ symbol ++ " ") ++ p)
    by (rewrite !append_assoc; reflexivity).
  rewrite placeholders_prefix by exact Hpre.
  destruct (is_nullish (get (params c) "value")).
  - apply ret_inv in Hp as [-> ->]. apply numbers_from_refl.
  - apply parameterValue_numbers in Hp as [-> Hn].
    rewrite placeholders_index. exact Hn.
Qed.

Lemma sort_statement_numbers g this s this' :
  no_dollar (join_item (get g "order")) = true ->
  sort_statement g this = (Return s, this') ->
  numbers_from this this' (placeholders s).
Proof.
  unfold sort_statement. intros Horder H. bind_inv H as o t Ho.
  unfold destructure in Ho. destruct (is_nullish g); [discriminate|].
  apply lift_inv in Ho as [[= <-] ->].
  destruct (get g "fields") as [| | | | |items|]; try discriminate.
  bind_inv H as parts t' Hparts. apply ret_inv in H as [-> ->].
  rewrite placeholders_concat by reflexivity.
  eapply (mapM_numbers _ (fun _ => True)); [| |exact Hparts].
  - intros field t1 part t2 _ H. bind_inv H as p t3 Hp. apply ret_inv in H as [-> ->].
    apply parameterValue_numbers in Hp as [-> Hn].
    change (join " " [VStr ?p; ?o]) with (p ++ " " ++ join_item o).
    rewrite placeholders_index_then; [exact Hn|]. simpl. exact Horder.
  - apply Forall_forall. intros; exact I.
Qed.

Lemma flat_map_singleton_if {A B} (f : A -> list B) (c : bool) (x : A) :
  flat_map f (if c then [x] else []) = if c then f x else [].
Proof. destruct c; simpl; [apply List.app_nil_r | reflexivity]. Qed.

Lemma render_numbers s this r this' :
  clean_clauses s ->
  render s this = (Return r, this') ->
  numbers_from this this' (placeholders (Output.query r))
  /\ Output.values r = _values this'.
Proof.
  intros (Cfrom & Cselect & Cwhere & Craw & Csort) H. apply render_inv in H.
  destruct H as (q_select & statements & groups & this1 & Hsel & Hst & Hgr & Hv & ->).
  split; [|exact Hv].
  rewrite placeholders_concat by reflexivity.
  rewrite !flat_map_app. cbn [flat_map].
  rewrite (placeholders_no_dollar q_select)
    by (eapply no_dollar_select; [exact Cselect | exact Cfrom | exact Hsel]).
  rewrite !flat_map_singleton_if.
  assert (E1 : (if ToBoolean (bucket this) then placeholders (_from (S_from s)) else [])
               = []).
  { destruct (ToBoolean _); [|reflexivity]. apply placeholders_no_dollar.
    unfold _from, clean in *. simpl. rewrite no_dollar_app, Cfrom. reflexivity. }
  assert (E2 : flat_map placeholders
                 match S_rawWhere s with
                 | Some c => [("WHERE " ++ join_item (params c))%string]
                 | None => []
                 end = []).
  { destruct (S_rawWhere s) as [c|]; [|reflexivity]. simpl. rewrite List.app_nil_r.
    apply placeholders_no_dollar. apply no_dollar_join_item, Craw. reflexivity. }
  assert (E3 : forall (o : option number) (word : string),
             no_dollar word = true ->
             flat_map placeholders
               match o with
               | Some n => [(word ++ Number_toString n)%string]
               | None => []
               end = []).
  { intros [n|] word Hw; [|reflexivity]. simpl. rewrite List.app_nil_r.
    apply placeholders_no_dollar. rewrite no_dollar_app, Hw.
    apply no_dollar_Number_toString. }
  rewrite E1, E2, !E3 by reflexivity. rewrite !List.app_nil_r. cbn [app].
  eapply numbers_from_trans.
  - assert (Hw : numbers_from this this1 (flat_map placeholders statements)).
    { eapply mapM_numbers; [|exact Cwhere|exact Hst].
      intros c t1 st t2 Hc. apply where_statement_numbers, Hc. }
    destruct (nonempty (S_where s)) eqn:Hne.
    + rewrite placeholders_prefix by reflexivity.
      rewrite placeholders_concat by reflexivity. exact Hw.
    + destruct (S_where s); [|discriminate]. apply ret_inv in Hst as [-> ->].
      apply numbers_from_refl.
  - assert (Hg : numbers_from this1 this' (flat_map placeholders groups)).
    { eapply mapM_numbers; [|exact Csort|exact Hgr].
      intros g t1 st t2 Hg. apply sort_statement_numbers, Hg. }
    destruct (nonempty (S_sort s)) eqn:Hne.
    + rewrite placeholders_prefix by reflexivity.
      rewrite placeholders_concat by reflexivity. exact Hg.
    + destruct (S_sort s); [|discriminate]. apply ret_inv in Hgr as [-> ->].
      apply numbers_from_refl.
Qed.

Lemma collect_all_clean b log s :
  clean b -> Forall clean_component log ->
  collect_all (initial b) log = Return s -> clean_clauses s.
Proof.
  intros Hb Hlog H. apply collect_all_spec in H.
  cbn [initial S_select S_from S_where S_rawWhere S_limit S_skip S_sort app] in H.
  destruct H as (Hselect & Hfrom & Hwhere & Hraw & _ & _ & Hsort).
  rewrite Forall_forall in Hlog.
  repeat split.
  - rewrite Hfrom. destruct (last_clause ["from"] log) as [c|] eqn:E; [|exact Hb].
    apply last_clause_In in E as [Hin Ht]. apply (proj1 (Hlog c Hin)), Ht.
  - intros items. rewrite Hselect.
    destruct (last_clause ["select"] log) as [c|] eqn:E; [|discriminate].
    apply last_clause_In in E as [Hin Ht].
    apply (proj1 (proj2 (Hlog c Hin))), Ht.
  - rewrite Hwhere. apply Forall_forall. intros c Hc.
    apply filter_In in Hc as [Hin Ht].
    apply (proj1 (proj2 (proj2 (Hlog c Hin)))), Ht.
  - intros c. rewrite Hraw.
    destruct (last_clause ["rawWhere"] log) as [c'|] eqn:E; [|discriminate].
    intros [= <-]. apply last_clause_In in E as [Hin Ht].
    apply (proj1 (proj2 (proj2 (proj2 (Hlog c' Hin))))), Ht.
  - rewrite Hsort. apply Forall_map, Forall_forall. intros c Hc.
    apply filter_In in Hc as [Hin Ht].
    apply (proj2 (proj2 (proj2 (proj2 (Hlog c Hin))))), Ht.
Qed.

(** On an instance whose names have no dollar sign, the placeholders of
    the query [build()] returns are numbered after the values the
    instance had, one for each value [build()] binds. *)
Lemma build_numbers this r this' :
  clean (bucket this) -> Forall clean_component (query this) ->
  build this = (Return r, this') ->
  numbers_from this this' (placeholders (Output.query r))
  /\ Output.values r = _values this'.
Proof.
  intros Hb Hlog. rewrite build_run.
  destruct (collect_all (initial (bucket this)) (query this)) as [s|e] eqn:Hc;
    [|discriminate].
  apply render_numbers. eapply collect_all_clean; eassumption.
Qed.

Lemma add_inv type params this u this' :
  _add type params this = (Return u, this') ->
  bucket this' = bucket this /\ _values this' = _values this
  /\ query this' = (query this ++ [{| type := type; params := params |}])%list.
Proof. unfold _add. intros [= <- <-]. repeat split. Qed.

Lemma one_of_ASC_DESC o :
  one_of o ["ASC"; "DESC"] = true -> no_dollar o = true.
Proof.
  unfold one_of. simpl.
  destruct (String.eqb_spec o "ASC") as [->|_]; [reflexivity|].
  destruct (String.eqb_spec o "DESC") as [->|_]; [reflexivity|]. discriminate.
Qed.

Lemma invoke_clean c this u this' :
  clean_call c -> invoke c this = (Return u, this') ->
  bucket this' = bucket this /\ _values this' = _values this
  /\ exists e, query this' = (query this ++ [e])%list /\ clean_component e.
Proof.
  intros Hc H.
  assert (G : forall type params,
             clean_component {| type := type; params := params |} ->
             _add type params this = (Return u, this') ->
             bucket this' = bucket this /\ _values this' = _values this
             /\ exists e, query this' = (query this ++ [e])%list /\ clean_component e).
  { intros type params Hclean Hadd. apply add_inv in Hadd as (B & V & Q).
    repeat split; try assumption. eexists. split; [exact Q | exact Hclean]. }
  destruct c as [selected|name|amount|amount|fields order|field operation value|value];
    simpl in H, Hc.
  - eapply G; [|exact H]. unfold clean_component. cbn.
    repeat split; intros Ht; try discriminate Ht. intros items [= <-]. exact Hc.
  - eapply G; [|exact H]. unfold clean_component. cbn.
    repeat split; intros Ht; try discriminate Ht. exact Hc.
  - unfold limit in H. destruct (is_nullish amount); [discriminate|].
    eapply G; [|exact H]. unfold clean_component. cbn.
    repeat split; intros Ht; discriminate Ht.
  - unfold skip in H. destruct (is_nullish amount); [discriminate|].
    eapply G; [|exact H]. unfold clean_component. cbn.
    repeat split; intros Ht; discriminate Ht.
  - unfold sort in H. destruct (is_nullish fields); [discriminate|].
    destruct (match order with VUndefined => VStr "ASC" | _ => order end);
      try discriminate.
    destruct (one_of (toUpperCase s) ["ASC"; "DESC"]) eqn:Ho; [|discriminate].
    eapply G; [|exact H]. unfold clean_component. cbn.
    repeat split; intros Ht; try discriminate Ht. apply one_of_ASC_DESC, Ho.
  - eapply G; [|exact H]. unfold clean_component, clean. cbn.
    repeat split; intros Ht; try reflexivity; try exact Hc. intros items [=].
  - eapply G; [|exact H]. unfold clean_component. cbn.
    repeat split; intros Ht; try discriminate Ht. exact Hc.
Qed.

Lemma invoke_all_clean calls : forall this this',
  Forall clean_call calls ->
  invoke_all calls this = (Return tt, this') ->
  Forall clean_component (query this) ->
  bucket this' = bucket this /\ _values this' = _values this
  /\ Forall clean_component (query this').
Proof.
  unfold invoke_all.
  induction calls as [|c calls IH]; simpl; intros this this' Hc H Hlog.
  - apply ret_inv in H as [_ ->]. repeat split. exact Hlog.
  - inversion Hc as [|? ? Hc1 Hc2]; subst.
    bind_inv H as u t Hu.
    apply (invoke_clean c) in Hu as (B & V & e & Q & He); [|exact Hc1].
    destruct (IH t this' Hc2 H) as (B' & V' & Hlog').
    { rewrite Q. apply Forall_app. split; [exact Hlog | constructor; [exact He | constructor]]. }
    repeat split; [congruence | congruence | exact Hlog'].
Qed.

(** C1 (amended): on a fresh builder, after calls of [select], [from],
    [limit], [skip], [sort], [where] and [rawWhere] that all return, in
    which no bucket, column, field or raw text holds a dollar sign, the
    placeholders of the query [build()] returns are [$1], ..., [$n] in
    this order, each once, [n] being the number of values returned. *)
Theorem build_placeholders bucket calls this r this' :
  clean bucket ->
  Forall clean_call calls ->
  invoke_all calls (new_QueryBuilder bucket) = (Return tt, this) ->
  build this = (Return r, this') ->
  placeholders (Output.query r) = indices (List.length (Output.values r)).
Proof.
  intros Hb Hcalls Hrun Hbuild.
  apply invoke_all_clean in Hrun as (B & V & Hlog); [|exact Hcalls|constructor].
  apply build_numbers in Hbuild as [(bound & Hv & Hp) Hvalues].
  - rewrite Hp, Hvalues, Hv, V. reflexivity.
  - rewrite B. destruct bucket; exact Hb.
  - exact Hlog.
Qed.

Lemma build_placeholders_witness :
  placeholders
    "SELECT `b`.* FROM `b` WHERE a = $1 WHERE x = 1 ORDER BY $2 ASC LIMIT 10 OFFSET 5"
  = [1%N; 2%N].
Proof.
  refine (build_placeholders (VStr "b") example_calls example_builder
            (Output.mk _ [VNum (Finite false 1 0); VStr "name"]) _ _ _ eq_refl eq_refl).
  - reflexivity.
  - repeat constructor.
Defined.

(** With [interpret] among the calls the numbering can go against the
    order of the query: [where('a', 'eq', 2)] then [interpret({one: 1})]. *)
Lemma placeholders_after_interpret :
  exists r,
    fst ((where_ (VStr "a") (VStr "eq") (VNum (Finite false 2 0)) ;;;
          interpret (VObj [("one", VNum (Finite false 1 0))]))
           (new_QueryBuilder VUndefined)) = Return r
    /\ Output.query r = "SELECT * WHERE a = $2 WHERE one = $1"
    /\ Output.values r = [VNum (Finite false 1 0); VNum (Finite false 2 0)]
    /\ placeholders (Output.query r) = [2%N; 1%N].
Proof. eexists. repeat split. Qed.


(** ** [interpret]: comparisons at the root of a query *)










(** ** [interpret]: the projection *)

(** C3 (the claim as stated fails): on a builder bound to bucket [b],
    [interpret({one: 1})] does not return the query
    [SELECT * FROM `b` WHERE one = $1]. *)
Lemma interpret_bare_star_counterexample :
  fst (interpret (VObj [("one", VNum (Finite false 1 0))]) (new_QueryBuilder (VStr "b")))
  <> Return (Output.mk "SELECT * FROM `b` WHERE one = $1" [VNum (Finite false 1 0)]).
Proof. vm_compute. discriminate. Qed.

(** C3 (amended): on a fresh builder bound to a bucket [b],
    [interpret({one: 1})] returns the query
    [SELECT `b`.* FROM `b` WHERE one = $1] with the values [[1]]: with no
    [$select] the projection is the star qualified with the bucket. *)
Theorem interpret_one_field (b : string) :
  b <> EmptyString ->
  fst (interpret (VObj [("one", VNum (Finite false 1 0))]) (new_QueryBuilder (VStr b)))
  = Return (Output.mk ("SELECT `" ++ b ++ "`.* FROM `" ++ b ++ "` WHERE one = $1")
                      [VNum (Finite false 1 0)]).
Proof.
  intros Hb. destruct b as [|a b]; [congruence|].
  cbv -[append]. f_equal. f_equal. same_string.
Qed.

Lemma interpret_one_field_witness :
  fst (interpret (VObj [("one", VNum (Finite false 1 0))]) (new_QueryBuilder (VStr "b")))
  = Return (Output.mk "SELECT `b`.* FROM `b` WHERE one = $1" [VNum (Finite false 1 0)]).
Proof. apply (interpret_one_field "b"). discriminate. Defined.

Lemma adds_no_from_ret {A} (a : A) : adds_no_from (ret a).
Proof.
  intros this. split; [reflexivity|]. exists []. rewrite List.app_nil_r.
  split; [reflexivity | constructor].
Qed.

Lemma adds_no_from_throw {A} e : adds_no_from (@throw A e).
Proof.
  intros this. split; [reflexivity|]. exists []. rewrite List.app_nil_r.
  split; [reflexivity | constructor].
Qed.

Lemma adds_no_from_lift {A} (c : completion A) : adds_no_from (lift c).
Proof.
  intros this. split; [reflexivity|]. exists []. rewrite List.app_nil_r.
  split; [reflexivity | constructor].
Qed.

Lemma adds_no_from_bind {A B} (m : M A) (k : A -> M B) :
  adds_no_from m -> (forall a, adds_no_from (k a)) -> adds_no_from (bind m k).
Proof.
  intros Hm Hk this. destruct (Hm this) as (B1 & added1 & Q1 & F1). unfold bind.
  destruct (m this) as [[a|e] this1]; simpl in *.
  - destruct (Hk a this1) as (B2 & added2 & Q2 & F2). split; [congruence|].
    exists (added1 ++ added2)%list. rewrite Q2, Q1, List.app_assoc.
    split; [reflexivity | apply Forall_app; split; assumption].
  - split; [exact B1|]. exists added1. split; assumption.
Qed.

Lemma adds_no_from_parameterValue v : adds_no_from (_parameterValue v).
Proof.
  intros this. split; [reflexivity|]. exists []. simpl. rewrite List.app_nil_r.
  split; [reflexivity | constructor].
Qed.

Lemma adds_no_from_add type params :
  has_type ["from"] {| type := type; params := params |} = false ->
  adds_no_from (_add type params).
Proof.
  intros H this. split; [reflexivity|]. eexists. split; [reflexivity|].
  constructor; [exact H | constructor].
Qed.

Lemma adds_no_from_mapM {A B} (f : A -> M B) l :
  (forall x, adds_no_from (f x)) -> adds_no_from (mapM f l).
Proof.
  intros Hf. induction l as [|x l IH]; simpl; [apply adds_no_from_ret|].
  apply adds_no_from_bind; [apply Hf | intros y].
  apply adds_no_from_bind; [exact IH | intros ys; apply adds_no_from_ret].
Qed.

Lemma adds_no_from_forEach {A} (f : A -> M unit) l :
  (forall x, adds_no_from (f x)) -> adds_no_from (forEach f l).
Proof.
  intros Hf. induction l as [|x l IH]; simpl; [apply adds_no_from_ret|].
  apply adds_no_from_bind; [apply Hf | intros _; exact IH].
Qed.

Lemma adds_no_from_stringify part : adds_no_from (stringify part).
Proof.
  destruct part; simpl;
    repeat first [ apply adds_no_from_ret | apply adds_no_from_parameterValue
                 | apply adds_no_from_bind; [|intro]
                 | match goal with |- adds_no_from (if ?c then _ else _) => destruct c end ].
Qed.

Lemma adds_no_from_part_statements : forall part, adds_no_from (part_statements part).
Proof.
  fix IH 1. intros [t v|t f v|t children|items]; cbn [part_statements].
  - apply adds_no_from_bind; [apply adds_no_from_stringify|].
    intros s. apply adds_no_from_ret.
  - apply adds_no_from_bind; [apply adds_no_from_stringify|].
    intros s. apply adds_no_from_ret.
  - apply adds_no_from_bind; [|intros s; apply adds_no_from_ret].
    induction children as [|p children IHc]; cbn [flatMapM].
    + apply adds_no_from_ret.
    + apply adds_no_from_bind; [apply IH | intros here].
      apply adds_no_from_bind; [exact IHc | intros there; apply adds_no_from_ret].
  - apply adds_no_from_mapM. intros p. apply adds_no_from_stringify.
Qed.

Lemma adds_no_from_buildWhere sub comparator : adds_no_from (_buildWhere sub comparator).
Proof.
  unfold _buildWhere. apply adds_no_from_bind; [|intros s; apply adds_no_from_ret].
  induction sub as [|p sub IH]; cbn [flatMapM].
  - apply adds_no_from_ret.
  - apply adds_no_from_bind; [apply adds_no_from_part_statements | intros here].
    apply adds_no_from_bind; [exact IH | intros there; apply adds_no_from_ret].
Qed.

Lemma adds_no_from_sort fields order : adds_no_from (sort fields order).
Proof.
  unfold sort. destruct (is_nullish fields); [apply adds_no_from_throw|].
  destruct (match order with VUndefined => VStr "ASC" | _ => order end);
    try apply adds_no_from_throw.
  destruct (negb _); [apply adds_no_from_throw | apply adds_no_from_add; reflexivity].
Qed.

Lemma adds_no_from_replay node : adds_no_from (replay node).
Proof.
  destruct node as [t v|t f v|t children|items]; cbn [replay].
  - destruct t.
    + apply adds_no_from_bind; [apply adds_no_from_lift | intros selected].
      apply adds_no_from_add. reflexivity.
    + apply adds_no_from_ret.
    + unfold limit. destruct (is_nullish v);
        [apply adds_no_from_throw | apply adds_no_from_add; reflexivity].
    + unfold skip. destruct (is_nullish v);
        [apply adds_no_from_throw | apply adds_no_from_add; reflexivity].
    + apply adds_no_from_bind; [apply adds_no_from_lift | intros entries].
      apply adds_no_from_forEach. intros entry.
      apply adds_no_from_bind; [apply adds_no_from_lift | intros o].
      apply adds_no_from_sort.
  - apply adds_no_from_throw.
  - destruct t; [|apply adds_no_from_ret].
    apply adds_no_from_bind; [apply adds_no_from_buildWhere | intros text].
    apply adds_no_from_add. reflexivity.
  - apply adds_no_from_throw.
Qed.

Lemma prefix_select_star columns rest :
  columns = EmptyString \/ (exists r, columns = String "`" r) ->
  String.prefix "SELECT *" (String.concat " " (("SELECT " ++ columns)%string :: rest))
  = false.
Proof.
  intros [->|[r ->]]; destruct rest; reflexivity.
Qed.

(** Whatever nodes the interpreter returns, on a fresh builder bound to a
    bucket the query [interpret] returns does not start with a bare
    star: every column is qualified. *)
Lemma interpret_nodes_qualified b nodes r this' :
  interpret_nodes nodes (new_QueryBuilder (VStr b)) = (Return r, this') ->
  String.prefix "SELECT *" (Output.query r) = false.
Proof.
  unfold interpret_nodes. intros H. bind_inv H as u this1 Hrun.
  destruct (adds_no_from_forEach replay nodes adds_no_from_replay
              (new_QueryBuilder (VStr b))) as (Hb & added & Hq & Hadded).
  rewrite Hrun in Hb, Hq. cbn [snd new_QueryBuilder bucket query app] in Hb, Hq.
  rewrite build_run in H.
  destruct (collect_all (initial (bucket this1)) (query this1)) as [s|e] eqn:Hc;
    [|discriminate].
  apply collect_all_spec in Hc. destruct Hc as (_ & Hfrom & _).
  cbn [initial S_from] in Hfrom.
  destruct (last_clause ["from"] (query this1)) as [c|] eqn:E.
  { apply last_clause_In in E as [Hin Ht]. rewrite Hq in Hin.
    rewrite Forall_forall in Hadded. rewrite (Hadded c Hin) in Ht. discriminate. }
  apply render_inv in H.
  destruct H as (q_select & statements & groups & this2 & Hsel & _ & _ & _ & ->).
  rewrite Hfrom, Hb in Hsel. unfold _select in Hsel.
  destruct (if is_nullish (S_select s) then VArr [VStr "*"] else S_select s)
    as [| | | | |items|]; try discriminate.
  injection Hsel as <-. cbn [is_nullish negb app].
  apply prefix_select_star. destruct items as [|x items]; [left; reflexivity|].
  right. unfold join. cbn [map join_item is_nullish ToString].
  destruct items; cbn [map String.concat]; rewrite ?append_assoc; eexists; reflexivity.
Qed.

(* ===================================================================== *)
(** * Further properties of the builder *)
(* ===================================================================== *)

(** ** Calls and the instance *)

(** X1: a call of [select], [from], [limit], [skip], [sort], [where] or
    [rawWhere] never touches the bucket or the values; when it returns it
    has added exactly one entry at the end of the log, and when it throws
    the instance is as it was. *)
Theorem call_effect c this :
  bucket (snd (invoke c this)) = bucket this
  /\ _values (snd (invoke c this)) = _values this
  /\ match fst (invoke c this) with
     | Return _ => exists e, query (snd (invoke c this)) = (query this ++ [e])%list
     | Throw _ => snd (invoke c this) = this
     end.
Proof.
  assert (G : forall type params,
             bucket (snd (_add type params this)) = bucket this
             /\ _values (snd (_add type params this)) = _values this
             /\ match fst (_add type params this) with
                | Return _ =>
                    exists e, query (snd (_add type params this)) = (query this ++ [e])%list
                | Throw _ => snd (_add type params this) = this
                end).
  { intros type params. repeat split. eexists. reflexivity. }
  assert (T : forall e : error,
             bucket (snd (@throw unit e this)) = bucket this
             /\ _values (snd (@throw unit e this)) = _values this
             /\ match fst (@throw unit e this) with
                | Return _ =>
                    exists x, query (snd (@throw unit e this)) = (query this ++ [x])%list
                | Throw _ => snd (@throw unit e this) = this
                end).
  { intros e. repeat split. }
  destruct c as [selected|name|amount|amount|fields order|field operation value|value];
    cbn [invoke]; try apply G.
  - unfold limit. destruct (is_nullish amount); [apply T | apply G].
  - unfold skip. destruct (is_nullish amount); [apply T | apply G].
  - unfold sort. destruct (is_nullish fields); [apply T|].
    destruct (match order with VUndefined => VStr "ASC" | _ => order end);
      try apply T.
    destruct (negb _); [apply T | apply G].
Qed.

(** ** What [build] does to the instance *)

(** X2: whether it returns or throws, [build] leaves the bucket and the
    log as they are and only adds values at the end of the values of the
    instance; the values it returns are those of the instance after it. *)
Theorem build_effect this :
  bucket (snd (build this)) = bucket this
  /\ query (snd (build this)) = query this
  /\ exists bound,
      _values (snd (build this)) = (_values this ++ bound)%list
      /\ forall r, fst (build this) = Return r ->
                   Output.values r = (_values this ++ bound)%list.
Proof.
  destruct (similar_build this this eq_refl eq_refl) as (_ & B & _ & Q & _ & bound & V & _).
  split; [exact B|]. split; [exact Q|]. exists bound. split; [exact V|].
  intros r Hr. destruct (build this) as [c this'] eqn:E. simpl in *. subst c.
  apply build_values in E. congruence.
Qed.

(** ** The values of a build *)

Lemma where_statement_values c this :
  _values (snd (where_statement c this)) = (_values this ++ bound_by_where c)%list.
Proof.
  unfold where_statement, bound_by_where, bind, lift, destructure.
  destruct (is_nullish (params c)) eqn:Hp.
  - destruct (params c); try discriminate; simpl; rewrite List.app_nil_r; reflexivity.
  - cbn [fst snd]. destruct (is_nullish (get (params c) "value")).
    + cbn. destruct (operation_symbol (type c)); cbn; rewrite List.app_nil_r; reflexivity.
    + cbn. destruct (operation_symbol (type c)); reflexivity.
Qed.

Lemma mapM_values {A B} (f : A -> M B) (g : A -> list value) :
  (forall x this, _values (snd (f x this)) = (_values this ++ g x)%list) ->
  forall l this ys this',
    mapM f l this = (Return ys, this') ->
    _values this' = (_values this ++ flat_map g l)%list.
Proof.
  intros Hf. induction l as [|x l IH]; simpl; intros this ys this' H.
  - apply ret_inv in H as [_ ->]. rewrite List.app_nil_r. reflexivity.
  - bind_inv H as y t Hy. bind_inv H as ys' t' Hys. apply ret_inv in H as [_ ->].
    rewrite (IH _ _ _ Hys). pose proof (Hf x this) as Hx. rewrite Hy in Hx.
    simpl in Hx. rewrite Hx, List.app_assoc. reflexivity.
Qed.

Lemma flat_map_singleton {A} (l : list A) : flat_map (fun x => [x]) l = l.
Proof. induction l as [|x l IH]; simpl; [reflexivity | now rewrite IH]. Qed.

Lemma sort_statement_values g this s this' :
  sort_statement g this = (Return s, this') ->
  _values this' = (_values this ++ bound_by_sort g)%list.
Proof.
  unfold sort_statement, bound_by_sort. intros H. bind_inv H as o t Ho.
  unfold destructure in Ho. destruct (is_nullish g); [discriminate|].
  apply lift_inv in Ho as [[= <-] ->].
  destruct (get g "fields") as [| | | | |items|]; try discriminate.
  bind_inv H as parts t' Hparts. apply ret_inv in H as [_ ->].
  rewrite <- (flat_map_singleton items).
  eapply mapM_values; [|exact Hparts]. intros field t1. reflexivity.
Qed.

Lemma mapM_values_returned {A B} (f : A -> M B) (g : A -> list value) :
  (forall x this y this',
      f x this = (Return y, this') -> _values this' = (_values this ++ g x)%list) ->
  forall l this ys this',
    mapM f l this = (Return ys, this') ->
    _values this' = (_values this ++ flat_map g l)%list.
Proof.
  intros Hf. induction l as [|x l IH]; simpl; intros this ys this' H.
  - apply ret_inv in H as [_ ->]. rewrite List.app_nil_r. reflexivity.
  - bind_inv H as y t Hy. bind_inv H as ys' t' Hys. apply ret_inv in H as [_ ->].
    rewrite (IH _ _ _ Hys), (Hf _ _ _ _ Hy), List.app_assoc. reflexivity.
Qed.

Lemma flat_map_map {A B C} (f : A -> B) (g : B -> list C) (l : list A) :
  flat_map g (map f l) = flat_map (fun x => g (f x)) l.
Proof. induction l as [|x l IH]; simpl; [reflexivity | now rewrite IH]. Qed.

Lemma build_bound this r this' :
  build this = (Return r, this') ->
  _values this' = (_values this ++ bound_values (query this))%list.
Proof.
  rewrite build_run.
  destruct (collect_all (initial (bucket this)) (query this)) as [s|e] eqn:Hc;
    [|discriminate].
  apply collect_all_spec in Hc. destruct Hc as (_ & _ & Hwhere & _ & _ & _ & Hsort).
  cbn [initial S_where S_sort app] in Hwhere, Hsort.
  intros H. apply render_inv in H.
  destruct H as (q & statements & groups & this1 & _ & Hst & Hgr & _ & _).
  apply (mapM_values _ bound_by_where where_statement_values) in Hst.
  apply (mapM_values_returned _ bound_by_sort sort_statement_values) in Hgr.
  rewrite Hgr, Hst, Hwhere, Hsort, flat_map_map.
  unfold bound_values. rewrite List.app_assoc. reflexivity.
Qed.

(** X3: the values [build] returns are the values the instance had, then
    the values of the comparison clauses of the log that are not null, in
    the order of the log, then the fields of its sort clauses, in the
    order of the log. *)
Theorem build_returns_bound_values this r this' :
  build this = (Return r, this') ->
  Output.values r = (_values this ++ bound_values (query this))%list.
Proof.
  intros H. rewrite (build_values _ _ _ H). apply (build_bound _ _ _ H).
Qed.

Lemma build_returns_bound_values_witness :
  Output.values (Output.mk
                   "SELECT `b`.* FROM `b` WHERE a = $1 WHERE x = 1 ORDER BY $2 ASC LIMIT 10 OFFSET 5"
                   [VNum (Finite false 1 0); VStr "name"])
  = ([] ++ bound_values (query example_builder))%list.
Proof. exact (build_returns_bound_values example_builder _ _ eq_refl). Defined.

(** X4: a second [build] on the instance a first one left binds the
    values of the log once more: it returns the values of the first
    followed by the same bound values again. *)
Theorem build_again_binds_again this r1 this1 r2 this2 :
  build this = (Return r1, this1) ->
  build this1 = (Return r2, this2) ->
  Output.values r1 = (_values this ++ bound_values (query this))%list
  /\ Output.values r2 = (Output.values r1 ++ bound_values (query this))%list.
Proof.
  intros H1 H2.
  pose proof (similar_build this this eq_refl eq_refl) as (_ & _ & _ & Q & _).
  rewrite H1 in Q. simpl in Q.
  rewrite (build_values _ _ _ H1), (build_values _ _ _ H2).
  rewrite (build_bound _ _ _ H2), (build_bound _ _ _ H1), Q. split; reflexivity.
Qed.

Lemma build_again_binds_again_witness :
  [VNum (Finite false 1 0); VStr "name"]
  = ([] ++ bound_values (query example_builder))%list
  /\ [VNum (Finite false 1 0); VStr "name"; VNum (Finite false 1 0); VStr "name"]
     = ([VNum (Finite false 1 0); VStr "name"] ++ bound_values (query example_builder))%list.
Proof.
  exact (build_again_binds_again example_builder
           (Output.mk _ [VNum (Finite false 1 0); VStr "name"]) _
           (Output.mk _ [VNum (Finite false 1 0); VStr "name";
                         VNum (Finite false 1 0); VStr "name"]) _ eq_refl eq_refl).
Defined.

(** ** When [build] returns *)

Lemma collect_outcome s c :
  match collect s c with
  | Return _ => negb (has_type ["limit"; "skip"] c) || isNumeric (params c) = true
  | Throw e =>
      negb (has_type ["limit"; "skip"] c) || isNumeric (params c) = false
      /\ (e = QueryError "Limit parameter must be numeric"
          \/ e = QueryError "Skip parameter must be numeric")
  end.
Proof.
  unfold collect, has_type, one_of.
  destruct (type c) as [| | | |t| |]; try reflexivity.
  cbn [existsb]. switch_on t; cbn [orb negb]; try reflexivity;
    destruct (isNumeric (params c)); cbn; auto.
Qed.

Lemma collect_all_outcome log : forall s,
  match collect_all s log with
  | Return _ => numeric_amounts log = true
  | Throw e =>
      numeric_amounts log = false
      /\ (e = QueryError "Limit parameter must be numeric"
          \/ e = QueryError "Skip parameter must be numeric")
  end.
Proof.
  induction log as [|c log IH]; intros s; cbn [collect_all numeric_amounts forallb];
    [reflexivity|].
  pose proof (collect_outcome s c) as Hc. destruct (collect s c) as [s'|e].
  - rewrite Hc. apply IH.
  - destruct Hc as [-> He]. split; [reflexivity | exact He].
Qed.

Lemma mapM_outcome {A B} (f : A -> M B) (ok : A -> bool) :
  (forall x this,
      match fst (f x this) with Return _ => ok x = true | Throw _ => ok x = false end) ->
  forall l this,
    match fst (mapM f l this) with
    | Return _ => forallb ok l = true
    | Throw _ => forallb ok l = false
    end.
Proof.
  intros Hf. induction l as [|x l IH]; intros this; [reflexivity|].
  cbn [mapM forallb]. unfold bind. pose proof (Hf x this) as Hx.
  destruct (f x this) as [[y|e] t]; cbn [fst] in Hx |- *; rewrite Hx; [|reflexivity].
  pose proof (IH t) as Hl. destruct (mapM f l t) as [[ys|e] t']; exact Hl.
Qed.

Lemma where_statement_outcome c this :
  match fst (where_statement c this) with
  | Return _ => comparison_ok c = true
  | Throw _ => comparison_ok c = false
  end.
Proof.
  unfold where_statement, comparison_ok, bind, lift, destructure.
  destruct (is_nullish (params c)); [reflexivity|]. cbn [fst snd negb andb].
  destruct (is_nullish (get (params c) "value")); cbn;
    destruct (operation_symbol (type c)); reflexivity.
Qed.

Lemma sort_statement_outcome g this :
  match fst (sort_statement g this) with
  | Return _ => sort_ok g = true
  | Throw _ => sort_ok g = false
  end.
Proof.
  unfold sort_statement, sort_ok, bind, lift, destructure.
  destruct (is_nullish g); [reflexivity|]. cbn [fst snd negb andb].
  destruct (get g "fields") as [| | | | |items|]; try reflexivity.
  pose proof (mapM_outcome
                (fun field => p <- _parameterValue field ;;
                              ret (join " " [VStr p; get g "order"]))
                (fun _ => true) (fun x t => eq_refl) items this) as H.
  destruct (mapM _ items this) as [[parts|e] t]; cbn [fst] in H |- *; [reflexivity|].
  assert (F : forallb (fun _ : value => true) items = true)
    by (clear; induction items; simpl; auto).
  congruence.
Qed.

Lemma select_outcome components b :
  match _select components b with
  | Return _ => is_nullish components || is_array components = true
  | Throw _ => is_nullish components || is_array components = false
  end.
Proof. unfold _select. destruct components; reflexivity. Qed.

Lemma render_outcome s this :
  match fst (render s this) with
  | Return _ =>
      (is_nullish (S_select s) || is_array (S_select s))
      && forallb comparison_ok (S_where s) && forallb sort_ok (S_sort s) = true
  | Throw _ =>
      (is_nullish (S_select s) || is_array (S_select s))
      && forallb comparison_ok (S_where s) && forallb sort_ok (S_sort s) = false
  end.
Proof.
  unfold render, bind, lift, this_bucket.
  pose proof (select_outcome (S_select s) (S_from s)) as Hsel.
  destruct (_select (S_select s) (S_from s)) as [q|e]; rewrite Hsel; [|reflexivity].
  cbn [fst snd andb].
  assert (Hfrom : when (ToBoolean (bucket this)) (ret (_from (S_from s))) this
                  = (Return (if ToBoolean (bucket this) then [_from (S_from s)] else []),
                     this)).
  { unfold when. destruct (ToBoolean (bucket this)); reflexivity. }
  rewrite Hfrom.
  assert (Hwhere : match when (nonempty (S_where s)) (_where (S_where s) "AND") this with
                   | (Return _, _) => forallb comparison_ok (S_where s) = true
                   | (Throw _, _) => forallb comparison_ok (S_where s) = false
                   end).
  { unfold when, _where, bind, ret.
    pose proof (mapM_outcome where_statement comparison_ok where_statement_outcome
                  (S_where s) this) as H.
    destruct (S_where s) as [|c l]; [reflexivity|]. cbn [nonempty].
    destruct (mapM where_statement (c :: l) this) as [[sts|e] t]; exact H. }
  destruct (when (nonempty (S_where s)) _ this) as [[w|e] t1]; rewrite Hwhere;
    [|reflexivity].
  cbn [ret fst snd andb].
  assert (Hsort : match when (nonempty (S_sort s)) (_sort (S_sort s)) t1 with
                  | (Return _, _) => forallb sort_ok (S_sort s) = true
                  | (Throw _, _) => forallb sort_ok (S_sort s) = false
                  end).
  { unfold when, _sort, bind, ret.
    pose proof (mapM_outcome sort_statement sort_ok sort_statement_outcome
                  (S_sort s) t1) as H.
    destruct (S_sort s) as [|c l]; [reflexivity|]. cbn [nonempty].
    destruct (mapM sort_statement (c :: l) t1) as [[sts|e] t]; exact H. }
  destruct (when (nonempty (S_sort s)) _ t1) as [[o|e] t2]; rewrite Hsort; reflexivity.
Qed.

Lemma forallb_filter {A} (p ok : A -> bool) (l : list A) :
  forallb ok (filter p l) = forallb (fun x => negb (p x) || ok x) l.
Proof.
  induction l as [|x l IH]; simpl; [reflexivity|].
  destruct (p x); simpl; rewrite IH; reflexivity.
Qed.

Lemma forallb_map {A B} (f : A -> B) (ok : B -> bool) (l : list A) :
  forallb ok (map f l) = forallb (fun x => ok (f x)) l.
Proof. induction l as [|x l IH]; simpl; [reflexivity | now rewrite IH]. Qed.

Lemma build_outcome this :
  match fst (build this) with
  | Return _ => buildable (query this) = true
  | Throw _ => buildable (query this) = false
  end.
Proof.
  rewrite build_run. unfold buildable.
  pose proof (collect_all_outcome (query this) (initial (bucket this))) as Hc.
  destruct (collect_all (initial (bucket this)) (query this)) as [s|e] eqn:E.
  - rewrite Hc. apply collect_all_spec in E.
    destruct E as (Hselect & _ & Hwhere & _ & _ & _ & Hsort).
    cbn [initial S_select S_where S_sort app] in Hselect, Hwhere, Hsort.
    pose proof (render_outcome s this) as Hr.
    rewrite Hwhere, Hsort, forallb_map, Hselect in Hr.
    unfold projection_ok. cbn [andb].
    destruct (last_clause ["select"] (query this)); exact Hr.
  - destruct Hc as [-> _]. reflexivity.
Qed.

Lemma build_returns_iff_aux this :
  buildable (query this) = true -> exists r this', build this = (Return r, this').
Proof.
  intros Hb. pose proof (build_outcome this) as H.
  destruct (build this) as [[r|e] this']; cbn [fst] in H.
  - exists r, this'. reflexivity.
  - congruence.
Qed.

(** X5: on an instance that holds no object with an own property
    [toString] and no character above 127, [build] returns exactly on the
    logs in which every limit and skip amount is numeric, the last select
    clause holds an array, every comparison clause has an operator
    [_where] has a case for, and the fields of every sort clause are an
    array; on any other log it throws. *)
Theorem build_returns_iff this :
  plain_instance this = true ->
  (exists r this', build this = (Return r, this')) <-> buildable (query this) = true.
Proof.
  intros _. pose proof (build_outcome this) as H. split.
  - intros (r & this' & E). rewrite E in H. exact H.
  - apply build_returns_iff_aux.
Qed.

Lemma build_returns_iff_witness :
  (exists r this', build example_builder = (Return r, this'))
  <-> buildable (query example_builder) = true.
Proof. apply build_returns_iff. reflexivity. Defined.

(** X6: on an instance that holds no object with an own property
    [toString] and no character above 127, a limit or skip clause whose
    amount is not numeric makes [build] throw the builder's own error,
    whatever else the log holds (a later valid limit included), before
    anything is bound: the instance is as it was. *)
Theorem build_amount_not_numeric this :
  plain_instance this = true ->
  numeric_amounts (query this) = false ->
  exists message,
    build this = (Throw (QueryError message), this)
    /\ (message = "Limit parameter must be numeric"
        \/ message = "Skip parameter must be numeric").
Proof.
  intros _ H. rewrite build_run.
  pose proof (collect_all_outcome (query this) (initial (bucket this))) as Hc.
  destruct (collect_all (initial (bucket this)) (query this)) as [s|e]; [congruence|].
  destruct Hc as [_ [->| ->]]; eexists; split; eauto.
Qed.

Lemma build_amount_not_numeric_witness :
  exists message,
    build (snd (invoke_all [call_limit (VStr "abc"); call_limit (VStr "5")]
                  (new_QueryBuilder VUndefined)))
    = (Throw (QueryError message),
       snd (invoke_all [call_limit (VStr "abc"); call_limit (VStr "5")]
              (new_QueryBuilder VUndefined)))
    /\ (message = "Limit parameter must be numeric"
        \/ message = "Skip parameter must be numeric").
Proof. apply build_amount_not_numeric; reflexivity. Defined.

Lemma last_clause_snoc names log e :
  last_clause names (log ++ [e])
  = if has_type names e then Some e else last_clause names log.
Proof.
  induction log as [|c log IH]; simpl; [destruct (has_type names e); reflexivity|].
  rewrite IH. destruct (has_type names e); reflexivity.
Qed.

Lemma buildable_snoc log e :
  buildable log = true ->
  negb (has_type ["limit"; "skip"] e) || isNumeric (params e) = true ->
  (has_type ["select"] e = true -> is_nullish (params e) || is_array (params e) = true) ->
  (has_type comparison_types e = true -> comparison_ok e = true) ->
  (has_type ["sort"] e = true -> sort_ok (params e) = true) ->
  buildable (log ++ [e]) = true.
Proof.
  unfold buildable, numeric_amounts, projection_ok.
  intros H Hn Hs Hc Ho.
  apply andb_true_iff in H as [H H4]. apply andb_true_iff in H as [H H3].
  apply andb_true_iff in H as [H1 H2].
  rewrite !filter_app, !forallb_app, last_clause_snoc, H1, H3, H4. cbn [forallb filter].
  rewrite Hn. cbn [andb].
  apply andb_true_iff. split; [apply andb_true_iff; split|].
  - destruct (has_type ["select"] e); [apply Hs; reflexivity | exact H2].
  - destruct (has_type comparison_types e); [|reflexivity].
    cbn [forallb]. rewrite Hc; reflexivity.
  - destruct (has_type ["sort"] e); [|reflexivity].
    cbn [forallb]. rewrite Ho; reflexivity.
Qed.

Lemma isNumeric_not_nullish amount : isNumeric amount = true -> is_nullish amount = false.
Proof. destruct amount; try reflexivity; discriminate. Qed.

Lemma recognized_comparison t :
  one_of t recognized_operators = true ->
  has_type ["limit"; "skip"] {| type := VStr t; params := VNull |} = false
  /\ has_type ["select"] {| type := VStr t; params := VNull |} = false
  /\ has_type ["sort"] {| type := VStr t; params := VNull |} = false
  /\ exists symbol, operation_symbol (VStr t) = Some symbol.
Proof.
  unfold has_type, recognized_operators, one_of, operation_symbol. cbn [type existsb].
  switch_on t; cbn [orb]; try discriminate; intros _; repeat split; eexists; reflexivity.
Qed.

Lemma invoke_well_formed c this :
  well_formed c = true -> buildable (query this) = true ->
  exists this', invoke c this = (Return tt, this') /\ buildable (query this') = true.
Proof.
  intros Hc Hb.
  destruct c as [selected|name|amount|amount|fields order|field operation value|value];
    cbn [invoke well_formed] in Hc |- *.
  - eexists. split; [reflexivity|]. apply buildable_snoc; try exact Hb; reflexivity
      || (intros H; discriminate H).
  - eexists. split; [reflexivity|]. apply buildable_snoc; try exact Hb; reflexivity
      || (intros H; discriminate H).
  - unfold limit. rewrite (isNumeric_not_nullish _ Hc).
    eexists. split; [reflexivity|].
    apply buildable_snoc; try exact Hb; try (intros H; discriminate H). exact Hc.
  - unfold skip. rewrite (isNumeric_not_nullish _ Hc).
    eexists. split; [reflexivity|].
    apply buildable_snoc; try exact Hb; try (intros H; discriminate H). exact Hc.
  - apply andb_true_iff in Hc as [Hf Ho]. unfold sort.
    assert (Hn : is_nullish fields = false) by (destruct fields; try reflexivity; discriminate).
    rewrite Hn.
    assert (E : exists o,
               (match order with VUndefined => VStr "ASC" | _ => order end) = VStr o
               /\ one_of (toUpperCase o) ["ASC"; "DESC"] = true).
    { destruct order; try discriminate; eexists; split; try reflexivity; exact Ho. }
    destruct E as (o & -> & Hu). rewrite Hu. cbn [negb].
    eexists. split; [reflexivity|].
    apply buildable_snoc; try exact Hb; try reflexivity; try (intros H; discriminate H).
    intros _. destruct fields; try discriminate; reflexivity.
  - destruct operation as [| | | |t| |]; try discriminate.
    destruct (recognized_comparison t Hc) as (H1 & H2 & H3 & symbol & H4).
    eexists. split; [reflexivity|].
    apply buildable_snoc; try exact Hb.
    + unfold has_type in *. cbn [type] in *. rewrite H1. reflexivity.
    + unfold has_type in *. cbn [type] in *. rewrite H2. discriminate.
    + intros _. unfold comparison_ok. cbn [type params]. rewrite H4. reflexivity.
    + unfold has_type in *. cbn [type] in *. rewrite H3. discriminate.
  - eexists. split; [reflexivity|]. apply buildable_snoc; try exact Hb; reflexivity
      || (intros H; discriminate H).
Qed.

(** X7: calls with the arguments the methods are written for never fail:
    on a fresh builder a sequence of such calls returns, and [build]
    returns on the instance they leave, when the bucket and the arguments
    hold no object with an own property [toString] and no character above
    127. *)
Theorem well_formed_calls_build bucket calls :
  plain bucket = true ->
  forallb plain_call calls = true ->
  forallb well_formed calls = true ->
  exists this r this',
    invoke_all calls (new_QueryBuilder bucket) = (Return tt, this)
    /\ build this = (Return r, this').
Proof.
  intros _ _ H.
  assert (G : forall this0,
             buildable (query this0) = true ->
             exists this, invoke_all calls this0 = (Return tt, this)
                          /\ buildable (query this) = true).
  { unfold invoke_all. induction calls as [|c calls IH]; intros this0 Hb.
    - exists this0. split; [reflexivity | exact Hb].
    - cbn [forallb] in H. apply andb_true_iff in H as [Hc Hl].
      destruct (invoke_well_formed c this0 Hc Hb) as (t & Ht & Hbt).
      destruct (IH Hl t Hbt) as (this & Hrun & Hbuild).
      exists this. split; [|exact Hbuild].
      cbn [forEach]. unfold bind. rewrite Ht. exact Hrun. }
  destruct (G (new_QueryBuilder bucket) eq_refl) as (this & Hrun & Hb).
  apply build_returns_iff_aux in Hb. destruct Hb as (r & this' & Hbuild).
  exists this, r, this'. split; assumption.
Qed.

Lemma well_formed_calls_build_witness :
  exists this r this',
    invoke_all example_calls (new_QueryBuilder (VStr "b")) = (Return tt, this)
    /\ build this = (Return r, this').
Proof. apply well_formed_calls_build; reflexivity. Defined.

(** ** The [or] operator *)

Lemma invoke_extends c this :
  exists added, query (snd (invoke c this)) = (query this ++ added)%list.
Proof.
  assert (G : forall type params,
             exists added, query (snd (_add type params this)) = (query this ++ added)%list).
  { intros type params. eexists. reflexivity. }
  assert (T : forall e : error,
             exists added, query (snd (@throw unit e this)) = (query this ++ added)%list).
  { intros e. exists []. symmetry. apply List.app_nil_r. }
  destruct c as [selected|name|amount|amount|fields order|field operation value|value];
    cbn [invoke]; try apply G.
  - unfold limit. destruct (is_nullish amount); [apply T | apply G].
  - unfold skip. destruct (is_nullish amount); [apply T | apply G].
  - unfold sort. destruct (is_nullish fields); [apply T|].
    destruct (match order with VUndefined => VStr "ASC" | _ => order end);
      try apply T.
    destruct (negb _); [apply T | apply G].
Qed.

Lemma invoke_all_extends calls : forall this,
  exists added, query (snd (invoke_all calls this)) = (query this ++ added)%list.
Proof.
  unfold invoke_all. induction calls as [|c calls IH]; intros this.
  - exists []. symmetry. apply List.app_nil_r.
  - cbn [forEach]. unfold bind.
    destruct (invoke_extends c this) as [a1 H1].
    destruct (invoke c this) as [[u|e] this1]; cbn [snd] in *.
    + destruct (IH this1) as [a2 H2]. exists (a1 ++ a2)%list.
      rewrite H2, H1. symmetry. apply List.app_assoc.
    + exists a1. exact H1.
Qed.

Lemma forEach_app_inv {A} (f : A -> M unit) l1 l2 this this' :
  forEach f (l1 ++ l2)%list this = (Return tt, this') ->
  exists this1,
    forEach f l1 this = (Return tt, this1) /\ forEach f l2 this1 = (Return tt, this').
Proof.
  revert this. induction l1 as [|x l1 IH]; intros this H.
  - exists this. split; [reflexivity | exact H].
  - cbn [app forEach] in H |- *. bind_inv H as u this0 H0.
    destruct (IH _ H) as (this1 & H1 & H2). exists this1.
    split; [|exact H2]. unfold bind. rewrite H0. exact H1.
Qed.

Lemma buildable_comparisons log c :
  In c log -> has_type comparison_types c = true -> comparison_ok c = false ->
  buildable log = false.
Proof.
  intros Hin Ht Hc. unfold buildable.
  assert (H : forallb comparison_ok (filter (has_type comparison_types) log) = false).
  { apply not_true_is_false. intros H. rewrite forallb_forall in H.
    rewrite (H c) in Hc; [discriminate|]. apply filter_In. split; assumption. }
  rewrite H. rewrite andb_false_r. reflexivity.
Qed.

(** X8: [where] records the operator [or], the loop of [build] has a case
    for it and [_where] has none: once a call of [where] with the operator
    [or] has returned, no [build] on the instance returns, whatever calls
    come before or after. *)
Theorem or_clause_never_builds before field value after this this' :
  invoke_all (before ++ call_where field (VStr "or") value :: after)%list this
  = (Return tt, this') ->
  exists e, fst (build this') = Throw e.
Proof.
  intros H. unfold invoke_all in H. apply forEach_app_inv in H.
  destruct H as (this1 & _ & H). cbn [forEach] in H. bind_inv H as u this2 H2.
  cbn [invoke] in H2. unfold where_, _add in H2. injection H2 as _ <-.
  pose proof (invoke_all_extends after
                {| bucket := bucket this1;
                   query := (query this1
                               ++ [{| type := VStr "or";
                                      params := VObj [("field", field); ("value", value)] |}])%list;
                   _values := _values this1 |}) as [added Hq].
  unfold invoke_all in Hq. rewrite H in Hq. cbn [snd query] in Hq.
  pose proof (build_outcome this') as Hb.
  destruct (fst (build this')) as [r|e]; [|exists e; reflexivity].
  rewrite (buildable_comparisons (query this')
             {| type := VStr "or";
                params := VObj [("field", field); ("value", value)] |}) in Hb;
    [discriminate | | reflexivity | reflexivity].
  rewrite Hq. apply in_or_app. left. apply in_or_app. right. left. reflexivity.
Qed.

Lemma or_clause_never_builds_witness :
  exists e,
    fst (build (snd (invoke_all [call_limit (VStr "1");
                                 call_where (VStr "a") (VStr "or") VNull;
                                 call_select [VStr "x"]]
                       (new_QueryBuilder (VStr "b")))))
    = Throw e.
Proof.
  apply (or_clause_never_builds [call_limit (VStr "1")] (VStr "a") VNull
           [call_select [VStr "x"]] (new_QueryBuilder (VStr "b"))).
  reflexivity.
Defined.

Lemma mapM_app {A B} (f : A -> M B) (l1 l2 : list A) this :
  mapM f (l1 ++ l2)%list this
  = (ys1 <- mapM f l1 ;; ys2 <- mapM f l2 ;; ret (ys1 ++ ys2)%list) this.
Proof.
  revert this. induction l1 as [|x l1 IH]; intros this.
  - cbn [app mapM]. unfold bind, ret.
    destruct (mapM f l2 this) as [[ys|e] t]; reflexivity.
  - cbn [app mapM]. unfold bind. destruct (f x this) as [[y|e] t]; [|reflexivity].
    specialize (IH t). unfold bind in IH. rewrite IH. unfold ret.
    destruct (mapM f l1 t) as [[ys1|e] t1]; [|reflexivity].
    destruct (mapM f l2 t1) as [[ys2|e] t2]; reflexivity.
Qed.

Lemma mapM_returns {A B} (f : A -> M B) (ok : A -> bool) :
  (forall x this,
      match fst (f x this) with Return _ => ok x = true | Throw _ => ok x = false end) ->
  forall l this,
    forallb ok l = true -> exists ys this', mapM f l this = (Return ys, this').
Proof.
  intros Hf l this Hl. pose proof (mapM_outcome f ok Hf l this) as H.
  destruct (mapM f l this) as [[ys|e] t]; cbn [fst] in H; [|congruence].
  exists ys, t. reflexivity.
Qed.

Lemma buildable_parts log :
  buildable log = true ->
  numeric_amounts log = true
  /\ projection_ok log = true
  /\ forallb comparison_ok (filter (has_type comparison_types) log) = true
  /\ forallb (fun c => sort_ok (params c)) (filter (has_type ["sort"]) log) = true.
Proof.
  unfold buildable. intros H.
  apply andb_true_iff in H as [H H4]. apply andb_true_iff in H as [H H3].
  apply andb_true_iff in H as [H1 H2]. repeat split; assumption.
Qed.

Lemma collect_all_returns log s :
  numeric_amounts log = true -> exists s', collect_all s log = Return s'.
Proof.
  intros Hn. pose proof (collect_all_outcome log s) as H.
  destruct (collect_all s log) as [s'|e]; [exists s'; reflexivity|].
  destruct H as [H _]. congruence.
Qed.

Lemma select_returns components b :
  is_nullish components || is_array components = true ->
  exists q, _select components b = Return q.
Proof.
  intros H. pose proof (select_outcome components b) as Ho.
  destruct (_select components b) as [q|e]; [exists q; reflexivity | congruence].
Qed.

Lemma render_where_throws s this q e t :
  _select (S_select s) (S_from s) = Return q ->
  mapM where_statement (S_where s) this = (Throw e, t) ->
  render s this = (Throw e, t).
Proof.
  intros Hq Hw. unfold render. rewrite Hq.
  unfold bind, lift, this_bucket, when, _where, ret.
  destruct (ToBoolean (bucket this)); unfold bind;
    (destruct (S_where s) as [|c l]; [discriminate Hw|]);
    cbn [nonempty]; rewrite Hw; reflexivity.
Qed.

Lemma where_statement_or field value this :
  where_statement {| type := VStr "or";
                     params := VObj [("field", field); ("value", value)] |} this
  = (Throw (Error "Not implemented"),
     {| bucket := bucket this; query := query this;
        _values := (_values this ++ (if is_nullish value then [] else [value]))%list |}).
Proof.
  unfold where_statement, bind, lift, destructure.
  cbn [params type is_nullish get lookup String.eqb Ascii.eqb Bool.eqb].
  destruct (is_nullish value).
  - unfold ret. cbn. rewrite List.app_nil_r. destruct this; reflexivity.
  - unfold _parameterValue. cbn. reflexivity.
Qed.

(** X9: on an instance that holds no object with an own property
    [toString] and no character above 127, and whose log [build] would
    render, a [where] with the operator [or] makes the [build] after it
    throw [Not implemented], and not before [_where] has bound the values
    of the comparison clauses before it and its own: they stay in the
    values of the instance. *)
Theorem or_clause_not_implemented field value this :
  plain_instance this = true ->
  buildable (query this) = true ->
  exists this',
    (where_ field (VStr "or") value ;;; build) this
    = (Throw (Error "Not implemented"), this')
    /\ _values this'
       = (_values this
            ++ flat_map bound_by_where (filter (has_type comparison_types) (query this))
            ++ (if is_nullish value then [] else [value]))%list.
Proof.
  intros _ Hb. apply buildable_parts in Hb as (Hn & Hp & Hc & _).
  unfold bind at 1, where_, _add. rewrite build_run. cbn [bucket query].
  rewrite collect_all_app.
  destruct (collect_all_returns (query this) (initial (bucket this)) Hn) as [s Hs].
  rewrite Hs. cbn [cbind collect_all collect type String.eqb Ascii.eqb Bool.eqb one_of existsb orb].
  pose proof (collect_all_spec _ _ _ Hs) as (Hsel & _ & Hw & _).
  cbn [initial S_select S_where app] in Hsel, Hw.
  set (this0 := {| bucket := bucket this; query := _; _values := _values this |}).
  destruct (select_returns (S_select s) (S_from s)) as [q Hq].
  { rewrite Hsel. unfold projection_ok in Hp.
    destruct (last_clause ["select"] (query this)); [exact Hp | reflexivity]. }
  destruct (mapM_returns where_statement comparison_ok where_statement_outcome
              (filter (has_type comparison_types) (query this)) this0 Hc)
    as (ys & this1 & Hys).
  pose proof (mapM_values where_statement bound_by_where where_statement_values
                _ _ _ _ Hys) as Hv.
  eexists. split.
  - apply (render_where_throws _ this0 q); [exact Hq|].
    cbn [S_where]. rewrite Hw, mapM_app. unfold bind at 1. rewrite Hys.
    cbn [mapM]. unfold bind. rewrite where_statement_or. reflexivity.
  - cbn [_values]. rewrite Hv. subst this0. cbn [_values].
    rewrite <- List.app_assoc. reflexivity.
Qed.

Lemma or_clause_not_implemented_witness :
  exists this',
    (where_ (VStr "c") (VStr "or") (VBool true) ;;; build) example_builder
    = (Throw (Error "Not implemented"), this')
    /\ _values this'
       = ([] ++ flat_map bound_by_where
                  (filter (has_type comparison_types) (query example_builder))
             ++ [VBool true])%list.
Proof.
  apply (or_clause_not_implemented (VStr "c") (VBool true) example_builder); reflexivity.
Defined.

(** ** Clauses of which the last one counts *)

Lemma has_type_single n c : has_type [n] c = true -> type c = VStr n.
Proof.
  unfold has_type, one_of. destruct (type c) as [| | | |t| |]; try discriminate.
  cbn [existsb]. rewrite orb_false_r. intros H. apply String.eqb_eq in H. congruence.
Qed.

Lemma has_type_other names n c :
  one_of n names = false -> has_type [n] c = true -> has_type names c = false.
Proof.
  intros Hn Hc. apply has_type_single in Hc. unfold has_type. rewrite Hc. exact Hn.
Qed.

Lemma last_clause_only_last_other names n log :
  one_of n names = false ->
  last_clause names (only_last [n] log) = last_clause names log.
Proof.
  intros Hn. induction log as [|c log IH]; simpl; [reflexivity|].
  destruct (has_type [n] c) eqn:Hc; simpl.
  - rewrite (has_type_other names n c Hn Hc).
    destruct (existsb (has_type [n]) log); simpl.
    + rewrite IH. destruct (last_clause names log); reflexivity.
    + rewrite IH, (has_type_other names n c Hn Hc). reflexivity.
  - rewrite IH. reflexivity.
Qed.

Lemma filter_only_last_other names n log :
  one_of n names = false ->
  filter (has_type names) (only_last [n] log) = filter (has_type names) log.
Proof.
  intros Hn. induction log as [|c log IH]; simpl; [reflexivity|].
  destruct (has_type [n] c) eqn:Hc; simpl.
  - rewrite (has_type_other names n c Hn Hc).
    destruct (existsb (has_type [n]) log); simpl.
    + exact IH.
    + rewrite (has_type_other names n c Hn Hc). exact IH.
  - rewrite IH. reflexivity.
Qed.

Lemma numeric_amounts_only_last names log :
  numeric_amounts log = true -> numeric_amounts (only_last names log) = true.
Proof.
  unfold numeric_amounts. induction log as [|c log IH]; simpl; [reflexivity|].
  intros H. apply andb_true_iff in H as [Hc Hl].
  destruct (has_type names c && existsb (has_type names) log); simpl.
  - apply IH, Hl.
  - rewrite Hc. apply IH, Hl.
Qed.

Lemma clauses_eq s1 s2 :
  S_select s1 = S_select s2 -> S_from s1 = S_from s2 -> S_where s1 = S_where s2 ->
  S_rawWhere s1 = S_rawWhere s2 -> S_limit s1 = S_limit s2 -> S_skip s1 = S_skip s2 ->
  S_sort s1 = S_sort s2 -> s1 = s2.
Proof. destruct s1, s2; simpl; intros; subst; reflexivity. Qed.

Lemma collect_all_only_last_of name log s :
  In name ["select"; "from"; "limit"; "skip"] ->
  numeric_amounts log = true ->
  collect_all s (only_last [name] log) = collect_all s log.
Proof.
  intros Hname Hn.
  destruct (collect_all_returns log s Hn) as [s1 H1].
  destruct (collect_all_returns (only_last [name] log) s
              (numeric_amounts_only_last [name] log Hn)) as [s2 H2].
  rewrite H1, H2. f_equal.
  apply collect_all_spec in H1. apply collect_all_spec in H2.
  destruct H1 as (A1 & A2 & A3 & A4 & A5 & A6 & A7).
  destruct H2 as (B1 & B2 & B3 & B4 & B5 & B6 & B7).
  assert (L : forall names,
             names = [name] \/ one_of name names = false ->
             last_clause names (only_last [name] log) = last_clause names log).
  { intros names [->|H]; [apply last_clause_only_last|].
    apply last_clause_only_last_other, H. }
  assert (F : forall names,
             one_of name names = false ->
             filter (has_type names) (only_last [name] log) = filter (has_type names) log).
  { intros names H. apply filter_only_last_other, H. }
  cbn [In] in Hname.
  destruct Hname as [<-|[<-|[<-|[<-|[]]]]];
    (apply clauses_eq;
     [ rewrite A1, B1, L by (first [left; reflexivity | right; reflexivity]); reflexivity
     | rewrite A2, B2, L by (first [left; reflexivity | right; reflexivity]); reflexivity
     | rewrite A3, B3, F by reflexivity; reflexivity
     | rewrite A4, B4, L by (first [left; reflexivity | right; reflexivity]); reflexivity
     | rewrite A5, B5, L by (first [left; reflexivity | right; reflexivity]); reflexivity
     | rewrite A6, B6, L by (first [left; reflexivity | right; reflexivity]); reflexivity
     | rewrite A7, B7, F by reflexivity; reflexivity ]).
Qed.

(** X10: of the clauses [select], [from], [limit] and [skip] only the
    last one of the log counts: on a log whose amounts are all numeric,
    [build] returns (or throws) the same, and binds the same values, as
    on the log without the entries of that type that a later one
    follows. *)
Theorem last_clause_wins name this :
  In name ["select"; "from"; "limit"; "skip"] ->
  numeric_amounts (query this) = true ->
  let this' := {| bucket := bucket this;
                  query := only_last [name] (query this);
                  _values := _values this |} in
  fst (build this) = fst (build this')
  /\ _values (snd (build this)) = _values (snd (build this'))
  /\ (List.length (filter (has_type [name]) (query this')) <= 1)%nat.
Proof.
  intros Hname Hn this'. split; [|split].
  3: apply only_last_at_most_one.
  all: rewrite !build_run; subst this'; cbn [bucket query];
    rewrite (collect_all_only_last_of name _ _ Hname Hn);
    destruct (collect_all (initial (bucket this)) (query this)) as [s|e];
    try reflexivity;
    apply (log_blind_render s); split; reflexivity.
Qed.

Lemma last_clause_wins_witness :
  let this := snd (invoke_all [call_limit (VStr "7"); call_where (VStr "a") (VStr "eq") VNull;
                               call_limit (VStr "10")]
                              (new_QueryBuilder (VStr "b"))) in
  fst (build this)
  = fst (build {| bucket := bucket this;
                  query := only_last ["limit"] (query this);
                  _values := _values this |}).
Proof.
  intros this. refine (proj1 (last_clause_wins "limit" this _ _)).
  - right. right. left. reflexivity.
  - reflexivity.
Defined.

(** ** The projection *)

Lemma concat_columns name items :
  String.concat ","
    (map join_item
       (if negb (is_nullish name)
        then map (fun component =>
                    VStr ("`" ++ ToString name ++ "`." ++ ToString component)) items
        else items))
  = String.concat "," (map (column name) items).
Proof.
  unfold column. destruct (is_nullish name); cbn [negb]; [reflexivity|].
  rewrite map_map. reflexivity.
Qed.

(** X11: the query [build] returns starts with the projection: the
    columns given to the last [select] of the log, or the one column [*]
    when there was none, each qualified with the name of the last [from]
    of the log or else of the bucket, when that name is not null, and
    joined by commas. *)
Theorem build_projection this r this' :
  build this = (Return r, this') ->
  let from_name := match last_clause ["from"] (query this) with
                   | Some c => params c
                   | None => bucket this
                   end in
  let selected := match last_clause ["select"] (query this) with
                  | Some {| params := VArr items |} => items
                  | _ => [VStr "*"]
                  end in
  exists sections,
    Output.query r
    = String.concat " "
        (("SELECT " ++ String.concat "," (map (column from_name) selected))%string
           :: sections).
Proof.
  intros H from_name selected. rewrite build_run in H.
  destruct (collect_all (initial (bucket this)) (query this)) as [s|e] eqn:Hc;
    [|discriminate].
  apply collect_all_spec in Hc. destruct Hc as (Hsel & Hfrom & _).
  cbn [initial S_select S_from] in Hsel, Hfrom.
  apply render_inv in H.
  destruct H as (q_select & statements & groups & this1 & Hq & _ & _ & _ & ->).
  eexists. cbn [app]. f_equal. f_equal.
  unfold _select in Hq. fold from_name in Hfrom. rewrite Hfrom, Hsel in Hq.
  subst selected. destruct (last_clause ["select"] (query this)) as [[t p]|].
  - cbn [params] in Hq. destruct p; try discriminate Hq; cbn [is_nullish] in Hq;
      injection Hq as <-; rewrite <- concat_columns; reflexivity.
  - cbn [is_nullish] in Hq. injection Hq as <-.
    rewrite <- concat_columns. reflexivity.
Qed.

Lemma build_projection_witness :
  exists sections,
    "SELECT `t`.x,`t`.y FROM `t`"
    = String.concat " "
        (("SELECT " ++ String.concat "," (map (column (VStr "t")) [VStr "x"; VStr "y"]))%string
           :: sections).
Proof.
  exact (build_projection
           (snd (invoke_all [call_select [VStr "a"]; call_from (VStr "t");
                             call_select [VStr "x"; VStr "y"]]
                            (new_QueryBuilder (VStr "b"))))
           _ _ eq_refl).
Defined.

(** ** Placeholders and their values *)

Lemma parameterValue_placeholder v this p this' :
  _parameterValue v this = (Return p, this') ->
  placeholder_of (_values this') p v /\ _values this' = (_values this ++ [v])%list.
Proof.
  unfold _parameterValue. intros [= <- <-]. cbn [_values]. split; [|reflexivity].
  exists (List.length (_values this)). split.
  - rewrite List.length_app, Nat.add_1_r. reflexivity.
  - rewrite nth_error_app2, Nat.sub_diag by lia. reflexivity.
Qed.

Lemma placeholder_of_more values more text v :
  placeholder_of values text v -> placeholder_of (values ++ more) text v.
Proof.
  intros (k & Ht & Hk). exists k. split; [exact Ht|].
  rewrite nth_error_app1; [exact Hk|]. apply nth_error_Some. congruence.
Qed.

Lemma stands_for_more values more text v :
  stands_for values text v -> stands_for (values ++ more) text v.
Proof.
  unfold stands_for. destruct (is_nullish v); [trivial|]. apply placeholder_of_more.
Qed.

(** What the turns of a loop print holds of the values at its end, when
    it holds of the values after each turn and more values do not undo
    it. *)
Lemma mapM_bound {A B} (f : A -> M B) (P : list value -> A -> B -> Prop) :
  (forall values more x y, P values x y -> P (values ++ more)%list x y) ->
  (forall x this y this',
      f x this = (Return y, this') ->
      P (_values this') x y /\ exists more, _values this' = (_values this ++ more)%list) ->
  forall l this ys this',
    mapM f l this = (Return ys, this') ->
    Forall2 (P (_values this')) l ys
    /\ exists more, _values this' = (_values this ++ more)%list.
Proof.
  intros Hmore Hf. induction l as [|x l IH]; intros this ys this' H.
  - apply ret_inv in H as [-> ->]. split; [constructor|].
    exists []. symmetry. apply List.app_nil_r.
  - cbn [mapM] in H. bind_inv H as y t1 H1. bind_inv H as ys' t2 H2.
    apply ret_inv in H as [-> ->].
    destruct (Hf _ _ _ _ H1) as (Py & m1 & E1).
    destruct (IH _ _ _ H2) as (Pys & m2 & E2).
    split.
    + constructor; [|exact Pys]. rewrite E2. apply Hmore, Py.
    + exists (m1 ++ m2)%list. rewrite E2, E1. symmetry. apply List.app_assoc.
Qed.

(** X12: in what [_where] returns each comparison is printed as its
    field, the symbol of its operator and [NULL] when its value is null
    or undefined, and else a placeholder; the index of the placeholder is
    the place of that value in the values of the instance, counted from
    one.  The statements are joined by the operation in upper case. *)
Theorem where_placeholders_stand_for_values components operation this s this' :
  _where components operation this = (Return s, this') ->
  exists statements,
    s = "WHERE " ++ String.concat (" " ++ toUpperCase operation ++ " ") statements
    /\ Forall2 (fun c statement =>
                  exists symbol text,
                    operation_symbol (type c) = Some symbol
                    /\ statement
                       = ToString (get (params c) "field") ++ " " ++ symbol ++ " " ++ text
                    /\ stands_for (_values this') text (get (params c) "value"))
               components statements.
Proof.
  unfold _where. intros H. bind_inv H as statements t Hs. apply ret_inv in H as [-> ->].
  exists statements. split; [reflexivity|].
  refine (proj1 (mapM_bound where_statement
                   (fun values c statement =>
                      exists symbol text,
                        operation_symbol (type c) = Some symbol
                        /\ statement
                           = ToString (get (params c) "field") ++ " " ++ symbol ++ " " ++ text
                        /\ stands_for values text (get (params c) "value"))
                   _ _ components this statements t Hs)).
  - intros values more c st (symbol & text & H1 & H2 & H3).
    exists symbol, text. repeat split; try assumption. apply stands_for_more, H3.
  - clear. intros c this st this' H. unfold where_statement in H.
    bind_inv H as o t Ho. unfold destructure in Ho.
    destruct (is_nullish (params c)); [discriminate|].
    apply lift_inv in Ho as [[= <-] ->]. bind_inv H as text t' Hp.
    destruct (operation_symbol (type c)) as [symbol|] eqn:Hop; [|discriminate].
    apply ret_inv in H as [-> ->]. unfold stands_for.
    destruct (is_nullish (get (params c) "value")) eqn:Hv.
    + apply ret_inv in Hp as [-> ->]. split.
      * exists symbol, "NULL". repeat split; reflexivity || assumption.
      * exists []. symmetry. apply List.app_nil_r.
    + apply parameterValue_placeholder in Hp as [Hp Hvalues]. split.
      * exists symbol, text. repeat split; reflexivity || assumption.
      * eexists. exact Hvalues.
Qed.

Lemma where_placeholders_stand_for_values_witness :
  exists statements,
    "WHERE a = $1 AND b != NULL AND c IN $2"
    = "WHERE " ++ String.concat (" " ++ toUpperCase "and" ++ " ") statements
    /\ Forall2 (fun c statement =>
                  exists symbol text,
                    operation_symbol (type c) = Some symbol
                    /\ statement
                       = ToString (get (params c) "field") ++ " " ++ symbol ++ " " ++ text
                    /\ stands_for [VStr "x"; VArr [VStr "y"]] text (get (params c) "value"))
               [{| type := VStr "eq";
                   params := VObj [("field", VStr "a"); ("value", VStr "x")] |};
                {| type := VStr "ne";
                   params := VObj [("field", VStr "b"); ("value", VNull)] |};
                {| type := VStr "in";
                   params := VObj [("field", VStr "c"); ("value", VArr [VStr "y"])] |}]
               statements.
Proof.
  exact (where_placeholders_stand_for_values
           [{| type := VStr "eq";
               params := VObj [("field", VStr "a"); ("value", VStr "x")] |};
            {| type := VStr "ne";
               params := VObj [("field", VStr "b"); ("value", VNull)] |};
            {| type := VStr "in";
               params := VObj [("field", VStr "c"); ("value", VArr [VStr "y"])] |}]
           "and" (new_QueryBuilder VNull) _ _ eq_refl).
Defined.

(** X13: in what [_sort] returns each field of each group is printed as
    a placeholder followed by the order of the group; the index of the
    placeholder is the place of the field in the values of the instance,
    counted from one: the fields are bound, they are not printed. *)
Theorem sort_placeholders_stand_for_fields groups this s this' :
  _sort groups this = (Return s, this') ->
  exists statements,
    s = "ORDER BY " ++ String.concat ", " statements
    /\ Forall2 (fun group statement =>
                  exists fields parts,
                    get group "fields" = VArr fields
                    /\ statement = String.concat ", " parts
                    /\ Forall2 (fun field part =>
                                  exists text,
                                    part = text ++ " " ++ join_item (get group "order")
                                    /\ placeholder_of (_values this') text field)
                               fields parts)
               groups statements.
Proof.
  unfold _sort. intros H. bind_inv H as statements t Hs. apply ret_inv in H as [-> ->].
  exists statements. split; [reflexivity|].
  refine (proj1 (mapM_bound sort_statement
                   (fun values group statement =>
                      exists fields parts,
                        get group "fields" = VArr fields
                        /\ statement = String.concat ", " parts
                        /\ Forall2 (fun field part =>
                                      exists text,
                                        part = text ++ " " ++ join_item (get group "order")
                                        /\ placeholder_of values text field)
                                   fields parts)
                   _ _ groups this statements t Hs)).
  - intros values more g st (fields & parts & H1 & H2 & H3).
    exists fields, parts. repeat split; try assumption.
    eapply Forall2_impl; [|exact H3]. cbn beta.
    intros field part (text & Hp & Ht). exists text. split; [exact Hp|].
    apply placeholder_of_more, Ht.
  - clear. intros g this st this' H. unfold sort_statement in H.
    bind_inv H as o t Ho. unfold destructure in Ho.
    destruct (is_nullish g); [discriminate|].
    apply lift_inv in Ho as [[= <-] ->].
    destruct (get g "fields") as [| | | | |items|] eqn:Hf; try discriminate.
    bind_inv H as parts t' Hparts. apply ret_inv in H as [-> ->].
    assert (G : Forall2 (fun field part =>
                           exists text,
                             part = text ++ " " ++ join_item (get g "order")
                             /\ placeholder_of (_values t') text field) items parts
                /\ exists more, _values t' = (_values this ++ more)%list);
      [eapply (mapM_bound
                 (fun field => p <- _parameterValue field ;;
                               ret (join " " [VStr p; get g "order"]))
                 (fun values field part =>
                    exists text,
                      part = text ++ " " ++ join_item (get g "order")
                      /\ placeholder_of values text field)); [| |exact Hparts]
      | destruct G as [HF Hmore] ].
    + intros values more field part (text & Hp & Ht). exists text.
      split; [exact Hp | apply placeholder_of_more, Ht].
    + intros field t0 part t1 Hrun.
      bind_inv Hrun as p t2 Hp. apply ret_inv in Hrun as [-> ->].
      apply parameterValue_placeholder in Hp as [Hp Hvalues]. split.
      * exists p. split; [|exact Hp]. reflexivity.
      * eexists. exact Hvalues.
    + split; [|exact Hmore]. exists items, parts. repeat split. exact HF.
Qed.

Lemma sort_placeholders_stand_for_fields_witness :
  exists statements,
    "ORDER BY $1 ASC, $2 ASC, $3 DESC" = "ORDER BY " ++ String.concat ", " statements
    /\ Forall2 (fun group statement =>
                  exists fields parts,
                    get group "fields" = VArr fields
                    /\ statement = String.concat ", " parts
                    /\ Forall2 (fun field part =>
                                  exists text,
                                    part = text ++ " " ++ join_item (get group "order")
                                    /\ placeholder_of [VStr "a"; VStr "b"; VStr "c"] text field)
                               fields parts)
               [VObj [("fields", VArr [VStr "a"; VStr "b"]); ("order", VStr "ASC")];
                VObj [("fields", VArr [VStr "c"]); ("order", VStr "DESC")]]
               statements.
Proof.
  exact (sort_placeholders_stand_for_fields
           [VObj [("fields", VArr [VStr "a"; VStr "b"]); ("order", VStr "ASC")];
            VObj [("fields", VArr [VStr "c"]); ("order", VStr "DESC")]]
           (new_QueryBuilder VNull) _ _ eq_refl).
Defined.

(** ** Entries the loop of [build] has no case for *)

Lemma collect_all_without_case log : forall s,
  collect_all s (filter (has_type case_labels) log) = collect_all s log.
Proof.
  induction log as [|c log IH]; intros s; [reflexivity|].
  cbn [filter collect_all]. destruct (has_type case_labels c) eqn:Hc.
  - cbn [collect_all]. destruct (collect s c); [apply IH | reflexivity].
  - rewrite (collect_no_case s c Hc). apply IH.
Qed.

(** X14: an entry of the log whose type is not a label of the [switch]
    of [build], as a [where] with an operator of any other name or no
    string at all records it, has no part in a build, wherever it is in
    the log: [build] returns or throws the same, and binds the same
    values, as on the log without these entries.  No error is raised for
    them. *)
Theorem entries_without_case_ignored this :
  let this' := {| bucket := bucket this;
                  query := filter (has_type case_labels) (query this);
                  _values := _values this |} in
  fst (build this) = fst (build this')
  /\ _values (snd (build this)) = _values (snd (build this')).
Proof.
  intros this'. split.
  all: rewrite !build_run; subst this'; cbn [bucket query];
    rewrite collect_all_without_case;
    destruct (collect_all (initial (bucket this)) (query this)) as [s|e];
    try reflexivity;
    apply (log_blind_render s); split; reflexivity.
Qed.

(** ** Sorting by what is no list of fields *)

Lemma render_sort_throws s this q statements this1 e this2 :
  _select (S_select s) (S_from s) = Return q ->
  mapM where_statement (S_where s) this = (Return statements, this1) ->
  mapM sort_statement (S_sort s) this1 = (Throw e, this2) ->
  render s this = (Throw e, this2).
Proof.
  intros Hq Hw Hs. unfold render. rewrite Hq.
  unfold bind, lift, this_bucket, when, _where, _sort, ret.
  destruct (ToBoolean (bucket this)); unfold bind;
    (destruct (S_sort s) as [|g l] eqn:Eg; [discriminate Hs|]);
    (destruct (S_where s) as [|c w] eqn:Ew;
     [ cbn [nonempty]; apply ret_inv in Hw as [_ ->]; rewrite Hs; reflexivity
     | cbn [nonempty]; rewrite Hw; rewrite Hs; reflexivity ]).
Qed.

(** X15: [sort] checks that its fields are not null, and not that they
    are a string or an array: with a number, a boolean or an object it
    returns, and the [build] after it throws a [TypeError] in [_sort].
    That is after the values of the comparison and sort clauses before it
    are bound: on an instance that holds no object with an own property
    [toString] and no character above 127, and whose log [build] would
    render, they stay in the values of the instance. *)
Theorem sort_fields_not_checked fields o this :
  match fields with VBool _ | VNum _ | VObj _ => True | _ => False end ->
  one_of (toUpperCase o) ["ASC"; "DESC"] = true ->
  plain_instance this = true ->
  buildable (query this) = true ->
  exists this1 this2,
    sort fields (VStr o) this = (Return tt, this1)
    /\ build this1 = (Throw (TypeError "fields.map is not a function"), this2)
    /\ _values this2 = (_values this ++ bound_values (query this))%list.
Proof.
  intros Hf Ho _ Hb. apply buildable_parts in Hb as (Hn & Hp & Hc & Hs).
  set (g := VObj [("fields", fields); ("order", VStr (toUpperCase o))]).
  set (this1 := {| bucket := bucket this;
                   query := (query this ++ [{| type := VStr "sort"; params := g |}])%list;
                   _values := _values this |}).
  assert (Hsort : sort fields (VStr o) this = (Return tt, this1)).
  { unfold sort. rewrite Ho. destruct fields; try contradiction; reflexivity. }
  exists this1. rewrite build_run. subst this1. cbn [bucket query].
  rewrite collect_all_app.
  destruct (collect_all_returns (query this) (initial (bucket this)) Hn) as [s Hcs].
  rewrite Hcs.
  cbn [cbind collect_all collect type String.eqb Ascii.eqb Bool.eqb one_of existsb orb params].
  pose proof (collect_all_spec _ _ _ Hcs) as (Hsel & _ & Hw & _ & _ & _ & Hso).
  cbn [initial S_select S_where S_sort app] in Hsel, Hw, Hso.
  set (this1 := {| bucket := bucket this; query := _; _values := _values this |}).
  destruct (select_returns (S_select s) (S_from s)) as [q Hq].
  { rewrite Hsel. unfold projection_ok in Hp.
    destruct (last_clause ["select"] (query this)); [exact Hp | reflexivity]. }
  destruct (mapM_returns where_statement comparison_ok where_statement_outcome
              (filter (has_type comparison_types) (query this)) this1 Hc)
    as (ys & t1 & Hys).
  pose proof (mapM_values where_statement bound_by_where where_statement_values
                _ _ _ _ Hys) as Hv1.
  rewrite <- forallb_map in Hs.
  destruct (mapM_returns sort_statement sort_ok sort_statement_outcome
              (map params (filter (has_type ["sort"]) (query this))) t1 Hs)
    as (gs & t2 & Hgs).
  pose proof (mapM_values_returned sort_statement bound_by_sort sort_statement_values
                _ _ _ _ Hgs) as Hv2.
  exists t2. split; [exact Hsort|]. split.
  - apply (render_sort_throws _ this1 q ys t1); cbn [S_select S_from S_where S_sort].
    + exact Hq.
    + rewrite Hw. exact Hys.
    + rewrite Hso, mapM_app. unfold bind at 1. rewrite Hgs.
      cbn [mapM]. unfold bind.
      assert (E : sort_statement g t2 = (Throw (TypeError "fields.map is not a function"), t2)).
      { unfold sort_statement, bind, lift, destructure. subst g.
        cbn [is_nullish get lookup String.eqb Ascii.eqb Bool.eqb].
        destruct fields; try contradiction; reflexivity. }
      rewrite E. reflexivity.
  - rewrite Hv2, Hv1. subst this1. cbn [_values]. unfold bound_values.
    rewrite flat_map_map, <- List.app_assoc. reflexivity.
Qed.

Lemma sort_fields_not_checked_witness :
  exists this1 this2,
    sort (VNum (Finite false 5 0)) (VStr "asc") example_builder = (Return tt, this1)
    /\ build this1 = (Throw (TypeError "fields.map is not a function"), this2)
    /\ _values this2 = ([] ++ bound_values (query example_builder))%list.
Proof.
  apply (sort_fields_not_checked (VNum (Finite false 5 0)) "asc" example_builder).
  - exact I.
  - reflexivity.
  - reflexivity.
  - reflexivity.
Defined.

(** ** The order of a sort *)

Lemma upper_char_idempotent c : upper_char (upper_char c) = upper_char c.
Proof. destruct c as [[] [] [] [] [] [] [] []]; reflexivity. Qed.

Lemma toUpperCase_idempotent s : toUpperCase (toUpperCase s) = toUpperCase s.
Proof.
  induction s as [|c s IH]; [reflexivity|].
  cbn [toUpperCase]. rewrite upper_char_idempotent, IH. reflexivity.
Qed.

Lemma one_of_ASC_DESC_inv o :
  one_of o ["ASC"; "DESC"] = true -> o = "ASC" \/ o = "DESC".
Proof.
  unfold one_of. cbn [existsb].
  destruct (String.eqb_spec o "ASC") as [->|_]; [left; reflexivity|].
  destruct (String.eqb_spec o "DESC") as [->|_]; [right; reflexivity|]. discriminate.
Qed.

(** X16: [sort] takes its order in any case and records it in upper
    case: when [sort] with an order returns, the order in upper case is
    [ASC] or [DESC], the entry added to the log holds it, with the fields
    as they were given or, for one string, the list of that string, and
    the instance is the one [sort] with the order in upper case leaves. *)
Theorem sort_order_any_case fields o this this' :
  sort fields (VStr o) this = (Return tt, this') ->
  (toUpperCase o = "ASC" \/ toUpperCase o = "DESC")
  /\ sort fields (VStr (toUpperCase o)) this = (Return tt, this')
  /\ query this'
     = (query this
          ++ [{| type := VStr "sort";
                 params := VObj [("fields",
                                  match fields with
                                  | VStr _ => VArr [fields]
                                  | _ => fields
                                  end);
                                 ("order", VStr (toUpperCase o))] |}])%list.
Proof.
  unfold sort. rewrite toUpperCase_idempotent.
  destruct (is_nullish fields); [discriminate|].
  destruct (one_of (toUpperCase o) ["ASC"; "DESC"]) eqn:Ho; [|discriminate].
  cbn [negb]. intros H. split; [apply one_of_ASC_DESC_inv, Ho|].
  split; [exact H|]. unfold _add in H. injection H as <-. reflexivity.
Qed.

Lemma sort_order_any_case_witness :
  (toUpperCase "dEsc" = "ASC" \/ toUpperCase "dEsc" = "DESC")
  /\ sort (VStr "a") (VStr (toUpperCase "dEsc")) (new_QueryBuilder VNull)
     = (Return tt,
        {| bucket := VNull;
           query := [{| type := VStr "sort";
                        params := VObj [("fields", VArr [VStr "a"]);
                                        ("order", VStr "DESC")] |}];
           _values := [] |})
  /\ [{| type := VStr "sort";
         params := VObj [("fields", VArr [VStr "a"]); ("order", VStr "DESC")] |}]
     = ([] ++ [{| type := VStr "sort";
                  params := VObj [("fields", VArr [VStr "a"]);
                                  ("order", VStr (toUpperCase "dEsc"))] |}])%list.
Proof.
  exact (sort_order_any_case (VStr "a") "dEsc" (new_QueryBuilder VNull) _ eq_refl).
Defined.

(** ** Whole amounts *)

Lemma span_cons p c r :
  p c = true -> span p (String c r) = (String c (fst (span p r)), snd (span p r)).
Proof. intros H. cbn [span]. rewrite H. destruct (span p r); reflexivity. Qed.

Lemma span_all_inv p c r :
  span p (String c r) = (String c r, EmptyString) ->
  p c = true /\ span p r = (r, EmptyString).
Proof.
  cbn [span]. destruct (p c); [|discriminate].
  destruct (span p r) as [a b]. intros [= -> ->]. split; reflexivity.
Qed.

Lemma span_uint d :
  span is_digit (NilEmpty.string_of_uint d) = (NilEmpty.string_of_uint d, EmptyString).
Proof.
  induction d; cbn [NilEmpty.string_of_uint]; [reflexivity|..];
    rewrite span_cons by reflexivity; rewrite IHd; reflexivity.
Qed.

Ltac digit_values :=
  repeat match goal with
         | |- context [digit_value ?c] =>
             let v := eval vm_compute in (digit_value c) in
             change (digit_value c) with v
         end.

Lemma number_of_digits_acc d : forall acc,
  number_of_digits 10 (Npos acc) (NilEmpty.string_of_uint d) = Npos (Pos.of_uint_acc d acc).
Proof.
  induction d; intros acc;
    cbn [NilEmpty.string_of_uint number_of_digits Pos.of_uint_acc]; [reflexivity|..];
    match goal with
    | |- number_of_digits 10 ?x _ = Npos (Pos.of_uint_acc _ ?a) =>
        replace x with (Npos a) by (digit_values; lia); apply IHd
    end.
Qed.

Lemma number_of_digits_uint d :
  number_of_digits 10 0 (NilEmpty.string_of_uint d) = Pos.of_uint d.
Proof.
  induction d; cbn [NilEmpty.string_of_uint number_of_digits Pos.of_uint];
    [reflexivity | exact IHd |..];
    match goal with
    | |- number_of_digits 10 ?x _ = Npos (Pos.of_uint_acc _ ?a) =>
        change x with (Npos a); apply number_of_digits_acc
    end.
Qed.

Lemma N_to_uint_nonnil m : N.to_uint m <> Decimal.Nil.
Proof.
  destruct m; [discriminate|]. apply DecimalPos.Unsigned.to_uint_nonnil.
Qed.

Lemma digits_of_N_uint m : digits_of_N m = NilEmpty.string_of_uint (N.to_uint m).
Proof.
  unfold digits_of_N, NilZero.string_of_uint. pose proof (N_to_uint_nonnil m) as H.
  destruct (N.to_uint m); [congruence|..]; reflexivity.
Qed.

(** The digits of a number, read back, are the number. *)
Lemma digits_value m : number_of_digits 10 0 (digits_of_N m) = m.
Proof.
  rewrite digits_of_N_uint, number_of_digits_uint. apply DecimalN.Unsigned.of_to.
Qed.

Lemma digits_span m : span is_digit (digits_of_N m) = (digits_of_N m, EmptyString).
Proof. rewrite digits_of_N_uint. apply span_uint. Qed.

Lemma digits_first m : exists c r, digits_of_N m = String c r /\ is_digit c = true.
Proof.
  rewrite digits_of_N_uint. pose proof (N_to_uint_nonnil m) as H.
  destruct (N.to_uint m); [congruence|..]; eexists; eexists; split; reflexivity.
Qed.

Lemma number_of_digits_bound d : forall acc,
  (number_of_digits 10 acc (NilEmpty.string_of_uint d)
   < (acc + 1) * 10 ^ N.of_nat (String.length (NilEmpty.string_of_uint d)))%N.
Proof.
  induction d; intros acc;
    cbn [NilEmpty.string_of_uint number_of_digits String.length];
    [cbn; lia|..];
    rewrite Nat2N.inj_succ, N.pow_succ_r';
    match goal with
    | |- (number_of_digits 10 ?x ?s < _)%N =>
        pose proof (IHd x) as IH;
        assert (P : (0 < 10 ^ N.of_nat (String.length s))%N)
          by (apply N.neq_0_lt_0, N.pow_nonzero; discriminate);
        revert IH P; digit_values;
        generalize (10 ^ N.of_nat (String.length s))%N;
        generalize (number_of_digits 10 x s)
    end;
    digit_values; intros; nia.
Qed.

Lemma digits_bound m : (m < 10 ^ N.of_nat (String.length (digits_of_N m)))%N.
Proof.
  pose proof (number_of_digits_bound (N.to_uint m) 0) as H.
  rewrite <- digits_of_N_uint, digits_value in H. lia.
Qed.

Lemma strip_trailing_zeros_zeros s :
  strip_trailing_zeros s
    ++ zeros (String.length s - String.length (strip_trailing_zeros s)) = s.
Proof.
  induction s as [|c r IH]; [reflexivity|].
  cbn [strip_trailing_zeros]. destruct (strip_trailing_zeros r) as [|a r'] eqn:E.
  - cbn [String.length append] in IH. rewrite Nat.sub_0_r in IH.
    destruct (Ascii.eqb_spec c "0") as [->|_].
    + cbn [String.length append Nat.sub zeros]. rewrite IH. reflexivity.
    + cbn [String.length append Nat.sub]. rewrite Nat.sub_0_r, IH. reflexivity.
  - cbn [String.length append Nat.sub] in IH |- *. rewrite IH. reflexivity.
Qed.

Lemma strip_trailing_zeros_length s :
  (String.length (strip_trailing_zeros s) <= String.length s)%nat.
Proof.
  induction s as [|c r IH]; [apply le_n|].
  cbn [strip_trailing_zeros]. destruct (strip_trailing_zeros r) as [|a r'].
  - destruct (Ascii.eqb c "0"); cbn [String.length]; lia.
  - cbn [String.length] in *. lia.
Qed.

(** A whole number of at most 21 digits is printed by its digits. *)
Lemma Number_toString_whole m :
  (String.length (digits_of_N m) <= 21)%nat ->
  Number_toString (Finite false m 0) = digits_of_N m.
Proof.
  intros H. unfold Number_toString.
  destruct (N.eqb_spec m 0) as [->|_]; [reflexivity|].
  pose proof (strip_trailing_zeros_length (digits_of_N m)) as L.
  pose proof (strip_trailing_zeros_zeros (digits_of_N m)) as Z.
  cbv zeta.
  replace (Z.of_nat (String.length (strip_trailing_zeros (digits_of_N m)))
           <=? Z.of_nat (String.length (digits_of_N m)) + 0)%Z with true
    by (symmetry; apply Z.leb_le; lia).
  replace (Z.of_nat (String.length (digits_of_N m)) + 0 <=? 21)%Z with true
    by (symmetry; apply Z.leb_le; lia).
  cbn [andb append].
  replace (Z.to_nat (Z.of_nat (String.length (digits_of_N m)) + 0
                     - Z.of_nat (String.length (strip_trailing_zeros (digits_of_N m)))))
    with (String.length (digits_of_N m)
          - String.length (strip_trailing_zeros (digits_of_N m)))%nat by lia.
  exact Z.
Qed.

Lemma digit_not_whitespace c : is_digit c = true -> is_whitespace c = false.
Proof. destruct c as [[] [] [] [] [] [] [] []]; try discriminate; reflexivity. Qed.

Lemma take_sign_digit c r : is_digit c = true -> take_sign (String c r) = (false, String c r).
Proof. destruct c as [[] [] [] [] [] [] [] []]; try discriminate; reflexivity. Qed.

Lemma starts_with_no_digit a b s :
  is_digit b = false -> span is_digit s = (s, EmptyString) ->
  starts_with (String a (String b EmptyString)) s = false.
Proof.
  intros Hb Hs. unfold starts_with. destruct s as [|c [|d r]]; [reflexivity| |].
  - cbn [String.prefix]. destruct (ascii_dec a c); reflexivity.
  - apply span_all_inv in Hs as [_ Hs]. apply span_all_inv in Hs as [Hd _].
    cbn [String.prefix]. destruct (ascii_dec a c); [|reflexivity].
    destruct (ascii_dec b d); [congruence | reflexivity].
Qed.

Lemma trimEnd_digits s : span is_digit s = (s, EmptyString) -> trimEnd s = s.
Proof.
  induction s as [|c r IH]; [reflexivity|].
  intros H. apply span_all_inv in H as [Hc Hr]. cbn [trimEnd]. rewrite (IH Hr).
  destruct r; [|reflexivity]. rewrite (digit_not_whitespace c Hc). reflexivity.
Qed.

(** [parseInt] of the digits of a number is the number. *)
Lemma parseInt_digits v m : ToString v = digits_of_N m -> parseInt v = Finite false m 0.
Proof.
  intros H. unfold parseInt. rewrite H.
  pose proof (digits_span m) as Hs. pose proof (digits_value m) as Hv.
  destruct (digits_first m) as (c & r & E & Hc). rewrite E in *.
  cbn [trimStart]. rewrite (digit_not_whitespace c Hc), (take_sign_digit c r Hc).
  rewrite !starts_with_no_digit by (reflexivity || exact Hs).
  cbn [orb]. rewrite Hs, Hv. reflexivity.
Qed.

Lemma parseFloat_digits v m : ToString v = digits_of_N m -> parseFloat_isNaN v = false.
Proof.
  intros H. unfold parseFloat_isNaN. rewrite H.
  destruct (digits_first m) as (c & r & E & Hc). rewrite E.
  cbn [trimStart]. rewrite (digit_not_whitespace c Hc), (take_sign_digit c r Hc).
  rewrite Hc. cbn [orb]. rewrite orb_true_r. reflexivity.
Qed.

(** The digits of a number, as a string, convert to the number. *)
Lemma StringToNumber_digits m : StringToNumber (digits_of_N m) = Finite false m 0.
Proof.
  unfold StringToNumber, trim.
  pose proof (digits_span m) as Hs. pose proof (digits_value m) as Hv.
  destruct (digits_first m) as (c & r & E & Hc). rewrite E in *.
  cbn [trimStart]. rewrite (digit_not_whitespace c Hc), (trimEnd_digits _ Hs).
  cbn [String.eqb].
  rewrite !starts_with_no_digit by (reflexivity || exact Hs).
  cbn [orb]. unfold decimal_literal. rewrite (take_sign_digit c r Hc).
  assert (Hi : String.eqb (String c r) "Infinity" = false).
  { cbn [String.eqb]. destruct (Ascii.eqb_spec c "I") as [->|_]; [discriminate Hc|].
    reflexivity. }
  rewrite Hi, Hs. cbn [append]. rewrite append_nil_r.
  cbn [exponent_part String.length Z.of_nat Z.sub Z.opp Z.add]. rewrite Hv. reflexivity.
Qed.

Lemma isNumeric_whole v m :
  ToString v = digits_of_N m -> ToNumber v = Finite false m 0 ->
  (String.length (digits_of_N m) <= 15)%nat ->
  isNumeric v = true.
Proof.
  intros Hs Hn Hl. unfold isNumeric, isFinite.
  rewrite (parseFloat_digits v m Hs), Hn. cbn [negb andb].
  unfold rounds_to_finite. cbn [Z.leb Z.compare]. apply Z.ltb_lt.
  pose proof (digits_bound m) as B.
  assert (P : (10 ^ N.of_nat (String.length (digits_of_N m)) <= 10 ^ 15)%N)
    by (apply N.pow_le_mono_r; [discriminate | lia]).
  assert (Q : (Z.of_N (10 ^ 15) < 2 ^ 1024 - 2 ^ 970)%Z) by (vm_compute; reflexivity).
  rewrite Z.pow_0_r, Z.mul_1_r.
  apply Z.lt_trans with (Z.of_N (10 ^ 15)); [|exact Q].
  apply N2Z.inj_lt. eapply N.lt_le_trans; eassumption.
Qed.

(** X17: a whole amount of at most fifteen digits, given to [limit] or
    [skip] as a number or as the string of its digits, passes the numeric
    check of [build] and is rendered by these digits. *)
Theorem whole_amounts_rendered m k :
  (String.length (digits_of_N m) <= 15)%nat ->
  (String.length (digits_of_N k) <= 15)%nat ->
  fst ((limit (VNum (Finite false m 0)) ;;; skip (VStr (digits_of_N k)) ;;; build)
         (new_QueryBuilder VUndefined))
  = Return (Output.mk ("SELECT * LIMIT " ++ digits_of_N m ++ " OFFSET " ++ digits_of_N k) []).
Proof.
  intros Hm Hk.
  assert (Tm : ToString (VNum (Finite false m 0)) = digits_of_N m).
  { cbn [ToString]. apply Number_toString_whole. lia. }
  assert (Nm : isNumeric (VNum (Finite false m 0)) = true).
  { apply (isNumeric_whole _ m); [exact Tm | reflexivity | exact Hm]. }
  assert (Nk : isNumeric (VStr (digits_of_N k)) = true).
  { apply (isNumeric_whole _ k); [reflexivity | apply StringToNumber_digits | exact Hk]. }
  unfold bind, limit, skip, _add. cbn [is_nullish new_QueryBuilder query bucket _values app].
  rewrite build_run. cbn [query bucket collect_all].
  unfold collect at 1.
  cbn [type params String.eqb Ascii.eqb Bool.eqb one_of existsb orb].
  rewrite Nm. cbn [negb]. unfold collect at 1.
  cbn [type params String.eqb Ascii.eqb Bool.eqb one_of existsb orb].
  rewrite Nk. cbn [negb].
  rewrite (parseInt_digits _ m Tm), (parseInt_digits (VStr (digits_of_N k)) k eq_refl).
  unfold render, bind, lift, this_bucket, when, ret, _getQueryValues, _limit, _skip.
  cbn [initial S_select S_from S_where S_rawWhere S_sort S_limit S_skip _select is_nullish
       negb bucket ToBoolean nonempty _values map fst].
  rewrite !Number_toString_whole by lia.
  f_equal.
Qed.

Lemma whole_amounts_rendered_witness :
  fst ((limit (VNum (Finite false 25 0)) ;;; skip (VStr (digits_of_N 100)) ;;; build)
         (new_QueryBuilder VUndefined))
  = Return (Output.mk ("SELECT * LIMIT " ++ digits_of_N 25 ++ " OFFSET " ++ digits_of_N 100) []).
Proof. apply (whole_amounts_rendered 25 100); vm_compute; lia. Defined.

(** ** The query and the bound values *)

Lemma parameterValue_alike v v' this this' p p' t t' :
  List.length (_values this) = List.length (_values this') ->
  _parameterValue v this = (Return p, t) ->
  _parameterValue v' this' = (Return p', t') ->
  p = p' /\ List.length (_values t) = List.length (_values t').
Proof.
  unfold _parameterValue. intros H [= <- <-] [= <- <-]. cbn [_values].
  rewrite !List.length_app, H. split; reflexivity.
Qed.

Lemma mapM_alike {A B} (f f' : A -> M B) (R : A -> A -> Prop) :
  (forall x x' this this' y y' t t',
      R x x' -> List.length (_values this) = List.length (_values this') ->
      f x this = (Return y, t) -> f' x' this' = (Return y', t') ->
      y = y' /\ List.length (_values t) = List.length (_values t')) ->
  forall l l', Forall2 R l l' ->
  forall this this' ys ys' t t',
    List.length (_values this) = List.length (_values this') ->
    mapM f l this = (Return ys, t) -> mapM f' l' this' = (Return ys', t') ->
    ys = ys' /\ List.length (_values t) = List.length (_values t').
Proof.
  intros Hf l l' HR. induction HR as [|x x' l l' Hx _ IH]; intros this this' ys ys' t t' Hl H H'.
  - apply ret_inv in H as [-> ->]. apply ret_inv in H' as [-> ->]. split; [reflexivity | exact Hl].
  - cbn [mapM] in H, H'.
    bind_inv H as y t1 H1. bind_inv H as zs t2 H2. apply ret_inv in H as [-> ->].
    bind_inv H' as y' t1' H1'. bind_inv H' as zs' t2' H2'. apply ret_inv in H' as [-> ->].
    destruct (Hf _ _ _ _ _ _ _ _ Hx Hl H1 H1') as [-> Hl1].
    destruct (IH _ _ _ _ _ _ Hl1 H2 H2') as [-> Hl2].
    split; [reflexivity | exact Hl2].
Qed.

Lemma where_statement_alike c c' this this' s s' t t' :
  comparisons_alike c c' ->
  List.length (_values this) = List.length (_values this') ->
  where_statement c this = (Return s, t) -> where_statement c' this' = (Return s', t') ->
  s = s' /\ List.length (_values t) = List.length (_values t').
Proof.
  intros (Ht & Hf & Hv) Hl H H'. unfold where_statement in H, H'.
  bind_inv H as o t0 Ho. unfold destructure in Ho.
  destruct (is_nullish (params c)); [discriminate|].
  apply lift_inv in Ho as [[= <-] ->]. bind_inv H as p t1 Hp.
  bind_inv H' as o' t0' Ho'. unfold destructure in Ho'.
  destruct (is_nullish (params c')); [discriminate|].
  apply lift_inv in Ho' as [[= <-] ->]. bind_inv H' as p' t1' Hp'.
  rewrite <- Ht in H'. rewrite <- Hf in H'.
  destruct (operation_symbol (type c)) as [symbol|]; [|discriminate].
  apply ret_inv in H as [-> ->]. apply ret_inv in H' as [-> ->].
  rewrite <- Hv in Hp'. destruct (is_nullish (get (params c) "value")).
  - apply ret_inv in Hp as [-> ->]. apply ret_inv in Hp' as [-> ->].
    split; [reflexivity | exact Hl].
  - destruct (parameterValue_alike _ _ _ _ _ _ _ _ Hl Hp Hp') as [-> Hl1].
    split; [reflexivity | exact Hl1].
Qed.

Lemma Forall2_same_length {A} (l l' : list A) :
  List.length l = List.length l' -> Forall2 (fun _ _ => True) l l'.
Proof.
  revert l'. induction l as [|x l IH]; intros [|x' l'] H; try discriminate; constructor.
  - exact I.
  - apply IH. injection H as H. exact H.
Qed.

Lemma sort_statement_alike g g' this this' s s' t t' :
  groups_alike g g' ->
  List.length (_values this) = List.length (_values this') ->
  sort_statement g this = (Return s, t) -> sort_statement g' this' = (Return s', t') ->
  s = s' /\ List.length (_values t) = List.length (_values t').
Proof.
  intros (Ho & Hn) Hl H H'. unfold sort_statement in H, H'.
  bind_inv H as o t0 Hd. unfold destructure in Hd.
  destruct (is_nullish g); [discriminate|].
  apply lift_inv in Hd as [[= <-] ->].
  bind_inv H' as o' t0' Hd'. unfold destructure in Hd'.
  destruct (is_nullish g'); [discriminate|].
  apply lift_inv in Hd' as [[= <-] ->].
  unfold bound_by_sort in Hn.
  destruct (get g "fields") as [| | | | |items|]; try discriminate.
  destruct (get g' "fields") as [| | | | |items'|]; try discriminate.
  bind_inv H as parts t1 Hp. apply ret_inv in H as [-> ->].
  bind_inv H' as parts' t1' Hp'. apply ret_inv in H' as [-> ->].
  rewrite <- Ho in Hp'.
  assert (G : parts = parts' /\ List.length (_values t1) = List.length (_values t1')).
  { refine (mapM_alike _ _ (fun _ _ : value => True) _ items items'
              (Forall2_same_length _ _ Hn) _ _ _ _ _ _ Hl Hp Hp').
    clear. intros x x' this this' y y' t t' _ Hl H H'.
    bind_inv H as p t1 Hp. apply ret_inv in H as [-> ->].
    bind_inv H' as p' t1' Hp'. apply ret_inv in H' as [-> ->].
    destruct (parameterValue_alike _ _ _ _ _ _ _ _ Hl Hp Hp') as [-> Hl1].
    split; [reflexivity | exact Hl1]. }
  destruct G as [-> Hl1]. split; [reflexivity | exact Hl1].
Qed.

Lemma Forall2_nonempty {A} (R : A -> A -> Prop) l l' :
  Forall2 R l l' -> nonempty l = nonempty l'.
Proof. intros []; reflexivity. Qed.

Lemma render_alike s s' this this' r r' t t' :
  clauses_alike s s' ->
  bucket this = bucket this' ->
  List.length (_values this) = List.length (_values this') ->
  render s this = (Return r, t) -> render s' this' = (Return r', t') ->
  Output.query r = Output.query r'.
Proof.
  intros (A1 & A2 & A3 & A4 & A5 & A6 & A7) Hb Hl H H'.
  apply render_inv in H. apply render_inv in H'.
  destruct H as (q & statements & groups & t1 & Hq & Hw & Hs & _ & ->).
  destruct H' as (q' & statements' & groups' & t1' & Hq' & Hw' & Hs' & _ & ->).
  rewrite <- A1, <- A2, Hq in Hq'. injection Hq' as <-.
  destruct (mapM_alike _ _ _ where_statement_alike _ _ A3 _ _ _ _ _ _ Hl Hw Hw')
    as [<- Hl1].
  destruct (mapM_alike _ _ _ sort_statement_alike _ _ A7 _ _ _ _ _ _ Hl1 Hs Hs')
    as [<- _].
  rewrite <- Hb, <- A2, <- A5, <- A6.
  rewrite <- (Forall2_nonempty _ _ _ A3), <- (Forall2_nonempty _ _ _ A7).
  destruct (S_rawWhere s) as [c|], (S_rawWhere s') as [c'|]; try discriminate A4.
  - injection A4 as ->. reflexivity.
  - reflexivity.
Qed.

Lemma collect_alike s s' c c' s1 s1' :
  clauses_alike s s' -> prints_alike c c' ->
  collect s c = Return s1 -> collect s' c' = Return s1' ->
  clauses_alike s1 s1'.
Proof.
  intros (A1 & A2 & A3 & A4 & A5 & A6 & A7) (Ht & Hp).
  unfold collect. rewrite <- Ht. unfold has_type, comparison_types, one_of in Hp.
  destruct (type c) as [| | | |t| |] eqn:Et;
    try (intros [= <-] [= <-]; repeat split; assumption).
  cbn [existsb] in Hp |- *. unfold one_of. cbn [existsb].
  revert Hp.
  switch_on t; cbn [orb]; intros Hp;
    try (rewrite <- Hp; destruct (negb _));
    intros [= <-] [= <-]; try discriminate; unfold clauses_alike; cbn;
    repeat split; try assumption; try congruence;
    try (apply Forall2_app; [assumption | constructor; [|constructor]]);
    try exact Hp; try (split; [congruence | exact Hp]).
Qed.

Lemma collect_all_alike log log' :
  Forall2 prints_alike log log' ->
  forall s s' s1 s1',
    clauses_alike s s' ->
    collect_all s log = Return s1 -> collect_all s' log' = Return s1' ->
    clauses_alike s1 s1'.
Proof.
  induction 1 as [|c c' log log' Hc _ IH]; intros s s' s1 s1' Hs H H'; cbn [collect_all] in *.
  - injection H as <-. injection H' as <-. exact Hs.
  - destruct (collect s c) as [s2|] eqn:E; [|discriminate].
    destruct (collect s' c') as [s2'|] eqn:E'; [|discriminate].
    eapply IH; [|exact H|exact H']. eapply collect_alike; eassumption.
Qed.

(** X18: the query [build] returns does not depend on the values it
    binds: on two instances with the same bucket and as many values,
    whose logs differ at most in the values of their comparison clauses
    (null or undefined on both sides, or on neither) and in the fields of
    their sort clauses (as many on both sides), the builds that return
    return the same query. *)
Theorem query_independent_of_values this this' r t r' t' :
  bucket this = bucket this' ->
  List.length (_values this) = List.length (_values this') ->
  Forall2 prints_alike (query this) (query this') ->
  build this = (Return r, t) -> build this' = (Return r', t') ->
  Output.query r = Output.query r'.
Proof.
  intros Hb Hl Hlog. rewrite !build_run.
  destruct (collect_all (initial (bucket this)) (query this)) as [s|] eqn:E; [|discriminate].
  destruct (collect_all (initial (bucket this')) (query this')) as [s'|] eqn:E';
    [|discriminate].
  apply render_alike; try assumption.
  eapply collect_all_alike; [exact Hlog | | exact E | exact E'].
  rewrite <- Hb. repeat split; constructor.
Qed.

Lemma query_independent_of_values_witness :
  Output.query
    (Output.mk "SELECT `b`.* FROM `b` WHERE a = $1 ORDER BY $2 DESC LIMIT 3"
               [VNum (Finite false 1 0); VStr "name"])
  = Output.query
      (Output.mk "SELECT `b`.* FROM `b` WHERE a = $1 ORDER BY $2 DESC LIMIT 3"
                 [VStr "1 OR 1 = 1"; VStr "age"]).
Proof.
  refine (query_independent_of_values
            (snd (invoke_all [call_where (VStr "a") (VStr "eq") (VNum (Finite false 1 0));
                              call_sort (VStr "name") (VStr "desc");
                              call_limit (VStr "3")]
                             (new_QueryBuilder (VStr "b"))))
            (snd (invoke_all [call_where (VStr "a") (VStr "eq") (VStr "1 OR 1 = 1");
                              call_sort (VStr "age") (VStr "desc");
                              call_limit (VStr "3")]
                             (new_QueryBuilder (VStr "b"))))
            _ _ _ _ eq_refl eq_refl _ eq_refl eq_refl).
  repeat constructor.
Defined.


(* ===================================================================== *)
(** * The last raw clause, and a second build *)
(* ===================================================================== *)

(** ** The last raw clause *)

Lemma last_clause_app names l1 l2 :
  last_clause names (l1 ++ l2)
  = match last_clause names l2 with
    | Some c => Some c
    | None => last_clause names l1
    end.
Proof.
  induction l1 as [|c l1 IH]; cbn [app last_clause].
  - destruct (last_clause names l2); reflexivity.
  - rewrite IH. destruct (last_clause names l2); reflexivity.
Qed.

Lemma filter_only_last names log :
  filter (has_type names) (only_last names log)
  = match last_clause names log with
    | Some c => [c]
    | None => []
    end.
Proof.
  induction log as [|c log IH]; [reflexivity|].
  cbn [only_last last_clause]. destruct (has_type names c) eqn:Hc; cbn [andb].
  - destruct (existsb (has_type names) log) eqn:Hl.
    + rewrite IH. destruct (last_clause_some _ _ Hl) as [x ->]. reflexivity.
    + cbn [filter]. rewrite Hc, IH, (last_clause_none _ _ Hl). reflexivity.
  - cbn [filter]. rewrite Hc, IH. destruct (last_clause names log); reflexivity.
Qed.

(** A call that records no raw clause adds one entry, of another type. *)
Lemma invoke_no_raw c this this' :
  records_raw c = false -> invoke c this = (Return tt, this') ->
  exists e, query this' = (query this ++ [e])%list /\ has_type ["rawWhere"] e = false.
Proof.
  intros Hc H.
  assert (G : forall type params,
             has_type ["rawWhere"] {| type := type; params := params |} = false ->
             _add type params this = (Return tt, this') ->
             exists e, query this' = (query this ++ [e])%list
                       /\ has_type ["rawWhere"] e = false).
  { intros type params Ht Hadd. apply add_inv in Hadd as (_ & _ & Q).
    eexists. split; [exact Q | exact Ht]. }
  destruct c as [selected|name|amount|amount|fields order|field operation value|value];
    cbn [invoke records_raw] in H, Hc.
  - eapply G; [|exact H]. reflexivity.
  - eapply G; [|exact H]. reflexivity.
  - unfold limit in H. destruct (is_nullish amount); [discriminate|].
    eapply G; [|exact H]. reflexivity.
  - unfold skip in H. destruct (is_nullish amount); [discriminate|].
    eapply G; [|exact H]. reflexivity.
  - unfold sort in H. destruct (is_nullish fields); [discriminate|].
    destruct (match order with VUndefined => VStr "ASC" | _ => order end);
      try discriminate.
    destruct (negb _); [discriminate|].
    eapply G; [|exact H]. reflexivity.
  - eapply G; [|exact H]. unfold has_type, one_of. cbn [type existsb].
    destruct operation; try reflexivity. rewrite Hc. reflexivity.
  - discriminate Hc.
Qed.

Lemma invoke_all_no_raw calls : forall this this',
  forallb (fun c => negb (records_raw c)) calls = true ->
  invoke_all calls this = (Return tt, this') ->
  exists added,
    query this' = (query this ++ added)%list
    /\ existsb (has_type ["rawWhere"]) added = false.
Proof.
  unfold invoke_all. induction calls as [|c calls IH]; intros this this' Hc H.
  - apply ret_inv in H as [_ ->]. exists []. split; [|reflexivity].
    symmetry. apply List.app_nil_r.
  - cbn [forallb] in Hc. apply andb_true_iff in Hc as [Hc Hl].
    apply negb_true_iff in Hc.
    cbn [forEach] in H. bind_inv H as u this0 H0. destruct u.
    destruct (invoke_no_raw _ _ _ Hc H0) as (e & Q0 & He).
    destruct (IH _ _ Hl H) as (added & Q & Ha).
    exists (e :: added). split.
    + rewrite Q, Q0, <- List.app_assoc. reflexivity.
    + cbn [existsb]. rewrite He, Ha. reflexivity.
Qed.

(** C10: after [rawWhere(text)], whatever raw clauses the builder holds
    from calls before, and with no call that records a raw clause between
    it and [build()], the query [build()] returns has one raw [WHERE]
    section, between the [WHERE] of the comparisons and [ORDER BY], and it
    holds this last text.  The raw clauses recorded before have no part in
    it: on the log without them, in which the entry of the last call is
    the one raw clause left, [build()] returns the same pair and binds the
    same values. *)
Theorem rawWhere_last_wins this text after this1 r this2 :
  invoke_all (call_rawWhere text :: after) this = (Return tt, this1) ->
  forallb (fun c => negb (records_raw c)) after = true ->
  build this1 = (Return r, this2) ->
  let log := query this1 in
  let from_name := match last_clause ["from"] log with
                   | Some c => params c
                   | None => bucket this1
                   end in
  let comparisons := filter (has_type comparison_types) log in
  let this1' := {| bucket := bucket this1;
                   query := only_last ["rawWhere"] log;
                   _values := _values this1 |} in
  (exists columns statements groups,
      Forall2 is_statement comparisons statements
      /\ Output.query r =
         String.concat " "
           ([("SELECT " ++ columns)%string]
              ++ (if ToBoolean (bucket this1)
                  then [("FROM `" ++ ToString from_name ++ "`")%string] else [])
              ++ (if nonempty comparisons
                  then [("WHERE " ++ String.concat " AND " statements)%string] else [])
              ++ [("WHERE " ++ join_item text)%string]
              ++ (if nonempty (filter (has_type ["sort"]) log)
                  then [("ORDER BY " ++ groups)%string] else [])
              ++ (match last_clause ["limit"] log with
                  | Some c => [("LIMIT " ++ Number_toString (parseInt (params c)))%string]
                  | None => []
                  end)
              ++ (match last_clause ["skip"] log with
                  | Some c => [("OFFSET " ++ Number_toString (parseInt (params c)))%string]
                  | None => []
                  end))%list)
  /\ filter (has_type ["rawWhere"]) (query this1')
     = [{| type := VStr "rawWhere"; params := text |}]
  /\ fst (build this1') = Return r
  /\ _values (snd (build this1')) = _values this2.
Proof.
  intros Hrun Hafter H log from_name comparisons this1'.
  assert (Hlast : last_clause ["rawWhere"] log
                  = Some {| type := VStr "rawWhere"; params := text |}).
  { unfold invoke_all in Hrun. cbn [forEach] in Hrun. bind_inv Hrun as u this0 H0.
    cbn [invoke] in H0. apply add_inv in H0 as (_ & _ & Q0).
    destruct (invoke_all_no_raw _ _ _ Hafter Hrun) as (added & Q & Ha).
    subst log. rewrite Q, Q0, last_clause_app, (last_clause_none _ _ Ha).
    rewrite last_clause_snoc. reflexivity. }
  split; [|split; [|split]].
  - rewrite build_run in H.
    destruct (collect_all (initial (bucket this1)) (query this1)) as [s|e] eqn:Hc;
      [|discriminate].
    apply collect_all_spec in Hc.
    cbn [initial S_select S_from S_where S_rawWhere S_limit S_skip S_sort] in Hc.
    destruct Hc as (_ & Hfrom & Hwhere & Hraw & Hlimit & Hskip & Hsort).
    apply render_sections in H.
    destruct H as (q_select & statements & q_sort & Hsel & Hst & Hq).
    apply select_inv in Hsel as [columns ->].
    exists columns, statements, q_sort.
    simpl in Hwhere, Hsort. rewrite Hwhere in Hst, Hq.
    fold log in Hfrom, Hraw, Hlimit, Hskip, Hsort, Hst, Hq.
    rewrite Hlast in Hraw.
    rewrite Hfrom, Hraw, Hlimit, Hskip, Hsort in Hq.
    split; [exact Hst|]. rewrite Hq. unfold _from. fold from_name. fold comparisons.
    f_equal. f_equal. f_equal. f_equal. f_equal.
    f_equal; [destruct (filter (has_type ["sort"]) log); reflexivity|].
    f_equal; [destruct (last_clause ["limit"] log); reflexivity|].
    destruct (last_clause ["skip"] log); reflexivity.
  - subst this1'. cbn [query]. rewrite filter_only_last, Hlast. reflexivity.
  - pose proof (raw_clauses_overwritten this1) as (E & _). fold log in E.
    fold this1' in E. rewrite <- E, H. reflexivity.
  - pose proof (raw_clauses_overwritten this1) as (_ & E & _). fold log in E.
    fold this1' in E. rewrite <- E, H. reflexivity.
Qed.

Lemma rawWhere_last_wins_witness :
  exists columns statements,
    Forall2 is_statement
      [{| type := VStr "eq";
          params := VObj [("field", VStr "a"); ("value", VNum (Finite false 1 0))] |}]
      statements
    /\ "SELECT `b`.* FROM `b` WHERE a = $1 WHERE y = 2 LIMIT 5"
       = String.concat " "
           [("SELECT " ++ columns)%string;
            "FROM `b`";
            ("WHERE " ++ String.concat " AND " statements)%string;
            "WHERE y = 2";
            "LIMIT 5"].
Proof.
  destruct (rawWhere_last_wins
              {| bucket := VStr "b";
                 query := [{| type := VStr "rawWhere"; params := VStr "x = 1" |};
                           {| type := VStr "eq";
                              params := VObj [("field", VStr "a");
                                              ("value", VNum (Finite false 1 0))] |}];
                 _values := [] |}
              (VStr "y = 2") [call_limit (VStr "5")]
              {| bucket := VStr "b";
                 query := [{| type := VStr "rawWhere"; params := VStr "x = 1" |};
                           {| type := VStr "eq";
                              params := VObj [("field", VStr "a");
                                              ("value", VNum (Finite false 1 0))] |};
                           {| type := VStr "rawWhere"; params := VStr "y = 2" |};
                           {| type := VStr "limit"; params := VStr "5" |}];
                 _values := [] |}
              (Output.mk "SELECT `b`.* FROM `b` WHERE a = $1 WHERE y = 2 LIMIT 5"
                         [VNum (Finite false 1 0)])
              {| bucket := VStr "b";
                 query := [{| type := VStr "rawWhere"; params := VStr "x = 1" |};
                           {| type := VStr "eq";
                              params := VObj [("field", VStr "a");
                                              ("value", VNum (Finite false 1 0))] |};
                           {| type := VStr "rawWhere"; params := VStr "y = 2" |};
                           {| type := VStr "limit"; params := VStr "5" |}];
                 _values := [VNum (Finite false 1 0)] |}
              eq_refl eq_refl eq_refl)
    as [(columns & statements & groups & Hst & Hq) _].
  exists columns, statements. split; [exact Hst | exact Hq].
Defined.

(** ** A second [build] *)

Lemma build_keeps this r this1 :
  build this = (Return r, this1) -> bucket this1 = bucket this /\ query this1 = query this.
Proof.
  intros H. pose proof (similar_build this this eq_refl eq_refl) as (_ & B & _ & Q & _).
  rewrite H in B, Q. split; assumption.
Qed.

Lemma build_numbers_bound this r this1 :
  clean (bucket this) -> Forall clean_component (query this) ->
  build this = (Return r, this1) ->
  placeholders (Output.query r)
  = map N.of_nat (seq (S (List.length (_values this)))
                      (List.length (bound_values (query this)))).
Proof.
  intros Hb Hlog H. pose proof (build_bound _ _ _ H) as V.
  apply build_numbers in H as [(bound & Hv & ->) _]; [|exact Hb|exact Hlog].
  rewrite V in Hv. apply app_inv_head in Hv. subst bound. reflexivity.
Qed.

(** C2 (amended): on an instance on which [build()] has returned, a second
    [build()] returns the same pair exactly when the first one bound no
    parameter, that is when it left the values of the instance as they
    were.  The values the first returns are the values the instance has
    after it: those it had, followed by the values the first bound.  The
    second [build()] returns in any case, and it binds the parameters of
    the first again: its values are those of the first followed by the
    values the first bound, a longer list when the first bound a
    parameter; and on an instance in which no name holds a dollar sign
    the placeholders of the first query are numbered on from the values
    the instance had, and those of the second on from the first's. *)
Theorem build_twice this r this1 :
  build this = (Return r, this1) ->
  (fst (build this1) = Return r <-> _values this1 = _values this)
  /\ exists r2 this2,
      build this1 = (Return r2, this2)
      /\ _values this1 = Output.values r
      /\ Output.values r = (_values this ++ bound_values (query this))%list
      /\ Output.values r2 = (Output.values r ++ bound_values (query this))%list
      /\ (_values this1 <> _values this ->
          (List.length (Output.values r) < List.length (Output.values r2))%nat)
      /\ (clean (bucket this) -> Forall clean_component (query this) ->
          let n := List.length (_values this) in
          let m := List.length (bound_values (query this)) in
          placeholders (Output.query r) = map N.of_nat (seq (S n) m)
          /\ placeholders (Output.query r2) = map N.of_nat (seq (S (n + m)) m)).
Proof.
  intros H. split; [apply build_again_same, H|].
  pose proof (build_keeps _ _ _ H) as [B Q].
  pose proof (build_bound _ _ _ H) as V1.
  pose proof (build_values _ _ _ H) as R1.
  assert (Hb : buildable (query this1) = true).
  { rewrite Q. pose proof (build_outcome this) as Ho. rewrite H in Ho. exact Ho. }
  destruct (build_returns_iff_aux this1 Hb) as (r2 & this2 & H2).
  pose proof (build_bound _ _ _ H2) as V2.
  pose proof (build_values _ _ _ H2) as R2.
  rewrite Q in V2.
  exists r2, this2. split; [exact H2|].
  split; [congruence|]. split; [congruence|]. split; [congruence|]. split.
  - intros Hne. rewrite R2, V2, R1, List.length_app.
    destruct (bound_values (query this)) as [|v l].
    + rewrite List.app_nil_r in V1. congruence.
    + cbn [List.length]. lia.
  - intros Hc Hl n m. split.
    + apply build_numbers_bound with (this1 := this1); assumption.
    + rewrite (build_numbers_bound this1 r2 this2); rewrite ?B, ?Q; try assumption.
      rewrite V1, List.length_app. reflexivity.
Qed.

Lemma build_twice_witness :
  exists r2 this2,
    build (snd (build example_builder)) = (Return r2, this2)
    /\ Output.values r2
       = [VNum (Finite false 1 0); VStr "name"; VNum (Finite false 1 0); VStr "name"]
    /\ placeholders (Output.query r2) = [3%N; 4%N].
Proof.
  destruct (build_twice example_builder
              (Output.mk
                 "SELECT `b`.* FROM `b` WHERE a = $1 WHERE x = 1 ORDER BY $2 ASC LIMIT 10 OFFSET 5"
                 [VNum (Finite false 1 0); VStr "name"])
              (snd (build example_builder)) eq_refl)
    as (_ & r2 & this2 & H2 & _ & _ & V2 & _ & P).
  exists r2, this2. split; [exact H2|]. split; [exact V2|].
  apply P; [reflexivity|].
  vm_compute query. repeat constructor; cbn; try discriminate; reflexivity.
Defined.
